(** * Gradebook Analyzer: a shallow embedding of [gradebook.py]

    The script reads a name -> mark mapping (typed in or loaded from a CSV
    file), computes descriptive statistics, assigns letter grades, prints a
    report and optionally exports it as CSV.

    Conventions of the embedding.
    - A Python [int] is a [Z]; a Python [str] is a [string] whose characters
      are the code points below 256.
    - A Python [dict] is an association list in insertion order, without
      duplicate keys ([wf]); [setitem] is [d[k] = v].
    - A call that may raise returns a [result]; [try ... except] is a match
      on it.
    - A Python [float] is the rational value of a double ([PyFloat]); a
      true division [a / b] rounds the quotient to the nearest double and
      raises [OverflowError] beyond the largest one ([round_double]).
    - [int(s)] and [str(n)] refuse more than 4300 digits, as CPython does
      ([max_str_digits]).
    - [csv.reader] and [csv.writer] are taken at their interface: a CSV file
      is the list of its rows, a row is the list of its fields. The export
      writes its file with [newline=''] and the import reads it without, so
      the fields read back have their newlines translated
      ([universal_newlines]); the reader gives up at a field of more than
      131072 characters ([field_size_limit]).
    - [len] of a container is at most [sys.maxsize], so that printing it
      cannot fail: it is printed with [decimal].
    - Of what the program prints, the messages of the input adapters, the
      lines of the pass/fail summary and of the results table are kept. *)

From Stdlib Require Import ZArith List Bool Lia Ascii String.
From Stdlib Require Import QArith Qround Qabs Qpower Lqa.
From Stdlib Require Import Permutation Sorted Mergesort Orders.
From Stdlib Require Import DecimalString DecimalPos.
Import ListNotations.

Local Open Scope string_scope.
Local Open Scope Z_scope.

(** ** Exceptions *)

Inductive exn : Type :=
| ValueError | IndexError | KeyError | ZeroDivisionError
| StatisticsError | StopIteration | FileNotFoundError | EOFError
| OverflowError
| CsvError.  (* csv.Error *)

Inductive result (A : Type) : Type :=
| Ok (a : A)
| Raise (e : exn).

Arguments Ok {A} a.
Arguments Raise {A} e.

Definition bind {A B : Type} (r : result A) (k : A -> result B) : result B :=
  match r with
  | Ok a => k a
  | Raise e => Raise e
  end.

Declare Scope py_scope.
Delimit Scope py_scope with py.
Notation "x <- c1 ;; c2" := (bind c1 (fun x => c2))
  (at level 61, c1 at next level, right associativity) : py_scope.
Local Open Scope py_scope.

(** ** Numbers *)

(** An int, or a float given by the value of the double. *)
Inductive number : Type :=
| PyInt (z : Z)
| PyFloat (q : Q).

(** *** Doubles: 53 significant bits, the last place not below [2 ^ -1074],
    magnitudes below [2 ^ 1024] *)

(** [y] rounded to an integer, a half to the even neighbour. *)
Definition round_half_even (y : Q) : Z :=
  let n := Qfloor y in
  match (y - inject_Z n ?= 1 # 2)%Q with
  | Lt => n
  | Gt => n + 1
  | Eq => if Z.even n then n else n + 1
  end.

(** The binary exponent of [x > 0]: [2 ^ binade x <= x < 2 ^ (binade x + 1)]. *)
Definition binade (x : Q) : Z :=
  let k := Z.log2 (Qnum x) - Z.log2 (Z.pos (Qden x)) in
  if Qle_bool (2 ^ k) x then k else k - 1.

(** The exponent of the last place of the double nearest to [x]. *)
Definition ulp_exponent (x : Q) : Z := Z.max (binade (Qabs x)) (-1022) - 52.

(** The double nearest to [x], of two equally near the one with an even
    last place; [None] when it would reach [2 ^ 1024]. *)
Definition round_double (x : Q) : option Q :=
  if Qeq_bool x 0 then Some 0%Q
  else
    let e := ulp_exponent x in
    let q := (inject_Z (round_half_even (x / 2 ^ e)) * 2 ^ e)%Q in
    if Qle_bool (2 ^ 1024) (Qabs q) then None else Some (Qred q).

(** [a / b] on two ints. *)
Definition truediv (a b : Z) : result number :=
  if b =? 0 then Raise ZeroDivisionError
  else
    match round_double (inject_Z a / inject_Z b) with
    | Some q => Ok (PyFloat q)
    | None => Raise OverflowError
    end.

(** [sum(xs)] *)
Definition sum (xs : list Z) : Z := fold_left Z.add xs 0.

(** ** Strings: [str.strip], [int(str)], [str(int)] *)

(** [str.isspace] on one character, for the code points below 256. *)
Definition isspace (c : ascii) : bool :=
  let n := N_of_ascii c in
  ((9 <=? n) && (n <=? 13) || (28 <=? n) && (n <=? 32)
   || (n =? 133) || (n =? 160))%N.

Fixpoint lstrip (s : string) : string :=
  match s with
  | EmptyString => EmptyString
  | String c s' => if isspace c then lstrip s' else s
  end.

Fixpoint rstrip (s : string) : string :=
  match s with
  | EmptyString => EmptyString
  | String c s' =>
      match rstrip s' with
      | EmptyString => if isspace c then EmptyString else String c EmptyString
      | r => String c r
      end
  end.

Definition strip (s : string) : string := rstrip (lstrip s).

Definition digit_of (c : ascii) : option Z :=
  let n := N_of_ascii c in
  if ((48 <=? n) && (n <=? 57))%N then Some (Z.of_N (n - 48)) else None.

(** Decimal digits, a single underscore allowed between two digits.
    [prev] tells whether the previous character was a digit. *)
Fixpoint parse_digits (s : string) (acc : Z) (prev : bool) : option Z :=
  match s with
  | EmptyString => if prev then Some acc else None
  | String c s' =>
      if Ascii.eqb c "_" then
        if prev then parse_digits s' acc false else None
      else
        match digit_of c with
        | Some d => parse_digits s' (10 * acc + d) true
        | None => None
        end
  end.

(** An optional sign, then the digits. *)
Definition signed_digits (t : string) : option Z :=
  match t with
  | String "+" r => parse_digits r 0 false
  | String "-" r => option_map Z.opp (parse_digits r 0 false)
  | _ => parse_digits t 0 false
  end.

(** The number of digits in a string. *)
Fixpoint count_digits (s : string) : nat :=
  match s with
  | EmptyString => O
  | String c s' =>
      match digit_of c with
      | Some _ => S (count_digits s')
      | None => count_digits s'
      end
  end.

(** [sys.get_int_max_str_digits()] *)
Definition max_str_digits : nat := 4300.

(** [int(s)]: surrounding whitespace is dropped; [ValueError] when what is
    left is not a decimal literal, or has more than 4300 digits. *)
Definition int (s : string) : result Z :=
  let t := strip s in
  match signed_digits t with
  | Some z =>
      if (max_str_digits <? count_digits t)%nat then Raise ValueError else Ok z
  | None => Raise ValueError
  end.

(** The decimal digits of [z], with its sign. *)
Definition decimal (z : Z) : string := NilZero.string_of_int (Z.to_int z).

(** [str(z)], also [format(z, spec)] and a [csv.writer] field: [ValueError]
    when [z] has more than 4300 digits. *)
Definition str (z : Z) : result string :=
  let s := decimal z in
  if (max_str_digits <? count_digits s)%nat then Raise ValueError else Ok s.

(** ** Dictionaries *)

Section Dict.
Context {V : Type}.

Definition dict : Type := list (string * V).

Definition keys (d : dict) : list string := map fst d.
Definition values (d : dict) : list V := map snd d.
Definition items (d : dict) : list (string * V) := d.
Definition len (d : dict) : nat := List.length d.

(** [d.get(k)] *)
Fixpoint lookup (d : dict) (k : string) : option V :=
  match d with
  | [] => None
  | (k', v) :: d' => if String.eqb k' k then Some v else lookup d' k
  end.

(** [k in d] *)
Definition contains (d : dict) (k : string) : bool :=
  match lookup d k with Some _ => true | None => false end.

(** [d[k]] *)
Definition getitem (d : dict) (k : string) : result V :=
  match lookup d k with Some v => Ok v | None => Raise KeyError end.

(** [d[k] = v]: a present key keeps its place, a new one goes last. *)
Fixpoint setitem (d : dict) (k : string) (v : V) : dict :=
  match d with
  | [] => [(k, v)]
  | (k', v') :: d' =>
      if String.eqb k' k then (k', v) :: d' else (k', v') :: setitem d' k v
  end.

(** Keys are unique. *)
Definition wf (d : dict) : Prop := NoDup (keys d).

(** Equality of dicts as mappings ([d1 == d2] in Python). *)
Definition dict_eq (d1 d2 : dict) : Prop :=
  forall k, lookup d1 k = lookup d2 k.
End Dict.

Arguments dict V : clear implicits.

(** [xs[i]] on a list, for [i >= 0]. *)
Definition index {A : Type} (xs : list A) (i : nat) : result A :=
  match nth_error xs i with
  | Some x => Ok x
  | None => Raise IndexError
  end.

(** [not d] for a dict: true on the empty dict only. *)
Definition not_ {V : Type} (d : dict V) : bool :=
  match d with
  | [] => true
  | _ :: _ => false
  end.

(** A dict comprehension [{k: v for k, v in kvs}]. *)
Definition dict_of_items {V : Type} (kvs : list (string * V)) : dict V :=
  fold_left (fun d kv => setitem d (fst kv) (snd kv)) kvs [].

(** *** [sorted] on ints and on strings *)

Module ZOrder <: TotalLeBool.
Definition t := Z.
Definition leb := Z.leb.
Lemma leb_total : forall a b, leb a b = true \/ leb b a = true.
Proof. intros a b; unfold leb; rewrite !Z.leb_le; lia. Qed.
End ZOrder.

Module ZSort := Sort ZOrder.

Module StrOrder <: TotalLeBool.
Definition t := string.
Definition leb := String.leb.
Definition leb_total : forall a b, leb a b = true \/ leb b a = true :=
  String.leb_total.
End StrOrder.

Module StrSort := Sort StrOrder.

(** *** [max] and [min] with a key: the first extreme element wins *)

Fixpoint max_from {A : Type} (key : A -> Z) (best : A) (xs : list A) : A :=
  match xs with
  | [] => best
  | x :: xs' => max_from key (if key x >? key best then x else best) xs'
  end.

Definition max_ {A : Type} (xs : list A) (key : A -> Z) : result A :=
  match xs with
  | [] => Raise ValueError
  | x :: xs' => Ok (max_from key x xs')
  end.

Fixpoint min_from {A : Type} (key : A -> Z) (best : A) (xs : list A) : A :=
  match xs with
  | [] => best
  | x :: xs' => min_from key (if key x <? key best then x else best) xs'
  end.

Definition min_ {A : Type} (xs : list A) (key : A -> Z) : result A :=
  match xs with
  | [] => Raise ValueError
  | x :: xs' => Ok (min_from key x xs')
  end.

(** *** [statistics.median] *)

Definition median (data : list Z) : result number :=
  let data := ZSort.sort data in
  let n := List.length data in
  if (n =? 0)%nat then Raise StatisticsError
  else if (n mod 2 =? 1)%nat then
    x <- index data (n / 2) ;; Ok (PyInt x)
  else
    let i := (n / 2)%nat in
    a <- index data (i - 1) ;;
    b <- index data i ;;
    truediv (a + b) 2.

(** ** The program *)

Definition row : Type := list string.

(** The messages of the input adapters. *)
Inductive message : Type :=
| InvalidMark
| InvalidInput
| Loading (header : row)
| SkippingInvalidRow (r : row)
| FileNotFound
| ErrorOccurred (e : exn).

(** *** Manual entry (lines 28-51) *)

(** The [while True] loop over the lines typed: a name, then its mark.
    [input] raises [EOFError] when no line is left. *)
Fixpoint manual_loop (lines : list string) (marks_dict : dict Z)
    (out : list message) : result (dict Z * list message) :=
  match lines with
  | [] => Raise EOFError
  | l1 :: lines1 =>
      let name := strip l1 in
      if String.eqb name "" then Ok (marks_dict, out)
      else
        match lines1 with
        | [] => Raise EOFError
        | l2 :: lines2 =>
            match int (strip l2) with
            | Ok mark =>
                if (0 <=? mark) && (mark <=? 100) then
                  manual_loop lines2 (setitem marks_dict name mark) out
                else manual_loop lines2 marks_dict (out ++ [InvalidMark])%list
            | Raise ValueError =>
                manual_loop lines2 marks_dict (out ++ [InvalidInput])%list
            | Raise e => Raise e
            end
        end
  end.

Definition get_manual_input (lines : list string)
  : result (dict Z * list message) :=
  manual_loop lines [] [].

(** *** CSV import (lines 53-84) *)

(** The [try] block of one loop iteration. *)
Definition store_row (marks_dict : dict Z) (r : row) : result (dict Z) :=
  c0 <- index r 0 ;;
  let name := strip c0 in
  c1 <- index r 1 ;;
  mark <- int (strip c1) ;;
  Ok (setitem marks_dict name mark).

(** One iteration of [for row in reader]. *)
Definition load_row (st : dict Z * list message) (r : row)
  : result (dict Z * list message) :=
  let (marks_dict, out) := st in
  match r with
  | [] => Ok st
  | _ :: _ =>
      match store_row marks_dict r with
      | Ok marks_dict' => Ok (marks_dict', out)
      | Raise ValueError | Raise IndexError =>
          Ok (marks_dict, (out ++ [SkippingInvalidRow r])%list)
      | Raise e => Raise e
      end
  end.

(** The loop; an exception that escapes an iteration ends it. *)
Fixpoint load_rows (rows : list row) (st : dict Z * list message)
  : dict Z * list message :=
  match rows with
  | [] => st
  | r :: rows' =>
      match load_row st r with
      | Ok st' => load_rows rows' st'
      | Raise e => (fst st, (snd st ++ [ErrorOccurred e])%list)
      end
  end.

(** [file] is what [open] finds, [None] when there is no such file, as the
    list of rows [csv.reader] yields. *)
Definition load_from_csv (file : option (list row)) : dict Z * list message :=
  match file with
  | None => ([], [FileNotFound])
  | Some [] => ([], [ErrorOccurred StopIteration])
  | Some (header :: rows) => load_rows rows ([], [Loading header])
  end.

(** *** Statistics (lines 88-113) *)

Definition calculate_average (marks_dict : dict Z) : result number :=
  if not_ marks_dict then Ok (PyInt 0)
  else
    let scores := values marks_dict in
    truediv (sum scores) (Z.of_nat (List.length scores)).

Definition calculate_median (marks_dict : dict Z) : result number :=
  if not_ marks_dict then Ok (PyInt 0)
  else median (values marks_dict).

Definition get_max_score (marks_dict : dict Z) : result (string * Z) :=
  if not_ marks_dict then Ok ("N/A", 0)
  else max_ (items marks_dict) snd.

Definition get_min_score (marks_dict : dict Z) : result (string * Z) :=
  if not_ marks_dict then Ok ("N/A", 0)
  else min_ (items marks_dict) snd.

(** *** Grades (lines 117-142) *)

Definition assign_grades (marks_dict : dict Z) : dict string :=
  fold_left
    (fun grades_dict item =>
       let name := fst item in
       let mark := snd item in
       if mark >=? 90 then setitem grades_dict name "A"
       else if mark >=? 80 then setitem grades_dict name "B"
       else if mark >=? 70 then setitem grades_dict name "C"
       else if mark >=? 60 then setitem grades_dict name "D"
       else setitem grades_dict name "F")
    (items marks_dict) [].

Definition calculate_grade_distribution (grades_dict : dict string) : dict Z :=
  fold_left
    (fun distribution grade =>
       if contains distribution grade then
         match lookup distribution grade with
         | Some n => setitem distribution grade (n + 1)
         | None => distribution
         end
       else distribution)
    (values grades_dict)
    [("A", 0); ("B", 0); ("C", 0); ("D", 0); ("F", 0)].

(** *** Pass/fail filter (lines 146-164) *)

Definition passed_students (marks_dict : dict Z) (pass_threshold : Z) : dict Z :=
  dict_of_items
    (filter (fun item => snd item >=? pass_threshold) (items marks_dict)).

Definition failed_students (marks_dict : dict Z) (pass_threshold : Z) : dict Z :=
  dict_of_items
    (filter (fun item => snd item <? pass_threshold) (items marks_dict)).

Definition nl : string := String (ascii_of_nat 10) "".

(** The lines printed. *)
Definition print_pass_fail_summary (marks_dict : dict Z) (pass_threshold : Z)
  : result (list string) :=
  let passed := passed_students marks_dict pass_threshold in
  let failed := failed_students marks_dict pass_threshold in
  pass_mark <- str pass_threshold ;;
  Ok ([(nl ++ "--- Pass/Fail Summary ---")%string;
       ("Pass Mark: " ++ pass_mark)%string;
       (nl ++ "Total Students Passed: "
           ++ decimal (Z.of_nat (len passed)))%string]
      ++ (if not_ passed then []
          else [("  Names: " ++ String.concat ", " (keys passed))%string])
      ++ [(nl ++ "Total Students Failed: "
              ++ decimal (Z.of_nat (len failed)))%string]
      ++ (if not_ failed then []
          else [("  Names: " ++ String.concat ", " (keys failed))%string]))%list.

(** *** CSV export (lines 189-210) *)

(** The loop of [writer.writerow] calls; an exception ends it and leaves
    the rows written so far. The writer turns the mark into text. *)
Fixpoint write_rows (names : list string) (marks_dict : dict Z)
    (grades_dict : dict string) (file : list row) : list row * option exn :=
  match names with
  | [] => (file, None)
  | name :: names' =>
      match (mark <- getitem marks_dict name ;;
             grade <- getitem grades_dict name ;;
             digits <- str mark ;;
             Ok [name; digits; grade]) with
      | Ok r => write_rows names' marks_dict grades_dict (file ++ [r])%list
      | Raise e => (file, Some e)
      end
  end.

(** The rows of the file written, and the exception reported if any (the
    file name asked for and a failure to open it are left out). *)
Definition save_results_to_csv (marks_dict : dict Z) (grades_dict : dict string)
  : list row * option exn :=
  write_rows (StrSort.sort (keys marks_dict)) marks_dict grades_dict
    [["Name"; "Marks"; "Grade"]].

(** *** One analysis pass of [main] (lines 242-255) *)

Record analysis : Type := {
  avg : number;
  med : number;
  max_score : string * Z;
  min_score : string * Z;
  grades_data : dict string;
  distribution : dict Z
}.

Definition analyze (marks_data : dict Z) : result analysis :=
  a <- calculate_average marks_data ;;
  m <- calculate_median marks_data ;;
  hi <- get_max_score marks_data ;;
  lo <- get_min_score marks_data ;;
  let grades := assign_grades marks_data in
  Ok {| avg := a; med := m; max_score := hi; min_score := lo;
        grades_data := grades;
        distribution := calculate_grade_distribution grades |}.

(** *** Reading back a file the export wrote *)

Definition CR : ascii := "013"%char.
Definition LF : ascii := "010"%char.

(** The export opens its file with [newline=''], the import opens it
    without: on reading, every CR LF and every other CR becomes LF. *)
Fixpoint universal_newlines (s : string) : string :=
  match s with
  | EmptyString => EmptyString
  | String c s' =>
      if Ascii.eqb c CR then
        match s' with
        | String c' s'' =>
            if Ascii.eqb c' LF then String LF (universal_newlines s'')
            else String LF (universal_newlines s')
        | EmptyString => String LF EmptyString
        end
      else String c (universal_newlines s')
  end.

(** [csv.field_size_limit()] *)
Definition field_size_limit : Z := 131072.

Definition fits (field : string) : bool :=
  Z.of_nat (String.length field) <=? field_size_limit.

(** What [csv.reader] yields for the rows [csv.writer] was given: the
    fields are the same, up to the newlines inside them; at the first row
    with a field above the limit the reader raises [csv.Error]. *)
Fixpoint read_back (rows : list row) : list row * option exn :=
  match rows with
  | [] => ([], None)
  | r :: rows' =>
      let r' := map universal_newlines r in
      if forallb fits r' then
        let (yielded, e) := read_back rows' in (r' :: yielded, e)
      else ([], Some CsvError)
  end.

(** [load_from_csv] on a file whose reader yields [rows] and then raises
    [e], if any: the exception ends the import. *)
Definition load_from_reader (file : option (list row * option exn))
  : dict Z * list message :=
  match file with
  | None => load_from_csv None
  | Some (rows, None) => load_from_csv (Some rows)
  | Some ([], Some e) => ([], [ErrorOccurred e])
  | Some (header :: rows, Some e) =>
      let (marks_dict, out) := load_rows rows ([], [Loading header]) in
      (marks_dict, (out ++ [ErrorOccurred e])%list)
  end.

(** Export followed by import of the file written. *)
Definition reimport (marks_dict : dict Z) : dict Z :=
  fst (load_from_reader
         (Some (read_back
                  (fst (save_results_to_csv marks_dict
                          (assign_grades marks_dict)))))).

(** ** Notions used in the statements *)

Definition sample : dict Z :=
  [("Cara", 59); ("Abe", 90); ("Bo", 89); ("Dee", 90)].

(** The letter chosen by the [if] chain of [assign_grades]. *)
Definition letter (mark : Z) : string :=
  if mark >=? 90 then "A"
  else if mark >=? 80 then "B"
  else if mark >=? 70 then "C"
  else if mark >=? 60 then "D"
  else "F".

(** How many of the grades [gs] are [g]. *)
Definition count_grade (g : string) (gs : list string) : Z :=
  Z.of_nat (List.length (filter (String.eqb g) gs)).

(** The contribution of one grade [x] to the counter of [g]. *)
Definition bump (g x : string) : Z := if String.eqb g x then 1 else 0.

(** A distribution with the given five counters. *)
Definition tally (a b c d f : Z) : dict Z :=
  [("A", a); ("B", b); ("C", c); ("D", d); ("F", f)].

(** The sum of a list, as a right fold. *)
Definition total (xs : list Z) : Z := fold_right Z.add 0 xs.

(** How many elements of [xs] lie strictly below [v], and how many do not
    exceed it. *)
Definition count_below (v : Z) (xs : list Z) : nat :=
  List.length (filter (fun x => x <? v) xs).

Definition count_upto (v : Z) (xs : list Z) : nat :=
  List.length (filter (fun x => x <=? v) xs).

(** [v] is the element of rank [k] (from 0) of [xs] in ascending order: at
    most [k] elements are smaller, more than [k] are not larger. *)
Definition kth_smallest (xs : list Z) (k : nat) (v : Z) : Prop :=
  In v xs /\ (count_below v xs <= k)%nat /\ (k < count_upto v xs)%nat.

(** [r] is the value [x] as a true division returns it: a double within
    half a unit in the last place of [x], which is [x] itself when [x] is a
    half of an integer of at most 53 bits; [OverflowError] is raised only
    from [2 ^ 1023] on. *)
Definition rounded (x : Q) (r : result number) : Prop :=
  (r = Raise OverflowError /\ (2 ^ 1023 <= Qabs x)%Q) \/
  (exists q,
      r = Ok (PyFloat q) /\
      (Qabs (q - x) * 2 ^ 53 <= Qabs x + 2 ^ (-1022))%Q /\
      (forall k : Z, Z.abs k < 2 ^ 53 -> (x == k # 2)%Q -> (q == x)%Q)).

(** The statistical median: the middle value of an odd number of values,
    the mean of the two middle values of an even number, rounded. *)
Definition is_median (xs : list Z) (r : result number) : Prop :=
  let n := List.length xs in
  if Nat.odd n then
    exists v, kth_smallest xs (n / 2) v /\ r = Ok (PyInt v)
  else
    exists a b,
      kth_smallest xs (n / 2 - 1) a /\ kth_smallest xs (n / 2) b /\
      rounded ((inject_Z a + inject_Z b) / 2) r.

(** A string without whitespace characters. *)
Fixpoint no_space (s : string) : bool :=
  match s with
  | EmptyString => true
  | String c s' => negb (isspace c) && no_space s'
  end.

(** The number a digit sequence denotes after the digits read so far. *)
Fixpoint eval_uint (d : Decimal.uint) (acc : Z) : Z :=
  match d with
  | Decimal.Nil => acc
  | Decimal.D0 d => eval_uint d (10 * acc + 0)
  | Decimal.D1 d => eval_uint d (10 * acc + 1)
  | Decimal.D2 d => eval_uint d (10 * acc + 2)
  | Decimal.D3 d => eval_uint d (10 * acc + 3)
  | Decimal.D4 d => eval_uint d (10 * acc + 4)
  | Decimal.D5 d => eval_uint d (10 * acc + 5)
  | Decimal.D6 d => eval_uint d (10 * acc + 6)
  | Decimal.D7 d => eval_uint d (10 * acc + 7)
  | Decimal.D8 d => eval_uint d (10 * acc + 8)
  | Decimal.D9 d => eval_uint d (10 * acc + 9)
  end.

(** A name as the input adapters store it: nothing for [strip] to remove. *)
Definition stripped (name : string) : Prop := strip name = name.

(** A string without carriage return. *)
Fixpoint no_cr (s : string) : bool :=
  match s with
  | EmptyString => true
  | String c s' => negb (Ascii.eqb c CR) && no_cr s'
  end.

(** A name that reads back as it was written. *)
Definition plain (name : string) : Prop :=
  stripped name /\ no_cr name = true.

(** A string that is empty or starts with a character that is no space. *)
Definition starts_clean (s : string) : bool :=
  match s with
  | EmptyString => true
  | String c _ => negb (isspace c)
  end.

(** The mark stored for [name] (0 when there is none). *)
Definition mark_of (d : dict Z) (name : string) : Z :=
  match lookup d name with
  | Some m => m
  | None => 0
  end.

(** The row exported for [name]. *)
Definition export_row (d : dict Z) (name : string) : row :=
  [name; decimal (mark_of d name); letter (mark_of d name)].

(** An int that [str] prints: one of at most 4300 digits. *)
Definition prints (z : Z) : bool :=
  negb (max_str_digits <? count_digits (decimal z))%nat.

Definition printable (z : Z) : Prop := str z = Ok (decimal z).

(** The digit [d] put in front of a digit sequence. *)
Definition cons_digit (d : Z) (u : Decimal.uint) : Decimal.uint :=
  match d with
  | 0 => Decimal.D0 u
  | 1 => Decimal.D1 u
  | 2 => Decimal.D2 u
  | 3 => Decimal.D3 u
  | 4 => Decimal.D4 u
  | 5 => Decimal.D5 u
  | 6 => Decimal.D6 u
  | 7 => Decimal.D7 u
  | 8 => Decimal.D8 u
  | _ => Decimal.D9 u
  end.

(** The digits of a string, in order. *)
Fixpoint uint_of_string (s : string) : Decimal.uint :=
  match s with
  | EmptyString => Decimal.Nil
  | String c s' =>
      match digit_of c with
      | Some d => cons_digit d (uint_of_string s')
      | None => uint_of_string s'
      end
  end.

(** [n] times the character [c]. *)
Fixpoint repeat_char (c : ascii) (n : nat) : string :=
  match n with
  | O => EmptyString
  | S n' => String c (repeat_char c n')
  end.

(** The longest prefix of a list whose elements satisfy [p]. *)
Fixpoint take_while {A : Type} (p : A -> bool) (xs : list A) : list A :=
  match xs with
  | [] => []
  | x :: xs' => if p x then x :: take_while p xs' else []
  end.

(** A Record Store: a dict whose marks lie in 0..100. *)
Definition record_store (d : dict Z) : Prop :=
  wf d /\ Forall (fun item => 0 <= snd item <= 100) (items d).

(** Rows of a CSV file to import. *)
Definition wrong_column_count (r : row) : Prop := List.length r <> 2%nat.

Definition short_row (r : row) : Prop := (List.length r < 2)%nat.

Definition non_integer_mark (r : row) : Prop :=
  exists c1, nth_error r 1 = Some c1 /\ int (strip c1) = Raise ValueError.

(** A row with a name, an integer mark and possibly more columns. *)
Definition valid_row (r : row) (name : string) (mark : Z) : Prop :=
  exists c0 c1 more,
    r = c0 :: c1 :: more /\ strip c0 = name /\ int (strip c1) = Ok mark.

(** The import goes on as if the row were not in the file. *)
Definition skipped (r : row) : Prop :=
  forall header before after,
    fst (load_from_csv (Some (header :: before ++ r :: after)))
    = fst (load_from_csv (Some (header :: before ++ after))).

(** Uniqueness of the keys of a dict written out in full. *)
Ltac solve_wf :=
  unfold wf; simpl;
  repeat (constructor; [simpl; intuition discriminate|]); constructor.

(** ** Further parts of the program *)

(** [s * n]: [n] copies of [s]. *)
Fixpoint repeat_str (s : string) (n : nat) : string :=
  match n with
  | O => EmptyString
  | S n' => (s ++ repeat_str s n')%string
  end.

(** [format(s, '<w')]: blanks are added on the right up to width [w]; a
    longer string is left as it is. *)
Definition ljust (s : string) (w : nat) : string :=
  (s ++ repeat_str " " (w - String.length s))%string.

(** [d.get(k, default)] *)
Definition get_default {V : Type} (d : dict V) (k : string) (default : V) : V :=
  match lookup d k with
  | Some v => v
  | None => default
  end.

(** [s.endswith(suffix)] *)
Definition endswith (s suffix : string) : bool :=
  let n := String.length s in
  let m := String.length suffix in
  (m <=? n)%nat && String.eqb (substring (n - m) m s) suffix.

(** *** Results table (lines 168-185) *)

(** One line of the table. *)
Definition table_row (marks_dict : dict Z) (grades_dict : dict string)
    (name : string) : result string :=
  marks <- getitem marks_dict name ;;
  let grade := get_default grades_dict name "N/A" in
  digits <- str marks ;;
  Ok (ljust name 20 ++ " " ++ ljust digits 10 ++ " " ++ ljust grade 10)%string.

Fixpoint table_rows (names : list string) (marks_dict : dict Z)
    (grades_dict : dict string) : result (list string) :=
  match names with
  | [] => Ok []
  | name :: names' =>
      line <- table_row marks_dict grades_dict name ;;
      rest <- table_rows names' marks_dict grades_dict ;;
      Ok (line :: rest)
  end.

(** The lines printed. *)
Definition print_results_table (marks_dict : dict Z) (grades_dict : dict string)
  : result (list string) :=
  rows <- table_rows (StrSort.sort (keys marks_dict)) marks_dict grades_dict ;;
  Ok ([(nl ++ repeat_str "=" 40)%string;
       "         Full Grade Report";
       repeat_str "=" 40;
       (ljust "Name" 20 ++ " " ++ ljust "Marks" 10 ++ " " ++ ljust "Grade" 10)%string;
       repeat_str "-" 40]
      ++ rows ++ [repeat_str "-" 40])%list.

(** *** The name of the file exported (lines 191-193) *)

Definition report_filename (typed : string) : string :=
  let filename := strip typed in
  if endswith filename ".csv" then filename else (filename ++ ".csv")%string.

(** *** The main loop (lines 214-274) *)

(** [str.lower], for the code points below 256. *)
Definition lower_char (c : ascii) : ascii :=
  let n := N_of_ascii c in
  if ((65 <=? n) && (n <=? 90) || (192 <=? n) && (n <=? 214)
      || (216 <=? n) && (n <=? 222))%N
  then ascii_of_N (n + 32) else c.

Fixpoint lower (s : string) : string :=
  match s with
  | EmptyString => EmptyString
  | String c s' => String (lower_char c) (lower s')
  end.

(** The lines [get_manual_input] leaves unread. *)
Fixpoint manual_rest (lines : list string) : list string :=
  match lines with
  | [] => []
  | l1 :: lines1 =>
      if String.eqb (strip l1) "" then lines1
      else
        match lines1 with
        | [] => []
        | _ :: lines2 => manual_rest lines2
        end
  end.

(** [f"{x}"] for a number: the digits of an int; of a float the value is
    kept in place of its text. *)
Inductive text : Type :=
| Digits (s : string)
| FloatText (q : Q).

Definition format_number (x : number) : result text :=
  match x with
  | PyInt z => digits <- str z ;; Ok (Digits digits)
  | PyFloat q => Ok (FloatText q)
  end.

(** The numbers formatted in the statistics lines (lines 249-251): the
    median, the highest and the lowest score. *)
Definition print_statistics (a : analysis) : result (list text) :=
  m <- format_number (med a) ;;
  hi <- str (snd (max_score a)) ;;
  lo <- str (snd (min_score a)) ;;
  Ok [m; Digits hi; Digits lo].

(** What the loop prints, the reports kept as values. *)
Inductive event : Type :=
| Menu
| InvalidChoice
| Goodbye
| NoData
| DataRead (marks_data : dict Z) (out : list message)
| Report (a : analysis) (statistics : list text) (summary : list string)
    (table : list string)
| Saved (filename : string)
| SaveError (filename : string) (e : exn)
| CouldNotWrite (filename : string).

(** The lines still to be typed, the files by name (as the rows written),
    the names [open] can write to, and what was printed. *)
Record world : Type := {
  stdin : list string;
  files : dict (list row);
  can_write : string -> bool;
  printed : list event
}.

Definition set_stdin (w : world) (lines : list string) : world :=
  {| stdin := lines; files := files w; can_write := can_write w;
     printed := printed w |}.

Definition set_files (w : world) (fs : dict (list row)) : world :=
  {| stdin := stdin w; files := fs; can_write := can_write w;
     printed := printed w |}.

Definition say (w : world) (e : event) : world :=
  {| stdin := stdin w; files := files w; can_write := can_write w;
     printed := (printed w ++ [e])%list |}.

(** How one pass of the loop ends. *)
Inductive next : Type :=
| Continue (w : world)
| Exit (w : world)
| Crash (e : exn) (w : world).

(** [save_results_to_csv] with its prompt and its file. *)
Definition save_report (w : world) (marks_data : dict Z)
    (grades_data : dict string) : next :=
  match stdin w with
  | [] => Crash EOFError w
  | typed :: rest =>
      let filename := report_filename typed in
      let w := set_stdin w rest in
      if can_write w filename then
        let (rows, err) := save_results_to_csv marks_data grades_data in
        let w := set_files w (setitem (files w) filename rows) in
        match err with
        | None => Continue (say w (Saved filename))
        | Some e => Continue (say w (SaveError filename e))
        end
      else Continue (say w (CouldNotWrite filename))
  end.

(** The part of the loop after the data is read (lines 238-273). *)
Definition run_analysis (w : world) (marks_data : dict Z) : next :=
  if not_ marks_data then Continue (say w NoData)
  else
    match analyze marks_data with
    | Raise e => Crash e w
    | Ok a =>
        match (statistics <- print_statistics a ;;
               summary <- print_pass_fail_summary marks_data 40 ;;
               table <- print_results_table marks_data (grades_data a) ;;
               Ok (statistics, summary, table)) with
        | Raise e => Crash e w
        | Ok (statistics, summary, table) =>
            let w := say w (Report a statistics summary table) in
            match stdin w with
            | [] => Crash EOFError w
            | answer :: rest =>
                let w := set_stdin w rest in
                if String.eqb (lower (strip answer)) "y" then
                  save_report w marks_data (grades_data a)
                else Continue w
            end
        end
    end.

(** One pass of [while True]. *)
Definition step (w : world) : next :=
  match stdin w with
  | [] => Crash EOFError w
  | choice :: rest =>
      let w := say (set_stdin w rest) Menu in
      if String.eqb choice "1" then
        match get_manual_input rest with
        | Raise e => Crash e w
        | Ok (marks_data, out) =>
            run_analysis
              (say (set_stdin w (manual_rest rest)) (DataRead marks_data out))
              marks_data
        end
      else if String.eqb choice "2" then
        match rest with
        | [] => Crash EOFError w
        | typed :: rest' =>
            let (marks_data, out) :=
              load_from_reader
                (option_map read_back (lookup (files w) (strip typed))) in
            run_analysis (say (set_stdin w rest') (DataRead marks_data out))
              marks_data
        end
      else if String.eqb choice "3" then Exit (say w Goodbye)
      else Continue (say w InvalidChoice)
  end.

(** How a run ends. *)
Inductive outcome : Type :=
| Exited (w : world)
| Crashed (e : exn) (w : world)
| OutOfFuel (w : world).

(** [main], for at most [fuel] passes of its loop. *)
Fixpoint main (fuel : nat) (w : world) : outcome :=
  match fuel with
  | O => OutOfFuel w
  | S fuel' =>
      match step w with
      | Continue w' => main fuel' w'
      | Exit w' => Exited w'
      | Crash e w' => Crashed e w'
      end
  end.

(** The world a run ends in. *)
Definition final (o : outcome) : world :=
  match o with
  | Exited w | Crashed _ w | OutOfFuel w => w
  end.

(** ** Further notions used in the statements *)

(** The entry a CSV row stores: its stripped first column and the integer
    in its second one; [None] for a row the loader passes over. *)
Definition row_entry (r : row) : option (string * Z) :=
  match r with
  | c0 :: c1 :: _ =>
      match int (strip c1) with
      | Ok mark => Some (strip c0, mark)
      | Raise _ => None
      end
  | _ => None
  end.

(** The rows the loader warns about: not empty, and without an entry. *)
Definition warned (r : row) : bool :=
  match r, row_entry r with
  | _ :: _, None => true
  | _, _ => false
  end.

(** The entries of a list of options, in order. *)
Fixpoint somes {A : Type} (xs : list (option A)) : list A :=
  match xs with
  | [] => []
  | Some x :: xs' => x :: somes xs'
  | None :: xs' => somes xs'
  end.

(** The (name line, mark line) pairs typed before the first empty name. *)
Fixpoint typed_pairs (lines : list string) : list (string * string) :=
  match lines with
  | l1 :: lines1 =>
      if String.eqb (strip l1) "" then []
      else
        match lines1 with
        | l2 :: lines2 => (l1, l2) :: typed_pairs lines2
        | [] => []
        end
  | [] => []
  end.

(** The entry a typed pair stores: the stripped name and a mark in 0..100. *)
Definition typed_entry (p : string * string) : option (string * Z) :=
  match int (strip (snd p)) with
  | Ok mark =>
      if (0 <=? mark) && (mark <=? 100) then Some (strip (fst p), mark)
      else None
  | Raise _ => None
  end.

(** One of the five letters. *)
Definition is_letter (g : string) : bool :=
  existsb (String.eqb g) ["A"; "B"; "C"; "D"; "F"].

(** Whether an empty name is typed where a name is asked for. *)
Fixpoint terminated (lines : list string) : bool :=
  match lines with
  | l1 :: lines1 =>
      if String.eqb (strip l1) "" then true
      else
        match lines1 with
        | _ :: lines2 => terminated lines2
        | [] => false
        end
  | [] => false
  end.

(** What is printed for a typed pair that stores nothing. *)
Definition typed_message (p : string * string) : option message :=
  match int (strip (snd p)) with
  | Ok mark => if (0 <=? mark) && (mark <=? 100) then None else Some InvalidMark
  | Raise _ => Some InvalidInput
  end.

(** The rational a number stands for. *)
Definition as_rational (x : number) : Q :=
  match x with
  | PyInt z => inject_Z z
  | PyFloat q => q
  end.

(** Comparisons of string literals, evaluated. *)
Ltac eval_eqb :=
  repeat match goal with
    | |- context [String.eqb ?a ?b] =>
        let v := eval vm_compute in (String.eqb a b) in
        change (String.eqb a b) with v
    end.


(** A list that ends with another. *)
Definition ends_with {A : Type} (l l' : list A) : Prop :=
  exists before, l = (before ++ l')%list.

(** The world a pass of the loop leaves. *)
Definition world_after (n : next) : world :=
  match n with
  | Continue w | Exit w | Crash _ w => w
  end.

(** A line that does not answer yes to the export prompt. *)
Definition not_yes (line : string) : Prop := lower (strip line) <> "y".

(** * Properties *)

(** ** The library functions on examples *)

Example str_examples :
  str 0 = Ok "0" /\ str 100 = Ok "100" /\ str (-7) = Ok "-7".
Proof. repeat split. Qed.

Example int_examples :
  int " 42 " = Ok 42 /\ int "+1_000" = Ok 1000 /\ int "-07" = Ok (-7) /\
  int "4.5" = Raise ValueError /\ int "" = Raise ValueError /\
  int "1__0" = Raise ValueError /\ int "- 5" = Raise ValueError.
Proof. repeat split. Qed.

Example digit_limit_examples :
  int (repeat_char "0" 4300) = Ok 0 /\
  int (repeat_char "0" 4301) = Raise ValueError /\
  int (String "-" (repeat_char "9" 4300)) = Ok (- (10 ^ 4300 - 1)) /\
  int (String "1" (repeat_char "0" 4300)) = Raise ValueError /\
  str (10 ^ 4300 - 1) = Ok (repeat_char "9" 4300) /\
  str (10 ^ 4300) = Raise ValueError /\
  str (- 10 ^ 4300) = Raise ValueError.
Proof.
  do 6 (split; [vm_compute; reflexivity|]). vm_compute; reflexivity.
Qed.

Example truediv_examples :
  truediv 3 2 = Ok (PyFloat (3 # 2)) /\
  truediv 4 3 = Ok (PyFloat (6004799503160661 # 4503599627370496)) /\
  truediv 1 0 = Raise ZeroDivisionError /\
  truediv (2 ^ 53 + 1) 1 = Ok (PyFloat (inject_Z (2 ^ 53))) /\
  truediv (2 ^ 1024 - 2 ^ 970 - 1) 1
  = Ok (PyFloat (inject_Z (2 ^ 1024 - 2 ^ 971))) /\
  truediv (2 ^ 1024 - 2 ^ 970) 1 = Raise OverflowError /\
  truediv (10 ^ 400) 1 = Raise OverflowError /\
  truediv 1 (2 ^ 1074) = Ok (PyFloat (1 # Z.to_pos (2 ^ 1074))) /\
  truediv 1 (2 ^ 1075) = Ok (PyFloat 0).
Proof.
  do 8 (split; [vm_compute; reflexivity|]). vm_compute; reflexivity.
Qed.

(** ** Dictionaries *)

Section DictFacts.
Context {V : Type}.
Implicit Types (d : dict V) (k : string) (v : V).

Lemma lookup_setitem_eq d k v : lookup (setitem d k v) k = Some v.
Proof.
  induction d as [|[k' v'] d IH]; simpl.
  - now rewrite String.eqb_refl.
  - destruct (String.eqb_spec k' k) as [->|Hne]; simpl.
    + now rewrite String.eqb_refl.
    + destruct (String.eqb_spec k' k); [contradiction | exact IH].
Qed.

Lemma lookup_setitem_neq d k k' v :
  k <> k' -> lookup (setitem d k v) k' = lookup d k'.
Proof.
  intros Hne. induction d as [|[k0 v0] d IH]; simpl.
  - destruct (String.eqb_spec k k'); [contradiction | reflexivity].
  - destruct (String.eqb_spec k0 k) as [->|Hk]; simpl.
    + destruct (String.eqb_spec k k'); [contradiction | reflexivity].
    + now rewrite IH.
Qed.

Lemma setitem_fresh d k v :
  ~ In k (keys d) -> setitem d k v = (d ++ [(k, v)])%list.
Proof.
  induction d as [|[k' v'] d IH]; simpl; intros Hk; [reflexivity|].
  destruct (String.eqb_spec k' k) as [->|Hne].
  - exfalso; apply Hk; now left.
  - rewrite IH; [reflexivity | intros Hin; apply Hk; now right].
Qed.

Lemma keys_setitem d k v k' :
  In k' (keys (setitem d k v)) <-> k' = k \/ In k' (keys d).
Proof.
  induction d as [|[k0 v0] d IH]; simpl.
  - intuition.
  - destruct (String.eqb_spec k0 k) as [->|Hne]; simpl.
    + intuition.
    + rewrite IH. intuition.
Qed.

Lemma wf_setitem d k v : wf d -> wf (setitem d k v).
Proof.
  unfold wf. induction d as [|[k0 v0] d IH]; simpl; intros Hd.
  - constructor; [intros [] | constructor].
  - inversion Hd as [|? ? Hnotin Hnd]; subst.
    destruct (String.eqb_spec k0 k) as [->|Hne]; simpl.
    + now constructor.
    + constructor; [|now apply IH].
      intros Hin. apply (keys_setitem d k v k0) in Hin.
      destruct Hin as [->|Hin]; [now apply Hne | now apply Hnotin].
Qed.

Lemma lookup_Some_In d k v : lookup d k = Some v -> In (k, v) d.
Proof.
  induction d as [|[k0 v0] d IH]; simpl; [discriminate|].
  destruct (String.eqb_spec k0 k) as [->|Hne].
  - intros [= ->]; now left.
  - intros H; right; now apply IH.
Qed.

Lemma lookup_None d k : lookup d k = None <-> ~ In k (keys d).
Proof.
  induction d as [|[k0 v0] d IH]; simpl.
  - intuition.
  - destruct (String.eqb_spec k0 k) as [->|Hne].
    + split; [discriminate | intros H; exfalso; apply H; now left].
    + rewrite IH. intuition.
Qed.

Lemma In_lookup d k v : wf d -> In (k, v) d -> lookup d k = Some v.
Proof.
  unfold wf. induction d as [|[k0 v0] d IH]; simpl; intros Hd Hin; [easy|].
  inversion Hd as [|? ? Hnotin Hnd]; subst.
  destruct Hin as [[= -> ->]|Hin].
  - now rewrite String.eqb_refl.
  - destruct (String.eqb_spec k0 k) as [->|Hne]; [|now apply IH].
    exfalso; apply Hnotin. now apply (in_map fst) in Hin.
Qed.

Lemma lookup_In_keys d k : (exists v, lookup d k = Some v) <-> In k (keys d).
Proof.
  destruct (lookup d k) as [v|] eqn:E.
  - split; [intros _ | intros _; now exists v].
    apply lookup_Some_In in E. now apply (in_map fst) in E.
  - apply lookup_None in E. split; [intros [v [=]] | contradiction].
Qed.

(** Two orderings of one well-formed dict are the same mapping. *)
Lemma Permutation_dict_eq d1 d2 :
  wf d1 -> Permutation d1 d2 -> dict_eq d1 d2.
Proof.
  intros Hwf Hperm k.
  assert (Hwf2 : wf d2).
  { unfold wf, keys. eapply Permutation_NoDup; [|exact Hwf].
    now apply Permutation_map. }
  destruct (lookup d1 k) as [v|] eqn:E.
  - symmetry. apply In_lookup; [exact Hwf2|].
    eapply Permutation_in; [exact Hperm | now apply lookup_Some_In].
  - symmetry. apply lookup_None. apply lookup_None in E.
    intros Hin; apply E. unfold keys in *.
    eapply Permutation_in; [|exact Hin].
    apply Permutation_map. now apply Permutation_sym.
Qed.

(** Building a dict from items with distinct keys keeps them as they are. *)
Lemma fold_setitem_fresh {A : Type} (f : A -> string * V) (xs : list A) d :
  NoDup (keys d ++ map (fun x => fst (f x)) xs) ->
  fold_left (fun acc x => setitem acc (fst (f x)) (snd (f x))) xs d
  = (d ++ map f xs)%list.
Proof.
  revert d. induction xs as [|x xs IH]; simpl; intros d Hnd.
  - now rewrite app_nil_r.
  - assert (Hfresh : ~ In (fst (f x)) (keys d)).
    { apply NoDup_remove_2 in Hnd. intros Hin; apply Hnd.
      apply in_or_app; now left. }
    rewrite (setitem_fresh _ _ _ Hfresh), IH.
    + rewrite <- app_assoc. simpl. now destruct (f x).
    + unfold keys in *. rewrite map_app, <- app_assoc. simpl. exact Hnd.
Qed.

Lemma dict_of_items_wf d : wf d -> dict_of_items d = d.
Proof.
  intros Hwf. unfold dict_of_items.
  rewrite (fold_setitem_fresh (fun kv => kv) d []).
  - simpl. now rewrite map_id.
  - simpl. exact Hwf.
Qed.
End DictFacts.

(** ** Grades *)

Lemma fold_left_ext {A B : Type} (f g : A -> B -> A) (xs : list B) (a : A) :
  (forall a x, f a x = g a x) -> fold_left f xs a = fold_left g xs a.
Proof.
  intros Hfg. revert a. induction xs as [|x xs IH]; simpl; intros a.
  - reflexivity.
  - now rewrite Hfg, IH.
Qed.

Lemma assign_grades_fold (marks_dict : dict Z) :
  assign_grades marks_dict
  = fold_left (fun acc item => setitem acc (fst item) (letter (snd item)))
      marks_dict [].
Proof.
  unfold assign_grades, items. apply fold_left_ext. intros acc [name mark].
  unfold letter. simpl.
  destruct (mark >=? 90); [reflexivity|].
  destruct (mark >=? 80); [reflexivity|].
  destruct (mark >=? 70); [reflexivity|].
  destruct (mark >=? 60); reflexivity.
Qed.

(** On a dict, [assign_grades] grades the entries one by one, in order. *)
Lemma assign_grades_map (marks_dict : dict Z) :
  wf marks_dict ->
  assign_grades marks_dict
  = map (fun item => (fst item, letter (snd item))) marks_dict.
Proof.
  intros Hwf. rewrite assign_grades_fold.
  apply (fold_setitem_fresh
           (fun item : string * Z => (fst item, letter (snd item)))
           marks_dict []).
  simpl. unfold wf, keys in Hwf. exact Hwf.
Qed.

Lemma keys_assign_grades (marks_dict : dict Z) :
  wf marks_dict -> keys (assign_grades marks_dict) = keys marks_dict.
Proof.
  intros Hwf. rewrite (assign_grades_map _ Hwf). unfold keys.
  rewrite map_map. reflexivity.
Qed.

Lemma lookup_assign_grades (marks_dict : dict Z) (name : string) :
  wf marks_dict ->
  lookup (assign_grades marks_dict) name
  = option_map letter (lookup marks_dict name).
Proof.
  intros Hwf. rewrite (assign_grades_map _ Hwf). clear Hwf.
  induction marks_dict as [|[k m] d IH]; simpl; [reflexivity|].
  destruct (String.eqb_spec k name); [reflexivity | exact IH].
Qed.

Lemma letter_cutoffs (mark : Z) :
  (letter mark = "A" <-> 90 <= mark) /\
  (letter mark = "B" <-> 80 <= mark <= 89) /\
  (letter mark = "C" <-> 70 <= mark <= 79) /\
  (letter mark = "D" <-> 60 <= mark <= 69) /\
  (letter mark = "F" <-> mark < 60).
Proof.
  unfold letter. rewrite !Z.geb_leb.
  destruct (Z.leb_spec 90 mark);
    [repeat split; intros; try lia; try discriminate; reflexivity|].
  destruct (Z.leb_spec 80 mark);
    [repeat split; intros; try lia; try discriminate; reflexivity|].
  destruct (Z.leb_spec 70 mark);
    [repeat split; intros; try lia; try discriminate; reflexivity|].
  destruct (Z.leb_spec 60 mark);
    repeat split; intros; try lia; try discriminate; reflexivity.
Qed.

(** C1. On every name -> mark mapping, [assign_grades] gives each student
    the letter fixed by the cutoffs: A from 90, B for 80..89, C for 70..79,
    D for 60..69, F below 60; so 90 gives A, 89 and 80 give B, 79 gives C,
    60 gives D, 59 gives F; and the grade of a student depends on that
    student's mark only, whatever the mapping and the name. *)
Theorem assign_grades_cutoffs (marks_dict : dict Z) :
  wf marks_dict ->
  (forall name mark,
      lookup marks_dict name = Some mark ->
      exists grade,
        lookup (assign_grades marks_dict) name = Some grade /\
        (grade = "A" <-> 90 <= mark) /\
        (grade = "B" <-> 80 <= mark <= 89) /\
        (grade = "C" <-> 70 <= mark <= 79) /\
        (grade = "D" <-> 60 <= mark <= 69) /\
        (grade = "F" <-> mark < 60)) /\
  (forall name,
      assign_grades [(name, 90)] = [(name, "A")] /\
      assign_grades [(name, 89)] = [(name, "B")] /\
      assign_grades [(name, 80)] = [(name, "B")] /\
      assign_grades [(name, 79)] = [(name, "C")] /\
      assign_grades [(name, 60)] = [(name, "D")] /\
      assign_grades [(name, 59)] = [(name, "F")]) /\
  (forall (other : dict Z) name name' mark,
      wf other ->
      lookup marks_dict name = Some mark ->
      lookup other name' = Some mark ->
      lookup (assign_grades marks_dict) name
      = lookup (assign_grades other) name').
Proof.
  intros Hwf. split; [|split].
  - intros name mark Hlk. exists (letter mark). split.
    + now rewrite lookup_assign_grades, Hlk.
    + apply letter_cutoffs.
  - intros name. repeat split.
  - intros other name name' mark Hwf' H1 H2.
    now rewrite !lookup_assign_grades, H1, H2.
Qed.

Lemma assign_grades_cutoffs_witness :
  wf sample /\
  exists grade,
    lookup (assign_grades sample) "Bo" = Some grade /\
    (grade = "A" <-> 90 <= 89) /\
    (grade = "B" <-> 80 <= 89 <= 89) /\
    (grade = "C" <-> 70 <= 89 <= 79) /\
    (grade = "D" <-> 60 <= 89 <= 69) /\
    (grade = "F" <-> 89 < 60).
Proof.
  split; [solve_wf|].
  apply (proj1 (assign_grades_cutoffs sample ltac:(solve_wf)) "Bo" 89).
  reflexivity.
Defined.

(** The keys of the grade mapping, for any list of items. *)
Lemma keys_fold_setitem {A V : Type} (f : A -> string * V) xs (d : dict V) k :
  In k (keys (fold_left (fun acc x => setitem acc (fst (f x)) (snd (f x))) xs d))
  <-> In k (keys d) \/ In k (map (fun x => fst (f x)) xs).
Proof.
  revert d. induction xs as [|x xs IH]; simpl; intros d.
  - intuition.
  - rewrite IH, keys_setitem. intuition.
Qed.

Lemma keys_assign_grades_iff (marks_dict : dict Z) (name : string) :
  In name (keys (assign_grades marks_dict)) <-> In name (keys marks_dict).
Proof.
  rewrite assign_grades_fold.
  pose proof (keys_fold_setitem
                (fun item : string * Z => (fst item, letter (snd item)))
                marks_dict [] name) as H.
  simpl in H. unfold keys in *. intuition.
Qed.

Lemma contains_In_keys {V : Type} (d : dict V) (name : string) :
  contains d name = true <-> In name (keys d).
Proof.
  unfold contains. rewrite <- lookup_In_keys.
  destruct (lookup d name) as [v|].
  - split; [intros _; now exists v | reflexivity].
  - split; [discriminate | intros [v [=]]].
Qed.

(** C9. The grade mapping built by [assign_grades] and the Record Store it
    is built from have the same key set: a name has a grade exactly when it
    has a mark. *)
Theorem assign_grades_same_keys (marks_dict : dict Z) (name : string) :
  (In name (keys (assign_grades marks_dict)) <-> In name (keys marks_dict)) /\
  ((exists grade, lookup (assign_grades marks_dict) name = Some grade)
   <-> (exists mark, lookup marks_dict name = Some mark)) /\
  contains (assign_grades marks_dict) name = contains marks_dict name.
Proof.
  pose proof (keys_assign_grades_iff marks_dict name) as Hkeys.
  split; [exact Hkeys|]. split.
  - now rewrite !lookup_In_keys.
  - apply eq_true_iff_eq. now rewrite !contains_In_keys.
Qed.

(** C10. [assign_grades] checks no range and grades every integer mark: a
    mark above 100 gets A, a mark below 0, and any mark below 60, gets F. *)
Theorem assign_grades_out_of_range (marks_dict : dict Z) (name : string) (mark : Z) :
  wf marks_dict ->
  lookup marks_dict name = Some mark ->
  (exists grade, lookup (assign_grades marks_dict) name = Some grade) /\
  (100 < mark -> lookup (assign_grades marks_dict) name = Some "A") /\
  (mark < 0 -> lookup (assign_grades marks_dict) name = Some "F") /\
  (mark < 60 -> lookup (assign_grades marks_dict) name = Some "F").
Proof.
  intros Hwf Hlk. rewrite lookup_assign_grades, Hlk by exact Hwf. simpl.
  destruct (letter_cutoffs mark) as (HA & _ & _ & _ & HF).
  split; [now exists (letter mark)|].
  split; [|split]; intros Hm; f_equal; [apply HA | apply HF | apply HF]; lia.
Qed.

Lemma assign_grades_out_of_range_witness :
  wf [("Zed", 250); ("Yan", -3)] /\
  lookup (assign_grades [("Zed", 250); ("Yan", -3)]) "Zed" = Some "A" /\
  lookup (assign_grades [("Zed", 250); ("Yan", -3)]) "Yan" = Some "F".
Proof.
  split; [solve_wf|]. split.
  - apply (assign_grades_out_of_range [("Zed", 250); ("Yan", -3)] "Zed" 250
             ltac:(solve_wf) eq_refl). lia.
  - apply (assign_grades_out_of_range [("Zed", 250); ("Yan", -3)] "Yan" (-3)
             ltac:(solve_wf) eq_refl). lia.
Defined.

(** ** Grade distribution *)

Lemma count_grade_cons (g x : string) (gs : list string) :
  count_grade g (x :: gs) = bump g x + count_grade g gs.
Proof.
  unfold count_grade, bump. cbn [filter].
  destruct (String.eqb g x); cbn [List.length]; lia.
Qed.

(** One iteration of the loop of [calculate_grade_distribution]. *)
Lemma distribution_step (g : string) (a b c d f : Z) :
  (let distribution := tally a b c d f in
   if contains distribution g then
     match lookup distribution g with
     | Some n => setitem distribution g (n + 1)
     | None => distribution
     end
   else distribution)
  = tally (a + bump "A" g) (b + bump "B" g) (c + bump "C" g)
      (d + bump "D" g) (f + bump "F" g).
Proof.
  unfold tally, contains, bump. cbn [lookup setitem].
  destruct (String.eqb_spec "A" g) as [<-|HA];
    [cbn; now rewrite !Z.add_0_r|].
  destruct (String.eqb_spec "B" g) as [<-|HB];
    [cbn; now rewrite !Z.add_0_r|].
  destruct (String.eqb_spec "C" g) as [<-|HC];
    [cbn; now rewrite !Z.add_0_r|].
  destruct (String.eqb_spec "D" g) as [<-|HD];
    [cbn; now rewrite !Z.add_0_r|].
  destruct (String.eqb_spec "F" g) as [<-|HF];
    [cbn; now rewrite !Z.add_0_r|].
  now rewrite !Z.add_0_r.
Qed.

(** The loop from any tally: each of the five counters grows by the number
    of its letters, other strings are passed over. *)
Lemma distribution_loop (gs : list string) (a b c d f : Z) :
  fold_left
    (fun distribution grade =>
       if contains distribution grade then
         match lookup distribution grade with
         | Some n => setitem distribution grade (n + 1)
         | None => distribution
         end
       else distribution)
    gs (tally a b c d f)
  = tally (a + count_grade "A" gs) (b + count_grade "B" gs)
      (c + count_grade "C" gs) (d + count_grade "D" gs)
      (f + count_grade "F" gs).
Proof.
  revert a b c d f. induction gs as [|g gs IH]; intros a b c d f.
  - unfold count_grade; simpl. now rewrite !Z.add_0_r.
  - cbn [fold_left].
    pose proof (distribution_step g a b c d f) as Hstep.
    cbv zeta in Hstep. rewrite Hstep, IH.
    rewrite !count_grade_cons, !Z.add_assoc. reflexivity.
Qed.

Lemma calculate_grade_distribution_counts (grades_dict : dict string) :
  calculate_grade_distribution grades_dict
  = tally (count_grade "A" (values grades_dict))
      (count_grade "B" (values grades_dict))
      (count_grade "C" (values grades_dict))
      (count_grade "D" (values grades_dict))
      (count_grade "F" (values grades_dict)).
Proof.
  unfold calculate_grade_distribution.
  exact (distribution_loop (values grades_dict) 0 0 0 0 0).
Qed.

Lemma letter_five (mark : Z) :
  In (letter mark) ["A"; "B"; "C"; "D"; "F"].
Proof.
  unfold letter.
  destruct (mark >=? 90); [simpl; tauto|].
  destruct (mark >=? 80); [simpl; tauto|].
  destruct (mark >=? 70); [simpl; tauto|].
  destruct (mark >=? 60); simpl; tauto.
Qed.

Lemma count_grade_total (gs : list string) :
  Forall (fun g => In g ["A"; "B"; "C"; "D"; "F"]) gs ->
  count_grade "A" gs + count_grade "B" gs + count_grade "C" gs
  + count_grade "D" gs + count_grade "F" gs = Z.of_nat (List.length gs).
Proof.
  induction 1 as [|g gs Hg _ IH]; [reflexivity|].
  rewrite !count_grade_cons. cbn [List.length]. rewrite Nat2Z.inj_succ.
  simpl in Hg.
  destruct Hg as [<-|[<-|[<-|[<-|[<-|[]]]]]]; unfold bump;
    repeat match goal with
      | |- context [String.eqb ?a ?b] =>
          let v := eval vm_compute in (String.eqb a b) in
          change (String.eqb a b) with v
      end; cbv iota; lia.
Qed.

Lemma count_grade_zero (g : string) (gs : list string) :
  count_grade g gs = 0 <-> ~ In g gs.
Proof.
  induction gs as [|x gs IH].
  - unfold count_grade; simpl. intuition.
  - rewrite count_grade_cons. unfold bump. simpl.
    assert (0 <= count_grade g gs) by (unfold count_grade; lia).
    destruct (String.eqb_spec g x) as [->|Hne].
    + split; [lia | intros Hn; exfalso; apply Hn; now left].
    + rewrite Z.add_0_l, IH. intuition congruence.
Qed.

Lemma values_assign_grades (marks_dict : dict Z) :
  wf marks_dict ->
  values (assign_grades marks_dict) = map letter (values marks_dict).
Proof.
  intros Hwf. rewrite (assign_grades_map _ Hwf). unfold values.
  now rewrite !map_map.
Qed.

(** C4. The distribution computed from the grades of any name -> mark
    mapping has one counter for each of A, B, C, D, F, each holding the
    number of students with that grade (0 when there is none), and the five
    counters add up to the number of students. *)
Theorem distribution_counts_students (marks_dict : dict Z) :
  wf marks_dict ->
  let grades_dict := assign_grades marks_dict in
  let distribution := calculate_grade_distribution grades_dict in
  keys distribution = ["A"; "B"; "C"; "D"; "F"] /\
  (forall grade,
      In grade ["A"; "B"; "C"; "D"; "F"] ->
      lookup distribution grade
      = Some (count_grade grade (values grades_dict))) /\
  (forall grade,
      lookup distribution grade = Some 0
      <-> In grade ["A"; "B"; "C"; "D"; "F"]
          /\ ~ In grade (values grades_dict)) /\
  sum (values distribution) = Z.of_nat (len marks_dict).
Proof.
  intros Hwf grades_dict distribution.
  subst distribution. rewrite calculate_grade_distribution_counts.
  assert (Hlk : forall grade,
             In grade ["A"; "B"; "C"; "D"; "F"] ->
             lookup (tally (count_grade "A" (values grades_dict))
                       (count_grade "B" (values grades_dict))
                       (count_grade "C" (values grades_dict))
                       (count_grade "D" (values grades_dict))
                       (count_grade "F" (values grades_dict))) grade
             = Some (count_grade grade (values grades_dict))).
  { intros grade Hg. simpl in Hg.
    destruct Hg as [<-|[<-|[<-|[<-|[<-|[]]]]]]; reflexivity. }
  split; [reflexivity|]. split; [exact Hlk|]. split.
  - intros grade. split.
    + intros H0.
      assert (Hin : In grade ["A"; "B"; "C"; "D"; "F"]).
      { change ["A"; "B"; "C"; "D"; "F"]
          with (keys (tally (count_grade "A" (values grades_dict))
                        (count_grade "B" (values grades_dict))
                        (count_grade "C" (values grades_dict))
                        (count_grade "D" (values grades_dict))
                        (count_grade "F" (values grades_dict)))).
        apply lookup_In_keys. now exists 0. }
      split; [exact Hin|].
      rewrite (Hlk _ Hin) in H0. injection H0 as H0.
      now apply count_grade_zero.
    + intros [Hin Hnot]. rewrite (Hlk _ Hin). f_equal.
      now apply count_grade_zero.
  - unfold sum, tally. cbn [values map snd fold_left]. rewrite Z.add_0_l.
    subst grades_dict. rewrite (values_assign_grades _ Hwf).
    rewrite count_grade_total.
    + unfold len, values. now rewrite !length_map.
    + apply Forall_forall. intros g Hg. apply in_map_iff in Hg.
      destruct Hg as (m & <- & _). apply letter_five.
Qed.

Lemma distribution_counts_students_witness :
  wf sample /\
  calculate_grade_distribution (assign_grades sample)
  = [("A", 2); ("B", 1); ("C", 0); ("D", 0); ("F", 1)] /\
  sum (values (calculate_grade_distribution (assign_grades sample)))
  = Z.of_nat (len sample).
Proof.
  split; [solve_wf|]. split; [reflexivity|].
  apply (distribution_counts_students sample ltac:(solve_wf)).
Defined.

(** C5. On the empty mapping the average and the median are 0, the highest
    and the lowest score are both the pair ("N/A", 0), and the distribution
    of its grades is 0 for all five letters. *)
Theorem empty_dataset :
  calculate_average [] = Ok (PyInt 0) /\
  calculate_median [] = Ok (PyInt 0) /\
  get_max_score [] = Ok ("N/A", 0) /\
  get_min_score [] = Ok ("N/A", 0) /\
  calculate_grade_distribution (assign_grades [])
  = [("A", 0); ("B", 0); ("C", 0); ("D", 0); ("F", 0)].
Proof. repeat split. Qed.

(** ** Pass/fail filter *)

Lemma keys_filter_incl {V : Type} (p : string * V -> bool) (d : dict V) k :
  In k (keys (filter p d)) -> In k (keys d).
Proof.
  unfold keys. rewrite !in_map_iff. intros (kv & Hk & Hin).
  apply filter_In in Hin. exists kv. tauto.
Qed.

Lemma wf_filter {V : Type} (p : string * V -> bool) (d : dict V) :
  wf d -> wf (filter p d).
Proof.
  unfold wf. induction d as [|[k v] d IH]; simpl; intros Hd; [constructor|].
  inversion Hd as [|? ? Hnotin Hnd]; subst.
  destruct (p (k, v)); simpl; [|now apply IH].
  constructor; [|now apply IH].
  intros Hin. apply Hnotin. now apply keys_filter_incl in Hin.
Qed.

Lemma lookup_filter {V : Type} (p : string * V -> bool) (d : dict V) k v :
  wf d ->
  lookup (filter p d) k = Some v <-> lookup d k = Some v /\ p (k, v) = true.
Proof.
  intros Hwf. split.
  - intros H. apply lookup_Some_In, filter_In in H. destruct H as [Hin Hp].
    split; [now apply In_lookup | exact Hp].
  - intros [H Hp]. apply In_lookup; [now apply wf_filter|].
    apply filter_In. split; [now apply lookup_Some_In | exact Hp].
Qed.

Lemma passed_students_filter (marks_dict : dict Z) (pass_threshold : Z) :
  wf marks_dict ->
  passed_students marks_dict pass_threshold
  = filter (fun item => snd item >=? pass_threshold) marks_dict.
Proof.
  intros Hwf. unfold passed_students, items.
  apply dict_of_items_wf. now apply wf_filter.
Qed.

Lemma failed_students_filter (marks_dict : dict Z) (pass_threshold : Z) :
  wf marks_dict ->
  failed_students marks_dict pass_threshold
  = filter (fun item => snd item <? pass_threshold) marks_dict.
Proof.
  intros Hwf. unfold failed_students, items.
  apply dict_of_items_wf. now apply wf_filter.
Qed.

Lemma length_split_at (t : Z) (d : dict Z) :
  (List.length (filter (fun item => (snd item >=? t)%Z) d)
   + List.length (filter (fun item => (snd item <? t)%Z) d)
   = List.length d)%nat.
Proof.
  induction d as [|[k m] d IH]; simpl; [reflexivity|].
  rewrite Z.geb_leb.
  destruct (Z.leb_spec t m), (Z.ltb_spec m t); simpl; lia.
Qed.

(** C2. For every mapping and every threshold the filter splits the
    students in two: [passed] holds exactly the students with mark >=
    threshold, [failed] exactly those with mark < threshold, nobody is in
    both, and the two sizes add up to the number of students. *)
Theorem pass_fail_partition (marks_dict : dict Z) (pass_threshold : Z) :
  wf marks_dict ->
  let passed := passed_students marks_dict pass_threshold in
  let failed := failed_students marks_dict pass_threshold in
  (forall name score,
      lookup passed name = Some score
      <-> lookup marks_dict name = Some score /\ pass_threshold <= score) /\
  (forall name score,
      lookup failed name = Some score
      <-> lookup marks_dict name = Some score /\ score < pass_threshold) /\
  (forall name, ~ (In name (keys passed) /\ In name (keys failed))) /\
  (forall name,
      In name (keys marks_dict)
      -> In name (keys passed) \/ In name (keys failed)) /\
  (len passed + len failed = len marks_dict)%nat.
Proof.
  intros Hwf passed failed. subst passed failed.
  rewrite (passed_students_filter _ _ Hwf), (failed_students_filter _ _ Hwf).
  assert (Hp : forall name score,
             lookup (filter (fun item => snd item >=? pass_threshold) marks_dict)
               name = Some score
             <-> lookup marks_dict name = Some score /\ pass_threshold <= score).
  { intros name score. rewrite lookup_filter by exact Hwf. simpl.
    rewrite Z.geb_leb, Z.leb_le. reflexivity. }
  assert (Hf : forall name score,
             lookup (filter (fun item => snd item <? pass_threshold) marks_dict)
               name = Some score
             <-> lookup marks_dict name = Some score /\ score < pass_threshold).
  { intros name score. rewrite lookup_filter by exact Hwf. simpl.
    rewrite Z.ltb_lt. reflexivity. }
  split; [exact Hp|]. split; [exact Hf|]. split; [|split].
  - intros name [H1 H2].
    apply lookup_In_keys in H1. apply lookup_In_keys in H2.
    destruct H1 as [s1 H1], H2 as [s2 H2].
    apply Hp in H1. apply Hf in H2.
    destruct H1 as [H1 Hge], H2 as [H2 Hlt].
    rewrite H1 in H2. injection H2 as <-. lia.
  - intros name Hin. apply lookup_In_keys in Hin. destruct Hin as [s Hs].
    destruct (Z.le_gt_cases pass_threshold s) as [Hge|Hlt].
    + left. apply lookup_In_keys. exists s. apply Hp. tauto.
    + right. apply lookup_In_keys. exists s. apply Hf. tauto.
  - unfold len. apply length_split_at.
Qed.

Lemma pass_fail_partition_witness :
  wf sample /\
  (len (passed_students sample 60) + len (failed_students sample 60)
   = len sample)%nat.
Proof.
  split; [solve_wf|].
  apply (pass_fail_partition sample 60 ltac:(solve_wf)).
Defined.

(** The two totals printed are the sizes of the two parts. *)
Lemma summary_totals (marks_dict : dict Z) (pass_threshold : Z)
    (lines : list string) :
  print_pass_fail_summary marks_dict pass_threshold = Ok lines ->
  In (nl ++ "Total Students Passed: "
         ++ decimal (Z.of_nat (len (passed_students marks_dict pass_threshold))))%string
    lines /\
  In (nl ++ "Total Students Failed: "
         ++ decimal (Z.of_nat (len (failed_students marks_dict pass_threshold))))%string
    lines.
Proof.
  unfold print_pass_fail_summary.
  destruct (str pass_threshold) as [pass_mark|e]; [|discriminate].
  cbn [bind]. intros H. injection H as <-. split.
  - right. right. now left.
  - right. right. right. apply in_or_app. right. now left.
Qed.

(** ** Rounding to a double *)

Lemma round_half_even_cases (y : Q) :
  let n := Qfloor y in
  (round_half_even y = n /\ (y - inject_Z n <= 1 # 2)%Q) \/
  (round_half_even y = n + 1 /\ (1 # 2 <= y - inject_Z n)%Q).
Proof.
  intros n. unfold round_half_even. fold n.
  destruct (y - inject_Z n ?= 1 # 2)%Q eqn:E.
  - apply Qeq_alt in E. destruct (Z.even n); [left | right]; split; auto; rewrite E; lra.
  - apply Qlt_alt in E. left. split; auto. lra.
  - apply Qgt_alt in E. right. split; auto. lra.
Qed.

Lemma round_half_even_near (y : Q) :
  (y - (1 # 2) <= inject_Z (round_half_even y) <= y + (1 # 2))%Q.
Proof.
  pose proof (Qfloor_le y) as Hlo. pose proof (Qlt_floor y) as Hhi.
  rewrite inject_Z_plus in Hhi.
  destruct (round_half_even_cases y) as [[-> H] | [-> H]]; cbv zeta in *.
  - lra.
  - rewrite inject_Z_plus. change (inject_Z 1) with 1%Q in *. lra.
Qed.

Lemma round_half_even_ge (y : Q) (k : Z) :
  (inject_Z k <= y)%Q -> k <= round_half_even y.
Proof.
  intros H. apply Qfloor_resp_le in H. rewrite Qfloor_Z in H.
  destruct (round_half_even_cases y) as [[-> _] | [-> _]]; lia.
Qed.

Lemma round_half_even_le (y : Q) (k : Z) :
  (y <= inject_Z k)%Q -> round_half_even y <= k.
Proof.
  intros H. pose proof (Qfloor_le y) as Hlo.
  destruct (round_half_even_cases y) as [[-> _] | [-> Hhalf]].
  - rewrite Zle_Qle. lra.
  - assert (Hlt : (inject_Z (Qfloor y) < inject_Z k)%Q) by lra.
    rewrite <- Zlt_Qlt in Hlt. lia.
Qed.

Lemma round_half_even_exact (k : Z) : round_half_even (inject_Z k) = k.
Proof.
  apply Z.le_antisymm.
  - apply round_half_even_le. lra.
  - apply round_half_even_ge. lra.
Qed.

Lemma pow2_pos (k : Z) : (0 < 2 ^ k)%Q.
Proof. apply Qpower_0_lt. reflexivity. Qed.

Lemma pow2_add (a b : Z) : (2 ^ (a + b) == 2 ^ a * 2 ^ b)%Q.
Proof. apply Qpower_plus. discriminate. Qed.

Lemma pow2_le (a b : Z) : a <= b -> (2 ^ a <= 2 ^ b)%Q.
Proof. intros H. apply Qpower_le_compat_l; [exact H | discriminate]. Qed.

Lemma pow2_lt (a b : Z) : a < b -> (2 ^ a < 2 ^ b)%Q.
Proof. intros H. apply Qpower_lt_compat_l; [exact H | reflexivity]. Qed.

Lemma pow2_lt_inv (a b : Z) : (2 ^ a < 2 ^ b)%Q -> a < b.
Proof. intros H. apply (Qpower_lt_compat_l_inv 2); [exact H | reflexivity]. Qed.

Lemma pow2_inject (k : Z) : 0 <= k -> (inject_Z (2 ^ k) == 2 ^ k)%Q.
Proof. intros H. now rewrite Zpower_Qpower. Qed.

Lemma log2_bounds (n : Z) :
  0 < n -> (2 ^ Z.log2 n <= inject_Z n < 2 ^ (Z.log2 n + 1))%Q.
Proof.
  intros Hn. pose proof (Z.log2_spec n Hn) as [Hlo Hhi].
  pose proof (Z.log2_nonneg n) as H0.
  rewrite <- !pow2_inject by lia. split.
  - now rewrite <- Zle_Qle.
  - rewrite <- Zlt_Qlt. now rewrite <- Z.add_1_r in Hhi.
Qed.

Lemma binade_spec (x : Q) :
  (0 < x)%Q -> (2 ^ binade x <= x < 2 ^ (binade x + 1))%Q.
Proof.
  destruct x as [n d]. intros Hx.
  assert (Hn : 0 < n) by (unfold Qlt in Hx; simpl in Hx; lia).
  unfold binade. cbn [Qnum Qden].
  pose proof (log2_bounds n Hn) as [Hn1 Hn2].
  pose proof (log2_bounds (Z.pos d) eq_refl) as [Hd1 Hd2].
  set (la := Z.log2 n) in *. set (lb := Z.log2 (Z.pos d)) in *.
  assert (Hxd : ((n # d) * inject_Z (Z.pos d) == inject_Z n)%Q).
  { unfold Qeq, Qmult, inject_Z. simpl. lia. }
  pose proof (pow2_add (la - lb + 1) lb) as Hup.
  replace (la - lb + 1 + lb) with (la + 1) in Hup by ring.
  pose proof (pow2_add (la - lb - 1) (lb + 1)) as Hdn.
  replace (la - lb - 1 + (lb + 1)) with la in Hdn by ring.
  pose proof (pow2_pos lb). pose proof (pow2_pos (lb + 1)).
  pose proof (pow2_pos (la - lb + 1)). pose proof (pow2_pos (la - lb - 1)).
  assert (Hlt : (n # d < 2 ^ (la - lb + 1))%Q).
  { apply Qnot_le_lt. intros Hc.
    generalize dependent (2 ^ (la - lb + 1))%Q. generalize dependent (2 ^ (la + 1))%Q.
    generalize dependent (2 ^ lb)%Q. generalize dependent (inject_Z (Z.pos d)).
    generalize dependent (inject_Z n). intros; nra. }
  assert (Hgt : (2 ^ (la - lb - 1) < n # d)%Q).
  { apply Qnot_le_lt. intros Hc.
    generalize dependent (2 ^ (la - lb - 1))%Q. generalize dependent (2 ^ (lb + 1))%Q.
    generalize dependent (2 ^ la)%Q. generalize dependent (inject_Z (Z.pos d)).
    generalize dependent (inject_Z n). intros; nra. }
  destruct (Qle_bool (2 ^ (la - lb)) (n # d)) eqn:E.
  - apply Qle_bool_iff in E. split; [exact E | exact Hlt].
  - split; [now apply Qlt_le_weak|].
    replace (la - lb - 1 + 1) with (la - lb) by ring.
    apply Qnot_le_lt. intros Hc. apply Qle_bool_iff in Hc. congruence.
Qed.
Lemma round_scaled_near (x : Q) (e : Z) :
  (Qabs (inject_Z (round_half_even (x / 2 ^ e)) * 2 ^ e - x) * 2 <= 2 ^ e)%Q.
Proof.
  pose proof (pow2_pos e) as Hp.
  pose proof (round_half_even_near (x / 2 ^ e)) as [Hlo Hhi].
  assert (Hx : (x == x / 2 ^ e * 2 ^ e)%Q) by (field; lra).
  set (y := (x / 2 ^ e)%Q) in *. set (m := inject_Z (round_half_even y)) in *.
  assert (H : (Qabs (m * 2 ^ e - x) <= 2 ^ e * (1 # 2))%Q).
  { apply Qabs_Qle_condition. rewrite Hx.
    generalize dependent (2 ^ e)%Q. intros p; intros. split; nra. }
  lra.
Qed.

Lemma round_scaled_le (x : Q) (e k : Z) :
  (x <= inject_Z k * 2 ^ e)%Q ->
  (inject_Z (round_half_even (x / 2 ^ e)) * 2 ^ e <= inject_Z k * 2 ^ e)%Q.
Proof.
  intros H. pose proof (pow2_pos e) as Hp.
  assert (Hy : (x / 2 ^ e <= inject_Z k)%Q).
  { apply Qle_shift_div_r; [exact Hp | exact H]. }
  apply round_half_even_le in Hy. rewrite Zle_Qle in Hy.
  apply Qmult_le_compat_r; [exact Hy | lra].
Qed.

Lemma round_scaled_ge (x : Q) (e k : Z) :
  (inject_Z k * 2 ^ e <= x)%Q ->
  (inject_Z k * 2 ^ e <= inject_Z (round_half_even (x / 2 ^ e)) * 2 ^ e)%Q.
Proof.
  intros H. pose proof (pow2_pos e) as Hp.
  assert (Hy : (inject_Z k <= x / 2 ^ e)%Q).
  { apply Qle_shift_div_l; [exact Hp | exact H]. }
  apply round_half_even_ge in Hy. rewrite Zle_Qle in Hy.
  apply Qmult_le_compat_r; [exact Hy | lra].
Qed.

Lemma round_double_nonzero (x : Q) :
  ~ (x == 0)%Q ->
  let q := (inject_Z (round_half_even (x / 2 ^ ulp_exponent x)) * 2 ^ ulp_exponent x)%Q in
  (round_double x = None /\ (2 ^ 1024 <= Qabs q)%Q) \/
  (exists q', round_double x = Some q' /\ (q' == q)%Q /\ (Qabs q < 2 ^ 1024)%Q).
Proof.
  intros Hx q. unfold round_double.
  destruct (Qeq_bool x 0) eqn:E0; [apply Qeq_bool_iff in E0; contradiction|].
  fold q.
  destruct (Qle_bool (2 ^ 1024) (Qabs q)) eqn:E.
  - left. split; [reflexivity | now apply Qle_bool_iff].
  - right. exists (Qred q). split; [reflexivity|]. split; [apply Qred_correct|].
    apply Qnot_le_lt. intros Hc. apply Qle_bool_iff in Hc. congruence.
Qed.

Lemma Qabs_pos_nonzero (x : Q) : ~ (x == 0)%Q -> (0 < Qabs x)%Q.
Proof.
  intros Hx. pose proof (Qabs_nonneg x) as H0.
  destruct (Qlt_le_dec 0 (Qabs x)) as [H|H]; [exact H|].
  exfalso. apply Hx. 
  assert (Ha : (Qabs x <= 0)%Q) by exact H.
  apply Qabs_Qle_condition in Ha. lra.
Qed.

Lemma binade_lt (x : Q) (k : Z) : (0 < x)%Q -> (x < 2 ^ k)%Q -> binade x < k.
Proof.
  intros H0 H. pose proof (binade_spec x H0) as [Hlo _].
  apply pow2_lt_inv. lra.
Qed.

(** The last place weighs at most [2 ^ -52] of the value, or [2 ^ -1074]. *)
Lemma ulp_exponent_small (x : Q) :
  ~ (x == 0)%Q -> (2 ^ ulp_exponent x * 2 ^ 52 <= Qabs x + 2 ^ (-1022))%Q.
Proof.
  intros Hx. pose proof (binade_spec _ (Qabs_pos_nonzero x Hx)) as [Hlo _].
  unfold ulp_exponent. rewrite <- pow2_add.
  pose proof (pow2_pos (-1022)) as Hp. pose proof (Qabs_nonneg x) as Ha.
  destruct (Z.max_spec (binade (Qabs x)) (-1022)) as [[Hlt ->] | [Hge ->]].
  - replace (-1022 - 52 + 52) with (-1022) by ring. lra.
  - replace (binade (Qabs x) - 52 + 52) with (binade (Qabs x)) by ring. lra.
Qed.

(** The scaled value has at most 53 bits. *)
Lemma ulp_exponent_large (x : Q) :
  ~ (x == 0)%Q -> (Qabs x <= 2 ^ 53 * 2 ^ ulp_exponent x)%Q.
Proof.
  intros Hx. pose proof (binade_spec _ (Qabs_pos_nonzero x Hx)) as [_ Hhi].
  rewrite <- pow2_add. apply Qlt_le_weak.
  eapply Qlt_le_trans; [exact Hhi|]. apply pow2_le. unfold ulp_exponent. lia.
Qed.
Lemma round_scaled_exact (x : Q) (e k : Z) :
  (x == inject_Z k * 2 ^ e)%Q ->
  (inject_Z (round_half_even (x / 2 ^ e)) * 2 ^ e == x)%Q.
Proof.
  intros H. apply Qle_antisym.
  - rewrite H at 2. apply round_scaled_le. rewrite H. apply Qle_refl.
  - rewrite H at 1. apply round_scaled_ge. rewrite H. apply Qle_refl.
Qed.

Lemma round_double_zero (x : Q) : (x == 0)%Q -> round_double x = Some 0%Q.
Proof.
  intros H. unfold round_double.
  apply Qeq_bool_iff in H. now rewrite H.
Qed.

(** The double differs from the value rounded by at most half a unit in
    the last place. *)
Lemma round_double_tolerance (x q : Q) :
  round_double x = Some q ->
  (Qabs (q - x) * 2 ^ 53 <= Qabs x + 2 ^ (-1022))%Q.
Proof.
  intros Hq. pose proof (pow2_pos (-1022)) as Hp.
  pose proof (Qabs_nonneg x) as Ha.
  pose proof (pow2_add 1 52) as H53. change (1 + 52) with 53 in H53.
  change (2 ^ 1)%Q with 2%Q in H53. rewrite H53.
  destruct (Qeq_dec x 0) as [H0|Hx].
  - rewrite (round_double_zero x H0) in Hq. injection Hq as <-.
    assert (Hz : (Qabs (0 - x) == 0)%Q) by (rewrite H0; reflexivity).
    rewrite Hz. lra.
  - destruct (round_double_nonzero x Hx) as [[Hn _] | (q' & Hs & Heq & _)];
      [congruence|].
    rewrite Hs in Hq. injection Hq as <-. rewrite Heq.
    pose proof (round_scaled_near x (ulp_exponent x)) as Hnear.
    pose proof (ulp_exponent_small x Hx) as Hsmall.
    pose proof (pow2_pos 52) as Hp52.
    set (err := Qabs _) in *.
    assert (He : (0 <= err)%Q) by apply Qabs_nonneg.
    generalize dependent (2 ^ ulp_exponent x)%Q.
    generalize dependent (2 ^ 52)%Q. generalize dependent (2 ^ (-1022))%Q.
    generalize dependent (Qabs x). intros; nra.
Qed.

(** Below [2 ^ 1023] in magnitude nothing overflows. *)
Lemma round_double_defined (x : Q) :
  (Qabs x < 2 ^ 1023)%Q -> exists q, round_double x = Some q.
Proof.
  intros Hlt. destruct (Qeq_dec x 0) as [H0|Hx].
  - exists 0%Q. now apply round_double_zero.
  - destruct (round_double_nonzero x Hx) as [[_ Hbig] | (q' & Hs & _)];
      [|now exists q'].
    exfalso.
    pose proof (binade_lt _ 1023 (Qabs_pos_nonzero x Hx) Hlt) as HE.
    pose proof (ulp_exponent_large x Hx) as Hlarge.
    pose proof (pow2_inject 53 ltac:(lia)) as H53.
    assert (Hle : (x <= inject_Z (2 ^ 53) * 2 ^ ulp_exponent x)%Q).
    { rewrite H53. eapply Qle_trans; [apply Qle_Qabs | exact Hlarge]. }
    assert (Hge : (inject_Z (- 2 ^ 53) * 2 ^ ulp_exponent x <= x)%Q).
    { rewrite inject_Z_opp, H53.
      assert (Hx' : (- x <= Qabs x)%Q) by (rewrite <- Qabs_opp; apply Qle_Qabs).
      lra. }
    apply round_scaled_le in Hle. apply round_scaled_ge in Hge.
    rewrite inject_Z_opp, H53 in Hge. rewrite H53 in Hle.
    assert (Hq : (Qabs (inject_Z (round_half_even (x / 2 ^ ulp_exponent x))
                        * 2 ^ ulp_exponent x)
                  <= 2 ^ 53 * 2 ^ ulp_exponent x)%Q).
    { apply Qabs_Qle_condition. split; lra. }
    assert (Hexp : (2 ^ 53 * 2 ^ ulp_exponent x <= 2 ^ 1023)%Q).
    { rewrite <- pow2_add. apply pow2_le. unfold ulp_exponent. lia. }
    pose proof (pow2_lt 1023 1024 ltac:(lia)) as Hlast.
    lra.
Qed.

(** Between two integers of at most 53 bits the double stays between
    them. *)
Lemma round_double_between (x : Q) (lo hi : Z) :
  Z.abs lo < 2 ^ 53 -> Z.abs hi < 2 ^ 53 ->
  (inject_Z lo <= x <= inject_Z hi)%Q ->
  exists q, round_double x = Some q /\ (inject_Z lo <= q <= inject_Z hi)%Q.
Proof.
  intros Hlo Hhi [Hl Hh].
  destruct (Qeq_dec x 0) as [H0|Hx].
  - exists 0%Q. split; [now apply round_double_zero|]. lra.
  - pose proof (pow2_inject 53 ltac:(lia)) as H53.
    assert (Hlo' : (- 2 ^ 53 < inject_Z lo)%Q).
    { rewrite <- H53, <- inject_Z_opp, <- Zlt_Qlt. lia. }
    assert (Hhi' : (inject_Z hi < 2 ^ 53)%Q).
    { rewrite <- H53, <- Zlt_Qlt. lia. }
    assert (Hx53 : (Qabs x < 2 ^ 53)%Q).
    { apply Qabs_Qlt_condition. split; lra. }
    pose proof (binade_lt _ 53 (Qabs_pos_nonzero x Hx) Hx53) as HE.
    destruct (round_double_defined x) as [q Hq].
    { pose proof (pow2_lt 53 1023 ltac:(lia)). lra. }
    exists q. split; [exact Hq|].
    destruct (round_double_nonzero x Hx) as [[Hn _] | (q' & Hs & Heq & _)];
      [congruence|].
    rewrite Hs in Hq. injection Hq as <-. rewrite Heq.
    set (e := ulp_exponent x) in *.
    assert (He : e <= 0) by (unfold e, ulp_exponent; lia).
    assert (Hgrid : forall k : Z,
               (inject_Z k == inject_Z (k * 2 ^ (- e)) * 2 ^ e)%Q).
    { intros k. rewrite inject_Z_mult, pow2_inject by lia.
      rewrite <- Qmult_assoc, <- pow2_add.
      replace (- e + e) with 0 by ring. change (2 ^ 0)%Q with 1%Q. ring. }
    split.
    + rewrite (Hgrid lo). apply round_scaled_ge. rewrite <- Hgrid. exact Hl.
    + rewrite (Hgrid hi). apply round_scaled_le. rewrite <- Hgrid. exact Hh.
Qed.

(** A half of an integer of at most 53 bits is a double. *)
Lemma round_double_half (x q : Q) (k : Z) :
  Z.abs k < 2 ^ 53 -> (x == k # 2)%Q -> round_double x = Some q -> (q == x)%Q.
Proof.
  intros Hk Hxk Hq.
  destruct (Qeq_dec x 0) as [H0|Hx].
  - rewrite (round_double_zero x H0) in Hq. injection Hq as <-. now rewrite H0.
  - destruct (round_double_nonzero x Hx) as [[Hn _] | (q' & Hs & Heq & _)];
      [congruence|].
    rewrite Hs in Hq. injection Hq as <-. rewrite Heq.
    pose proof (pow2_inject 53 ltac:(lia)) as H53.
    pose proof (pow2_add 1 52) as H52. change (1 + 52) with 53 in H52.
    change (2 ^ 1)%Q with 2%Q in H52.
    assert (Hk2 : (k # 2 == inject_Z k * (1 # 2))%Q).
    { unfold Qeq, Qmult, inject_Z. simpl. lia. }
    assert (Hx52 : (Qabs x < 2 ^ 52)%Q).
    { apply Qabs_Qlt_condition. rewrite Hxk, Hk2.
      assert (Hk' : (- 2 ^ 53 < inject_Z k < 2 ^ 53)%Q).
      { rewrite <- H53, <- inject_Z_opp, <- !Zlt_Qlt. lia. }
      lra. }
    pose proof (binade_lt _ 52 (Qabs_pos_nonzero x Hx) Hx52) as HE.
    set (e := ulp_exponent x) in *.
    assert (He : e <= -1) by (unfold e, ulp_exponent; lia).
    apply (round_scaled_exact x e (k * 2 ^ (- e - 1))).
    rewrite Hxk, Hk2, inject_Z_mult, pow2_inject by lia.
    rewrite <- Qmult_assoc, <- pow2_add.
    replace (- e - 1 + e) with (-1) by ring. reflexivity.
Qed.

(** ** Highest and lowest score *)

(** [max_from] returns the first element of [best :: xs] with the largest
    key: what comes before is strictly smaller, what comes after is not
    larger. *)
Lemma max_from_first {A : Type} (key : A -> Z) (xs : list A) (best : A) :
  exists l1 l2,
    best :: xs = (l1 ++ max_from key best xs :: l2)%list /\
    (forall y, In y l1 -> key y < key (max_from key best xs)) /\
    (forall y, In y l2 -> key y <= key (max_from key best xs)).
Proof.
  revert best. induction xs as [|x xs IH]; intros best; simpl.
  - exists [], []. simpl. intuition.
  - destruct (Z.gtb_spec (key x) (key best)) as [Hgt|Hle].
    + destruct (IH x) as (l1 & l2 & Heq & Hlt & Hle).
      exists (best :: l1), l2. split; [simpl; now f_equal|].
      split; [|exact Hle].
      assert (Hx : key x <= key (max_from key x xs)).
      { destruct l1 as [|y l1]; simpl in Heq; injection Heq as Hy Hrest.
        - rewrite <- Hy. lia.
        - subst y. apply Z.lt_le_incl, Hlt. now left. }
      intros y [<-|Hy]; [lia | now apply Hlt].
    + destruct (IH best) as (l1 & l2 & Heq & Hlt & Hle').
      destruct l1 as [|y l1]; simpl in Heq; injection Heq as Hy Hrest.
      * exists [], (x :: l2). simpl. split; [now rewrite <- Hy, <- Hrest|].
        split; [intros y []|].
        intros y [<-|Hy']; [rewrite <- Hy; lia | now apply Hle'].
      * subst y. exists (best :: x :: l1), l2. simpl.
        split; [now rewrite <- Hrest|]. split; [|exact Hle'].
        assert (Hb : key best < key (max_from key best xs))
          by (apply Hlt; now left).
        intros y [<-|[<-|Hy]]; [exact Hb | lia | apply Hlt; now right].
Qed.

Lemma min_from_first {A : Type} (key : A -> Z) (xs : list A) (best : A) :
  exists l1 l2,
    best :: xs = (l1 ++ min_from key best xs :: l2)%list /\
    (forall y, In y l1 -> key (min_from key best xs) < key y) /\
    (forall y, In y l2 -> key (min_from key best xs) <= key y).
Proof.
  revert best. induction xs as [|x xs IH]; intros best; simpl.
  - exists [], []. simpl. intuition.
  - destruct (Z.ltb_spec (key x) (key best)) as [Hgt|Hle].
    + destruct (IH x) as (l1 & l2 & Heq & Hlt & Hle).
      exists (best :: l1), l2. split; [simpl; now f_equal|].
      split; [|exact Hle].
      assert (Hx : key (min_from key x xs) <= key x).
      { destruct l1 as [|y l1]; simpl in Heq; injection Heq as Hy Hrest.
        - rewrite <- Hy. lia.
        - subst y. apply Z.lt_le_incl, Hlt. now left. }
      intros y [<-|Hy]; [lia | now apply Hlt].
    + destruct (IH best) as (l1 & l2 & Heq & Hlt & Hle').
      destruct l1 as [|y l1]; simpl in Heq; injection Heq as Hy Hrest.
      * exists [], (x :: l2). simpl. split; [now rewrite <- Hy, <- Hrest|].
        split; [intros y []|].
        intros y [<-|Hy']; [rewrite <- Hy; lia | now apply Hle'].
      * subst y. exists (best :: x :: l1), l2. simpl.
        split; [now rewrite <- Hrest|]. split; [|exact Hle'].
        assert (Hb : key (min_from key best xs) < key best)
          by (apply Hlt; now left).
        intros y [<-|[<-|Hy]]; [exact Hb | lia | apply Hlt; now right].
Qed.

(** C6. On every non-empty mapping [get_max_score] returns an entry of the
    mapping whose mark is >= every mark, [get_min_score] an entry whose
    mark is <= every mark, and among tied students each returns the first
    one in iteration order: every entry before it is strictly inside. *)
Theorem max_min_score_extreme (marks_dict : dict Z) :
  wf marks_dict ->
  marks_dict <> [] ->
  exists hi lo,
    get_max_score marks_dict = Ok hi /\
    get_min_score marks_dict = Ok lo /\
    lookup marks_dict (fst hi) = Some (snd hi) /\
    lookup marks_dict (fst lo) = Some (snd lo) /\
    (forall name mark,
        lookup marks_dict name = Some mark -> snd lo <= mark <= snd hi) /\
    (exists before after,
        items marks_dict = (before ++ hi :: after)%list /\
        forall item, In item before -> snd item < snd hi) /\
    (exists before after,
        items marks_dict = (before ++ lo :: after)%list /\
        forall item, In item before -> snd lo < snd item).
Proof.
  intros Hwf Hne. destruct marks_dict as [|first rest]; [contradiction|].
  unfold get_max_score, get_min_score, items. simpl not_. cbv iota.
  unfold max_, min_.
  destruct (max_from_first snd rest first) as (a1 & a2 & Ha & Halt & Hale).
  destruct (min_from_first snd rest first) as (b1 & b2 & Hb & Hblt & Hble).
  set (hi := max_from snd first rest) in *.
  set (lo := min_from snd first rest) in *.
  exists hi, lo.
  assert (Hin_hi : In hi (first :: rest))
    by (rewrite Ha; apply in_or_app; right; now left).
  assert (Hin_lo : In lo (first :: rest))
    by (rewrite Hb; apply in_or_app; right; now left).
  split; [reflexivity|]. split; [reflexivity|].
  split; [apply In_lookup; [exact Hwf | now destruct hi]|].
  split; [apply In_lookup; [exact Hwf | now destruct lo]|].
  split; [|split].
  - intros name mark Hlk. apply lookup_Some_In in Hlk. split.
    + rewrite Hb in Hlk. apply in_app_or in Hlk.
      destruct Hlk as [H|[H|H]].
      * apply Z.lt_le_incl. exact (Hblt _ H).
      * rewrite H. simpl. lia.
      * exact (Hble _ H).
    + rewrite Ha in Hlk. apply in_app_or in Hlk.
      destruct Hlk as [H|[H|H]].
      * apply Z.lt_le_incl. exact (Halt _ H).
      * rewrite H. simpl. lia.
      * exact (Hale _ H).
  - exists a1, a2. split; [exact Ha | exact Halt].
  - exists b1, b2. split; [exact Hb | exact Hblt].
Qed.

Lemma max_min_score_extreme_witness :
  wf sample /\ sample <> [] /\
  exists hi lo,
    get_max_score sample = Ok hi /\
    get_min_score sample = Ok lo /\
    lookup sample (fst hi) = Some (snd hi) /\
    lookup sample (fst lo) = Some (snd lo) /\
    (forall name mark,
        lookup sample name = Some mark -> snd lo <= mark <= snd hi) /\
    (exists before after,
        items sample = (before ++ hi :: after)%list /\
        forall item, In item before -> snd item < snd hi) /\
    (exists before after,
        items sample = (before ++ lo :: after)%list /\
        forall item, In item before -> snd lo < snd item).
Proof.
  split; [solve_wf|]. split; [discriminate|].
  apply (max_min_score_extreme sample); [solve_wf | discriminate].
Defined.

Example first_of_tied_students :
  get_max_score sample = Ok ("Abe", 90) /\
  get_min_score [("Ann", 7); ("Ben", 7)] = Ok ("Ann", 7).
Proof. split; reflexivity. Qed.

(** ** Median and average *)

Lemma count_below_perm (v : Z) (xs ys : list Z) :
  Permutation xs ys -> count_below v xs = count_below v ys.
Proof.
  unfold count_below.
  induction 1 as [|x xs ys _ IH|x y xs|xs ys zs _ IH1 _ IH2]; simpl.
  - reflexivity.
  - destruct (x <? v); simpl; now rewrite IH.
  - destruct (x <? v), (y <? v); reflexivity.
  - now rewrite IH1.
Qed.

Lemma count_upto_perm (v : Z) (xs ys : list Z) :
  Permutation xs ys -> count_upto v xs = count_upto v ys.
Proof.
  unfold count_upto.
  induction 1 as [|x xs ys _ IH|x y xs|xs ys zs _ IH1 _ IH2]; simpl.
  - reflexivity.
  - destruct (x <=? v); simpl; now rewrite IH.
  - destruct (x <=? v), (y <=? v); reflexivity.
  - now rewrite IH1.
Qed.

Lemma kth_smallest_perm (xs ys : list Z) (k : nat) (v : Z) :
  Permutation xs ys -> kth_smallest xs k v -> kth_smallest ys k v.
Proof.
  intros Hp (Hin & Hlo & Hhi). unfold kth_smallest.
  rewrite <- (count_below_perm v _ _ Hp), <- (count_upto_perm v _ _ Hp).
  split; [eapply Permutation_in; eassumption | tauto].
Qed.

Lemma count_below_mono (v w : Z) (xs : list Z) :
  v <= w -> (count_below v xs <= count_below w xs)%nat.
Proof.
  intros Hvw. unfold count_below. induction xs as [|x xs IH]; simpl; [lia|].
  destruct (Z.ltb_spec x v), (Z.ltb_spec x w); simpl; lia.
Qed.

Lemma count_upto_below (v w : Z) (xs : list Z) :
  v < w -> (count_upto v xs <= count_below w xs)%nat.
Proof.
  intros Hvw. unfold count_upto, count_below.
  induction xs as [|x xs IH]; simpl; [lia|].
  destruct (Z.leb_spec x v), (Z.ltb_spec x w); simpl; lia.
Qed.

(** The rank fixes the value. *)
Lemma kth_smallest_unique (xs : list Z) (k : nat) (v w : Z) :
  kth_smallest xs k v -> kth_smallest xs k w -> v = w.
Proof.
  intros (_ & Hv1 & Hv2) (_ & Hw1 & Hw2).
  destruct (Z.lt_trichotomy v w) as [Hlt|[Heq|Hgt]]; [|exact Heq|].
  - pose proof (count_upto_below v w xs Hlt). lia.
  - pose proof (count_upto_below w v xs Hgt). lia.
Qed.

Lemma count_below_least (x : Z) (xs : list Z) :
  Forall (fun y => is_true (x <=? y)) xs -> count_below x xs = 0%nat.
Proof.
  unfold count_below. induction 1 as [|y ys Hy _ IH]; simpl; [reflexivity|].
  apply Z.leb_le in Hy. destruct (Z.ltb_spec y x); [lia | exact IH].
Qed.

(** In a sorted list the element at position [k] has rank [k]. *)
Lemma sorted_rank (s : list Z) :
  StronglySorted (fun x y => is_true (x <=? y)) s ->
  forall k v, nth_error s k = Some v -> kth_smallest s k v.
Proof.
  induction 1 as [|x s Hs IH Hx]; intros k v Hk.
  - destruct k; discriminate.
  - destruct k as [|k]; simpl in Hk.
    + injection Hk as <-. unfold kth_smallest. split; [now left|].
      unfold count_below, count_upto. simpl.
      rewrite Z.ltb_irrefl, Z.leb_refl. fold (count_below x s).
      rewrite (count_below_least x s Hx). simpl. lia.
    + destruct (IH k v Hk) as (Hin & Hlo & Hhi).
      assert (Hxv : x <= v).
      { apply Z.leb_le. rewrite Forall_forall in Hx. now apply Hx. }
      unfold kth_smallest. split; [now right|].
      unfold count_below, count_upto in *. simpl.
      destruct (Z.leb_spec x v); [|lia].
      destruct (x <? v); simpl; lia.
Qed.

Lemma leb_transitive : Transitive (fun x y => is_true (ZOrder.leb x y)).
Proof.
  intros x y z. unfold ZOrder.leb, is_true. rewrite !Z.leb_le. lia.
Qed.

Lemma sort_rank (xs : list Z) (k : nat) (v : Z) :
  nth_error (ZSort.sort xs) k = Some v -> kth_smallest xs k v.
Proof.
  intros Hk.
  apply (kth_smallest_perm (ZSort.sort xs) xs).
  - apply Permutation_sym, ZSort.Permuted_sort.
  - apply sorted_rank; [|exact Hk].
    apply (ZSort.StronglySorted_sort xs leb_transitive).
Qed.

Lemma index_lt {A : Type} (xs : list A) (i : nat) :
  (i < List.length xs)%nat -> exists x, index xs i = Ok x /\ nth_error xs i = Some x.
Proof.
  intros Hi. unfold index.
  destruct (nth_error xs i) as [x|] eqn:E; [now exists x|].
  apply nth_error_None in E. lia.
Qed.

Lemma odd_mod2 (n : nat) : Nat.odd n = (n mod 2 =? 1)%nat.
Proof.
  pose proof (Nat.div_mod_eq n 2) as Hdiv.
  pose proof (Nat.mod_upper_bound n 2 ltac:(lia)) as Hmod.
  destruct (Nat.odd n) eqn:E.
  - apply Nat.odd_spec in E. destruct E as [m Hm].
    destruct (Nat.eqb_spec (n mod 2) 1); [reflexivity | lia].
  - rewrite <- Nat.negb_even in E. apply negb_false_iff in E.
    apply Nat.even_spec in E. destruct E as [m Hm].
    destruct (Nat.eqb_spec (n mod 2) 1); [lia | reflexivity].
Qed.

(** What a true division returns. *)
Lemma truediv_rounded (a b : Z) :
  b <> 0 -> rounded (inject_Z a / inject_Z b) (truediv a b).
Proof.
  intros Hb. unfold truediv. destruct (Z.eqb_spec b 0) as [H0|_]; [contradiction|].
  destruct (round_double (inject_Z a / inject_Z b)) as [q|] eqn:E.
  - right. exists q. split; [reflexivity|].
    split; [now apply round_double_tolerance|].
    intros k Hk Hx. exact (round_double_half _ q k Hk Hx E).
  - left. split; [reflexivity|]. apply Qnot_lt_le. intros Hlt.
    destruct (round_double_defined _ Hlt) as [q Hq]. congruence.
Qed.

Lemma rounded_eq (x x' : Q) (r : result number) :
  (x == x')%Q -> rounded x r -> rounded x' r.
Proof.
  intros Hx [[Hr Hbig] | (q & Hr & Htol & Hhalf)].
  - left. split; [exact Hr|]. now rewrite <- Hx.
  - right. exists q. split; [exact Hr|]. split; [now rewrite <- Hx|].
    intros k Hk Hxk. rewrite <- Hx. apply (Hhalf k Hk). now rewrite Hx.
Qed.

Lemma total_bounds (lo hi : Z) (xs : list Z) :
  Forall (fun x => lo <= x <= hi) xs ->
  Z.of_nat (List.length xs) * lo <= total xs <= Z.of_nat (List.length xs) * hi.
Proof.
  induction 1 as [|x xs Hx _ IH]; [simpl; lia|].
  cbn [total fold_right List.length]. fold (total xs). lia.
Qed.

(** The quotient of two ints as a rational, between two bounds. *)
Lemma quotient_between (lo hi t n : Z) :
  0 < n -> n * lo <= t <= n * hi ->
  (inject_Z lo <= inject_Z t / inject_Z n <= inject_Z hi)%Q.
Proof.
  intros Hn [H1 H2].
  assert (Hq : (0 < inject_Z n)%Q) by (rewrite <- (Zlt_Qlt 0); exact Hn).
  split.
  - apply Qle_shift_div_l; [exact Hq|].
    rewrite <- inject_Z_mult, <- Zle_Qle. lia.
  - apply Qle_shift_div_r; [exact Hq|].
    rewrite <- inject_Z_mult, <- Zle_Qle. lia.
Qed.

(** What [statistics.median] computes on non-empty data. *)
Lemma median_middle (data : list Z) :
  data <> [] ->
  let n := List.length data in
  if Nat.odd n then
    exists v, kth_smallest data (n / 2) v /\ median data = Ok (PyInt v)
  else
    exists a b,
      kth_smallest data (n / 2 - 1) a /\ kth_smallest data (n / 2) b /\
      median data = truediv (a + b) 2.
Proof.
  intros Hne. unfold median. cbv zeta.
  pose proof (Permutation_length (ZSort.Permuted_sort data)) as Hlen.
  rewrite <- Hlen. set (n := List.length data) in *.
  assert (Hn : (0 < n)%nat).
  { subst n. destruct data; [contradiction | simpl; lia]. }
  destruct (Nat.eqb_spec n 0) as [H0|_]; [lia|].
  rewrite odd_mod2.
  pose proof (Nat.div_mod_eq n 2) as Hdiv.
  pose proof (Nat.mod_upper_bound n 2 ltac:(lia)) as Hmod.
  destruct (Nat.eqb_spec (n mod 2) 1) as [Hodd|Heven].
  - destruct (index_lt (ZSort.sort data) (n / 2)) as (v & Hv & Hnth); [lia|].
    rewrite Hv. cbn [bind]. exists v. split; [now apply sort_rank | reflexivity].
  - destruct (index_lt (ZSort.sort data) (n / 2 - 1)) as (a & Ha & Hntha);
      [lia|].
    destruct (index_lt (ZSort.sort data) (n / 2)) as (b & Hb & Hnthb); [lia|].
    rewrite Ha, Hb. cbn [bind].
    exists a, b.
    split; [now apply sort_rank|]. split; [now apply sort_rank | reflexivity].
Qed.

(** [statistics.median] returns the statistical median of non-empty data. *)
Lemma median_is_median (data : list Z) :
  data <> [] -> is_median data (median data).
Proof.
  intros Hne. pose proof (median_middle data Hne) as H. cbv zeta in H.
  unfold is_median. destruct (Nat.odd (List.length data)).
  - exact H.
  - destruct H as (a & b & Ha & Hb & ->). exists a, b.
    split; [exact Ha|]. split; [exact Hb|].
    apply (rounded_eq (inject_Z (a + b) / inject_Z 2)).
    + now rewrite inject_Z_plus.
    + apply truediv_rounded. discriminate.
Qed.

(** A quotient between two ints of at most 53 bits is returned between
    them. *)
Lemma truediv_between (a b lo hi : Z) :
  0 < b -> Z.abs lo < 2 ^ 53 -> Z.abs hi < 2 ^ 53 ->
  b * lo <= a <= b * hi ->
  exists q,
    truediv a b = Ok (PyFloat q) /\ (inject_Z lo <= q <= inject_Z hi)%Q.
Proof.
  intros Hb Hlo Hhi Ha. unfold truediv.
  destruct (Z.eqb_spec b 0) as [H0|_]; [lia|].
  destruct (round_double_between _ lo hi Hlo Hhi (quotient_between lo hi a b Hb Ha))
    as (q & -> & Hq).
  now exists q.
Qed.

Lemma fold_left_add (xs : list Z) (a : Z) :
  fold_left Z.add xs a = a + total xs.
Proof.
  revert a. induction xs as [|x xs IH]; simpl; intros a; [lia|].
  rewrite IH. lia.
Qed.

Lemma sum_total (xs : list Z) : sum xs = total xs.
Proof. unfold sum. now rewrite fold_left_add. Qed.

Lemma not_nonempty {V : Type} (d : dict V) : d <> [] -> not_ d = false.
Proof. destruct d; [contradiction | reflexivity]. Qed.

Lemma values_nonempty {V : Type} (d : dict V) : d <> [] -> values d <> [].
Proof. destruct d; [contradiction | discriminate]. Qed.

Lemma len_nonzero {V : Type} (d : dict V) : d <> [] -> Z.of_nat (len d) <> 0.
Proof. destruct d; [contradiction | simpl; lia]. Qed.

(** The average is the true division of the sum by the count. *)
Lemma calculate_average_truediv (marks_dict : dict Z) :
  marks_dict <> [] ->
  calculate_average marks_dict
  = truediv (total (values marks_dict)) (Z.of_nat (len marks_dict)).
Proof.
  intros Hne. unfold calculate_average. rewrite (not_nonempty _ Hne).
  unfold values, len. now rewrite length_map, sum_total.
Qed.

(** Marks below [2 ^ 1023] in magnitude have a quotient below it. *)
Lemma quotient_in_range (t n : Z) :
  0 < n -> n * - (2 ^ 1023 - 1) <= t <= n * (2 ^ 1023 - 1) ->
  (Qabs (inject_Z t / inject_Z n) < 2 ^ 1023)%Q.
Proof.
  intros Hn Ht.
  pose proof (quotient_between _ _ t n Hn Ht) as [H1 H2].
  pose proof (pow2_inject 1023 ltac:(lia)) as Hp.
  rewrite inject_Z_opp in H1.
  assert (H3 : (inject_Z (2 ^ 1023 - 1) < 2 ^ 1023)%Q).
  { rewrite <- Hp, <- Zlt_Qlt. lia. }
  apply Qabs_Qlt_condition. split; lra.
Qed.

Lemma rounded_in_range (x : Q) (r : result number) :
  (Qabs x < 2 ^ 1023)%Q -> rounded x r -> exists q, r = Ok (PyFloat q).
Proof.
  intros Hx [[_ Hbig] | (q & Hr & _)]; [lra | now exists q].
Qed.

Lemma kth_smallest_In (xs : list Z) (k : nat) (v : Z) :
  kth_smallest xs k v -> In v xs.
Proof. now intros [H _]. Qed.

Lemma calculate_median_is_median (marks_dict : dict Z) :
  marks_dict <> [] ->
  is_median (values marks_dict) (calculate_median marks_dict).
Proof.
  intros Hne. unfold calculate_median. rewrite (not_nonempty _ Hne).
  now apply median_is_median, values_nonempty.
Qed.

Lemma calculate_average_rounded (marks_dict : dict Z) :
  marks_dict <> [] ->
  rounded (inject_Z (total (values marks_dict))
           / inject_Z (Z.of_nat (len marks_dict)))
    (calculate_average marks_dict).
Proof.
  intros Hne. rewrite (calculate_average_truediv _ Hne).
  apply truediv_rounded. now apply len_nonzero.
Qed.

(** Marks below [2 ^ 1023] in magnitude raise nothing. *)
Lemma statistics_in_range (marks_dict : dict Z) :
  marks_dict <> [] ->
  Forall (fun mark => Z.abs mark < 2 ^ 1023) (values marks_dict) ->
  (exists m, calculate_median marks_dict = Ok m) /\
  (exists q, calculate_average marks_dict = Ok (PyFloat q)).
Proof.
  intros Hne Hsmall.
  pose proof (calculate_median_is_median _ Hne) as Hmed.
  pose proof (calculate_average_rounded _ Hne) as Havg.
  assert (Hall : Forall (fun x => - (2 ^ 1023 - 1) <= x <= 2 ^ 1023 - 1)
                   (values marks_dict)).
  { eapply Forall_impl; [|exact Hsmall]. cbv beta. intros x Hx. lia. }
  split.
  - unfold is_median in Hmed.
    destruct (Nat.odd (List.length (values marks_dict))).
    + destruct Hmed as (v & _ & ->). now eexists.
    + destruct Hmed as (a & b & Ha & Hb & Hr).
      apply kth_smallest_In in Ha, Hb.
      rewrite Forall_forall in Hall.
      pose proof (Hall a Ha) as Ha'. pose proof (Hall b Hb) as Hb'.
      assert (Hx : (Qabs ((inject_Z a + inject_Z b) / 2) < 2 ^ 1023)%Q).
      { rewrite <- inject_Z_plus. apply (quotient_in_range (a + b) 2); lia. }
      destruct (rounded_in_range _ _ Hx Hr) as [q ->]. now eexists.
  - refine (rounded_in_range _ _ _ Havg).
    apply quotient_in_range.
    + pose proof (len_nonzero _ Hne). lia.
    + pose proof (total_bounds _ _ _ Hall) as Ht.
      unfold values in Ht at 1 4. rewrite length_map in Ht. exact Ht.
Qed.

(** C7, amended. On every non-empty mapping [calculate_median] returns the
    middle value of an odd number of marks and, of an even number, the mean
    of the two middle values rounded to a double, and [calculate_average]
    returns the sum of the marks divided by their number, rounded to a
    double: a value within half a unit in the last place of the exact one,
    and the exact one for a half of an integer of at most 53 bits. Either
    raises [OverflowError] instead only where the exact value reaches
    [2 ^ 1023] in magnitude, so never for marks below that. *)
Theorem median_and_average (marks_dict : dict Z) :
  marks_dict <> [] ->
  is_median (values marks_dict) (calculate_median marks_dict) /\
  rounded (inject_Z (total (values marks_dict))
           / inject_Z (Z.of_nat (len marks_dict)))
    (calculate_average marks_dict) /\
  (Forall (fun mark => Z.abs mark < 2 ^ 1023) (values marks_dict) ->
   (exists m, calculate_median marks_dict = Ok m) /\
   (exists q, calculate_average marks_dict = Ok (PyFloat q))).
Proof.
  intros Hne.
  split; [now apply calculate_median_is_median|].
  split; [now apply calculate_average_rounded|].
  now apply statistics_in_range.
Qed.

Lemma median_and_average_witness :
  sample <> [] /\
  calculate_median sample = Ok (PyFloat (179 # 2)) /\
  calculate_average sample = Ok (PyFloat 82) /\
  is_median (values sample) (calculate_median sample) /\
  rounded (inject_Z (total (values sample)) / inject_Z (Z.of_nat (len sample)))
    (calculate_average sample).
Proof.
  split; [discriminate|].
  split; [vm_compute; reflexivity|]. split; [vm_compute; reflexivity|].
  pose proof (median_and_average sample ltac:(discriminate)) as (H1 & H2 & _).
  now split.
Defined.

(** C7 as stated fails where the exact value is no double: the mean of 1, 1
    and 2 comes back rounded, and marks beyond the range of a double make
    both functions raise. *)
Lemma median_and_average_counterexample :
  (exists q,
      calculate_average [("a", 1); ("b", 1); ("c", 2)] = Ok (PyFloat q) /\
      ~ (q == 4 # 3)%Q) /\
  calculate_average [("a", 10 ^ 400)] = Raise OverflowError /\
  calculate_median [("a", 10 ^ 400); ("b", 10 ^ 400)] = Raise OverflowError.
Proof.
  split; [|split; vm_compute; reflexivity].
  exists (6004799503160661 # 4503599627370496)%Q.
  split; [vm_compute; reflexivity | discriminate].
Qed.

Example median_examples :
  calculate_median [("a", 3); ("b", 1); ("c", 2)] = Ok (PyInt 2) /\
  calculate_median [("a", 4); ("b", 1); ("c", 2); ("d", 3)]
  = Ok (PyFloat (5 # 2)) /\
  calculate_average [("a", 1); ("b", 2)] = Ok (PyFloat (3 # 2)).
Proof. repeat split; vm_compute; reflexivity. Qed.

(** ** Strings and numbers *)

Lemma lstrip_no_space (s : string) : no_space s = true -> lstrip s = s.
Proof.
  destruct s as [|c s]; simpl; [reflexivity|].
  intros H. apply andb_prop in H. destruct H as [Hc _].
  now destruct (isspace c).
Qed.

Lemma rstrip_no_space (s : string) : no_space s = true -> rstrip s = s.
Proof.
  induction s as [|c s IH]; simpl; [reflexivity|].
  intros H. apply andb_prop in H. destruct H as [Hc Hs].
  rewrite (IH Hs). destruct s; [|reflexivity].
  now destruct (isspace c).
Qed.

Lemma strip_no_space (s : string) : no_space s = true -> strip s = s.
Proof.
  intros H. unfold strip. now rewrite (lstrip_no_space s H), rstrip_no_space.
Qed.

Lemma no_space_uint (d : Decimal.uint) :
  no_space (NilEmpty.string_of_uint d) = true.
Proof. induction d; simpl; auto. Qed.

Lemma no_space_str (z : Z) : no_space (decimal z) = true.
Proof.
  unfold decimal. destruct z as [|p|p]; simpl; [reflexivity| |].
  - unfold NilZero.string_of_uint.
    destruct (Pos.to_uint p) eqn:E; try (rewrite <- E; apply no_space_uint).
    reflexivity.
  - unfold NilZero.string_of_uint.
    destruct (Pos.to_uint p) eqn:E; try (rewrite <- E; apply no_space_uint).
    reflexivity.
Qed.

(** [decimal] of an int has nothing to strip. *)
Lemma strip_str (z : Z) : strip (decimal z) = decimal z.
Proof. apply strip_no_space, no_space_str. Qed.

Lemma parse_digits_uint (d : Decimal.uint) (acc : Z) (prev : bool) :
  d <> Decimal.Nil \/ prev = true ->
  parse_digits (NilEmpty.string_of_uint d) acc prev = Some (eval_uint d acc).
Proof.
  revert acc prev.
  induction d as [|d IH|d IH|d IH|d IH|d IH|d IH|d IH|d IH|d IH|d IH];
    intros acc prev H;
    try (cbn [NilEmpty.string_of_uint parse_digits eval_uint];
         change (Ascii.eqb _ "_") with false; cbv iota;
         unfold digit_of; cbn -[Z.mul Z.add parse_digits eval_uint];
         apply IH; now right).
  destruct H as [H | ->]; [contradiction | reflexivity].
Qed.

Lemma eval_uint_acc (d : Decimal.uint) (p : positive) :
  eval_uint d (Z.pos p) = Z.pos (Pos.of_uint_acc d p).
Proof.
  revert p.
  induction d as [|d IH|d IH|d IH|d IH|d IH|d IH|d IH|d IH|d IH|d IH];
    intros p; cbn [eval_uint Pos.of_uint_acc]; [reflexivity|..];
    rewrite <- IH; f_equal; lia.
Qed.

Lemma eval_uint_zero (d : Decimal.uint) :
  eval_uint d 0 = Z.of_N (Pos.of_uint d).
Proof.
  induction d as [|d IH|d IH|d IH|d IH|d IH|d IH|d IH|d IH|d IH|d IH];
    cbn [eval_uint Pos.of_uint]; [reflexivity | exact IH |..];
    cbn [Z.mul Z.add Z.of_N]; apply eval_uint_acc.
Qed.

Lemma eval_to_uint (p : positive) : eval_uint (Pos.to_uint p) 0 = Z.pos p.
Proof.
  rewrite eval_uint_zero, DecimalPos.Unsigned.of_to. reflexivity.
Qed.

Lemma signed_digits_uint (d : Decimal.uint) :
  d <> Decimal.Nil ->
  signed_digits (NilEmpty.string_of_uint d) = Some (eval_uint d 0).
Proof.
  intros Hd.
  transitivity (parse_digits (NilEmpty.string_of_uint d) 0 false).
  - destruct d; try reflexivity.
  - apply parse_digits_uint. now left.
Qed.

Lemma nilzero_nonnil (d : Decimal.uint) :
  d <> Decimal.Nil -> NilZero.string_of_uint d = NilEmpty.string_of_uint d.
Proof. destruct d; [contradiction | reflexivity..]. Qed.

Lemma digit_of_range (c : ascii) (d : Z) : digit_of c = Some d -> 0 <= d <= 9.
Proof.
  unfold digit_of.
  destruct ((48 <=? N_of_ascii c)%N && (N_of_ascii c <=? 57)%N) eqn:E;
    [|discriminate].
  intros H. injection H as <-. apply andb_prop in E. destruct E as [E1 E2].
  apply N.leb_le in E1, E2. lia.
Qed.

Lemma digit_cases (d : Z) :
  0 <= d <= 9 ->
  d = 0 \/ d = 1 \/ d = 2 \/ d = 3 \/ d = 4 \/ d = 5 \/ d = 6 \/ d = 7 \/
  d = 8 \/ d = 9.
Proof. lia. Qed.

Lemma eval_cons_digit (d : Z) (u : Decimal.uint) (acc : Z) :
  0 <= d <= 9 -> eval_uint (cons_digit d u) acc = eval_uint u (10 * acc + d).
Proof.
  intros Hd.
  destruct (digit_cases d Hd) as [->|[->|[->|[->|[->|[->|[->|[->|[->| ->]]]]]]]]];
    reflexivity.
Qed.

Lemma nb_digits_cons_digit (d : Z) (u : Decimal.uint) :
  Decimal.nb_digits (cons_digit d u) = S (Decimal.nb_digits u).
Proof.
  destruct d as [|p|p]; try reflexivity.
  do 4 (destruct p as [p|p|]; try reflexivity).
Qed.

Lemma cons_digit_nonnil (d : Z) (u : Decimal.uint) : cons_digit d u <> Decimal.Nil.
Proof.
  intros H. apply (f_equal Decimal.nb_digits) in H.
  rewrite nb_digits_cons_digit in H. discriminate H.
Qed.

(** The number read is the value of the digits. *)
Lemma parse_digits_eval (s : string) (acc : Z) (prev : bool) (v : Z) :
  parse_digits s acc prev = Some v -> v = eval_uint (uint_of_string s) acc.
Proof.
  revert acc prev. induction s as [|c s IH]; intros acc prev; cbn [parse_digits].
  - destruct prev; [|discriminate]. intros H. now injection H as <-.
  - destruct (Ascii.eqb_spec c "_") as [->|_].
    + destruct prev; [|discriminate]. apply IH.
    + cbn [uint_of_string]. destruct (digit_of c) as [d|] eqn:E; [|discriminate].
      intros H. rewrite (eval_cons_digit _ _ _ (digit_of_range c d E)).
      now apply IH in H.
Qed.

Lemma parse_digits_nonnil (s : string) (acc : Z) (v : Z) :
  parse_digits s acc false = Some v -> uint_of_string s <> Decimal.Nil.
Proof.
  destruct s as [|c s]; cbn [parse_digits]; [discriminate|].
  destruct (Ascii.eqb_spec c "_") as [->|_]; [discriminate|].
  cbn [uint_of_string]. destruct (digit_of c) as [d|]; [|discriminate].
  intros _. apply cons_digit_nonnil.
Qed.

Lemma count_digits_nb (s : string) :
  count_digits s = Decimal.nb_digits (uint_of_string s).
Proof.
  induction s as [|c s IH]; cbn [count_digits uint_of_string]; [reflexivity|].
  destruct (digit_of c) as [d|]; [|exact IH].
  now rewrite nb_digits_cons_digit, IH.
Qed.

Lemma signed_digits_cases (c : ascii) (r : string) :
  signed_digits (String c r)
  = if Ascii.eqb c "+" then parse_digits r 0 false
    else if Ascii.eqb c "-" then option_map Z.opp (parse_digits r 0 false)
    else parse_digits (String c r) 0 false.
Proof. destruct c as [[] [] [] [] [] [] [] []]; reflexivity. Qed.

Lemma eval_uint_nonneg (d : Decimal.uint) : 0 <= eval_uint d 0.
Proof. rewrite eval_uint_zero. lia. Qed.

(** A literal has the digits of the magnitude it denotes. *)
Lemma signed_digits_eval (t : string) (z : Z) :
  signed_digits t = Some z ->
  uint_of_string t <> Decimal.Nil /\
  Z.abs z = eval_uint (uint_of_string t) 0.
Proof.
  destruct t as [|c r]; [discriminate|]. rewrite signed_digits_cases.
  destruct (Ascii.eqb_spec c "+") as [->|_];
    [|destruct (Ascii.eqb_spec c "-") as [->|_]].
  - intros H. split; [exact (parse_digits_nonnil _ _ _ H)|].
    apply parse_digits_eval in H. change (uint_of_string (String "+" r))
      with (uint_of_string r). rewrite <- H, H.
    apply Z.abs_eq, eval_uint_nonneg.
  - destruct (parse_digits r 0 false) as [v|] eqn:E; [|discriminate].
    intros H. injection H as <-.
    split; [exact (parse_digits_nonnil _ _ _ E)|].
    apply parse_digits_eval in E.
    change (uint_of_string (String "-" r)) with (uint_of_string r).
    rewrite Z.abs_opp, E. apply Z.abs_eq, eval_uint_nonneg.
  - intros H. split; [exact (parse_digits_nonnil _ _ _ H)|].
    apply parse_digits_eval in H. rewrite H.
    apply Z.abs_eq, eval_uint_nonneg.
Qed.

Lemma uint_of_string_uint (d : Decimal.uint) :
  uint_of_string (NilEmpty.string_of_uint d) = d.
Proof. induction d; cbn; now f_equal. Qed.

(** The digits of [decimal]: those of the magnitude, without leading zero. *)
Lemma count_digits_decimal (z : Z) :
  count_digits (decimal z)
  = match z with
    | 0 => 1%nat
    | Z.pos p | Z.neg p => Decimal.nb_digits (Pos.to_uint p)
    end.
Proof.
  unfold decimal. destruct z as [|p|p]; [reflexivity| |];
    cbn [Z.to_int NilZero.string_of_int];
    pose proof (DecimalPos.Unsigned.to_uint_nonnil p) as Hp;
    rewrite (nilzero_nonnil _ Hp).
  - now rewrite count_digits_nb, uint_of_string_uint.
  - change (count_digits (String "-" ?s)) with (count_digits s).
    now rewrite count_digits_nb, uint_of_string_uint.
Qed.

(** No digit sequence of a positive number is shorter than its decimal
    form. *)
Lemma nb_digits_shortest (u : Decimal.uint) (p : positive) :
  eval_uint u 0 = Z.pos p ->
  (Decimal.nb_digits (Pos.to_uint p) <= Decimal.nb_digits u)%nat.
Proof.
  intros H. rewrite eval_uint_zero in H.
  assert (Hu : Pos.of_uint u = N.pos p) by lia.
  assert (Hne : u <> Decimal.Nil) by (intros ->; discriminate Hu).
  pose proof (DecimalPos.Unsigned.to_of u) as Hto. rewrite Hu in Hto.
  cbn [N.to_uint] in Hto. rewrite Hto.
  now apply DecimalFacts.nb_digits_unorm.
Qed.

Lemma str_prints (z : Z) :
  str z = if prints z then Ok (decimal z) else Raise ValueError.
Proof.
  unfold str, prints. now destruct (max_str_digits <? count_digits (decimal z))%nat.
Qed.

Lemma printable_prints (z : Z) : printable z <-> prints z = true.
Proof.
  unfold printable. rewrite str_prints.
  destruct (prints z); split; intros H; auto; discriminate.
Qed.

(** Reading back what [decimal] prints gives the int printed, within the
    limit on the digits. *)
Lemma int_decimal (z : Z) :
  int (decimal z) = if prints z then Ok z else Raise ValueError.
Proof.
  unfold int, prints. rewrite strip_str.
  assert (H : signed_digits (decimal z) = Some z).
  { unfold decimal. destruct z as [|p|p]; [reflexivity| |].
    - cbn [Z.to_int NilZero.string_of_int].
      pose proof (DecimalPos.Unsigned.to_uint_nonnil p) as Hp.
      rewrite (nilzero_nonnil _ Hp), (signed_digits_uint _ Hp), eval_to_uint.
      reflexivity.
    - cbn [Z.to_int NilZero.string_of_int].
      pose proof (DecimalPos.Unsigned.to_uint_nonnil p) as Hp.
      rewrite (nilzero_nonnil _ Hp). cbn [signed_digits].
      rewrite parse_digits_uint by now left.
      rewrite eval_to_uint. reflexivity. }
  rewrite H. now destruct (max_str_digits <? count_digits (decimal z))%nat.
Qed.

(** Reading back what [str] prints gives the int printed. *)
Lemma int_str (z : Z) (s : string) : str z = Ok s -> int s = Ok z.
Proof.
  rewrite str_prints. destruct (prints z) eqn:E; [|discriminate].
  intros H. injection H as <-. now rewrite int_decimal, E.
Qed.

(** What [int] reads, [str] prints. *)
Lemma int_printable (s : string) (z : Z) : int s = Ok z -> printable z.
Proof.
  unfold int. destruct (signed_digits (strip s)) as [z'|] eqn:E; [|discriminate].
  destruct (max_str_digits <? count_digits (strip s))%nat eqn:El; [discriminate|].
  intros H. injection H as ->. apply Nat.ltb_ge in El.
  apply printable_prints. unfold prints. apply negb_true_iff, Nat.ltb_ge.
  rewrite count_digits_decimal.
  destruct (signed_digits_eval _ _ E) as [_ Habs].
  rewrite count_digits_nb in El.
  destruct z as [|p|p].
  - unfold max_str_digits. lia.
  - etransitivity; [apply (nb_digits_shortest (uint_of_string (strip s)))|exact El].
    now rewrite <- Habs.
  - etransitivity; [apply (nb_digits_shortest (uint_of_string (strip s)))|exact El].
    now rewrite <- Habs.
Qed.

(** A mark in 0..100 has at most three digits. *)
Lemma decimal_short (mark : Z) :
  0 <= mark <= 100 -> (String.length (decimal mark) <= 3)%nat.
Proof.
  intros H.
  assert (Hall : forallb (fun n => (String.length (decimal (Z.of_nat n)) <=? 3)%nat)
                   (seq 0 101) = true) by (vm_compute; reflexivity).
  rewrite forallb_forall in Hall.
  specialize (Hall (Z.to_nat mark)). rewrite Z2Nat.id in Hall by lia.
  apply Nat.leb_le, Hall, in_seq. lia.
Qed.

Lemma count_digits_length (s : string) : (count_digits s <= String.length s)%nat.
Proof.
  induction s as [|c s IH]; cbn [count_digits String.length]; [lia|].
  destruct (digit_of c); lia.
Qed.

Lemma range_printable (mark : Z) : 0 <= mark <= 100 -> printable mark.
Proof.
  intros H. apply printable_prints. unfold prints.
  apply negb_true_iff, Nat.ltb_ge.
  pose proof (decimal_short mark H). pose proof (count_digits_length (decimal mark)).
  unfold max_str_digits. lia.
Qed.

Lemma length_string_of_uint (d : Decimal.uint) :
  String.length (NilEmpty.string_of_uint d) = Decimal.nb_digits d.
Proof. induction d; cbn; now f_equal. Qed.

(** The text of an int: its digits and at most a sign. *)
Lemma length_decimal (z : Z) :
  (String.length (decimal z) <= S (count_digits (decimal z)))%nat.
Proof.
  rewrite count_digits_decimal. unfold decimal.
  destruct z as [|p|p]; [simpl; lia| |];
    cbn [Z.to_int NilZero.string_of_int];
    pose proof (DecimalPos.Unsigned.to_uint_nonnil p) as Hp;
    rewrite (nilzero_nonnil _ Hp).
  - rewrite length_string_of_uint. lia.
  - cbn [String.length]. rewrite length_string_of_uint. lia.
Qed.

(** ** CSV import *)

Lemma int_cases (s : string) : (exists z, int s = Ok z) \/ int s = Raise ValueError.
Proof.
  unfold int. destruct (signed_digits (strip s)) as [z|]; [|now right].
  destruct (max_str_digits <? count_digits (strip s))%nat;
    [now right | left; now exists z].
Qed.

Lemma load_row_empty (st : dict Z * list message) : load_row st [] = Ok st.
Proof. now destruct st. Qed.

Lemma load_row_valid (d : dict Z) (out : list message) (r : row) name mark :
  valid_row r name mark ->
  load_row (d, out) r = Ok (setitem d name mark, out).
Proof.
  intros (c0 & c1 & more & -> & <- & Hint).
  unfold load_row, store_row, index. simpl. now rewrite Hint.
Qed.

Lemma load_row_malformed (d : dict Z) (out : list message) (r : row) :
  r <> [] ->
  short_row r \/ non_integer_mark r ->
  load_row (d, out) r = Ok (d, (out ++ [SkippingInvalidRow r])%list).
Proof.
  intros Hne [Hshort|(c1 & Hc1 & Hint)].
  - destruct r as [|c0 [|c1 more]]; [contradiction|reflexivity|].
    unfold short_row in Hshort. simpl in Hshort. lia.
  - destruct r as [|c0 [|c1' more]]; [contradiction|discriminate|].
    simpl in Hc1. injection Hc1 as ->.
    unfold load_row, store_row, index. simpl. now rewrite Hint.
Qed.

(** An iteration never lets an exception escape. *)
Lemma load_row_total (st : dict Z * list message) (r : row) :
  exists st', load_row st r = Ok st'.
Proof.
  destruct st as [d out]. destruct r as [|c0 [|c1 more]].
  - now eexists.
  - now eexists.
  - unfold load_row, store_row, index. simpl.
    destruct (int_cases (strip c1)) as [[z ->]| ->]; now eexists.
Qed.

Lemma load_rows_app (rows1 rows2 : list row) (st : dict Z * list message) :
  load_rows (rows1 ++ rows2) st = load_rows rows2 (load_rows rows1 st).
Proof.
  revert st. induction rows1 as [|r rows1 IH]; intros st; simpl.
  - reflexivity.
  - destruct (load_row_total st r) as [st' ->]. apply IH.
Qed.

(** The dict loaded does not depend on the messages printed so far. *)
Lemma load_rows_fst (rows : list row) (d : dict Z) (out1 out2 : list message) :
  fst (load_rows rows (d, out1)) = fst (load_rows rows (d, out2)).
Proof.
  revert d out1 out2. induction rows as [|r rows IH]; intros d out1 out2.
  - reflexivity.
  - simpl. destruct r as [|c0 [|c1 more]].
    + apply IH.
    + apply IH.
    + unfold store_row, index. simpl.
      destruct (int_cases (strip c1)) as [[z ->]| ->]; simpl; apply IH.
Qed.

Lemma malformed_skipped (r : row) :
  short_row r \/ non_integer_mark r -> skipped r.
Proof.
  intros Hr header before after. unfold load_from_csv.
  rewrite !load_rows_app.
  destruct (load_rows before ([], [Loading header])) as [d out].
  cbn [load_rows]. destruct r as [|c0 more].
  - reflexivity.
  - rewrite (load_row_malformed d out (c0 :: more)); [|discriminate|exact Hr].
    apply load_rows_fst.
Qed.

(** Messages already printed stay. *)
Lemma load_rows_out (rows : list row) (d : dict Z) (out : list message) :
  exists more, snd (load_rows rows (d, out)) = (out ++ more)%list.
Proof.
  revert d out. induction rows as [|r rows IH]; intros d out.
  - exists []. simpl. now rewrite app_nil_r.
  - cbn [load_rows]. destruct (load_row_total (d, out) r) as [[d' out'] Hr].
    rewrite Hr. destruct (IH d' out') as [more Hmore]. rewrite Hmore.
    destruct r as [|c0 [|c1 rest]].
    + injection Hr as <- <-. now exists more.
    + injection Hr as <- <-. rewrite <- app_assoc. now eexists.
    + unfold load_row, store_row, index in Hr. simpl in Hr.
      destruct (int_cases (strip c1)) as [[z Hz]| Hz]; rewrite Hz in Hr;
        injection Hr as <- <-.
      * now exists more.
      * rewrite <- app_assoc. now eexists.
Qed.

Lemma malformed_reported (r : row) header before after :
  r <> [] ->
  short_row r \/ non_integer_mark r ->
  In (SkippingInvalidRow r)
    (snd (load_from_csv (Some (header :: before ++ r :: after)))).
Proof.
  intros Hne Hr. unfold load_from_csv. rewrite load_rows_app.
  destruct (load_rows before ([], [Loading header])) as [d out].
  cbn [load_rows]. rewrite (load_row_malformed d out r Hne Hr).
  destruct (load_rows_out after d (out ++ [SkippingInvalidRow r])) as [more ->].
  apply in_or_app. left. apply in_or_app. right. now left.
Qed.

Lemma two_valid_rows header (r1 r2 : row) name1 mark1 name2 mark2 :
  valid_row r1 name1 mark1 ->
  valid_row r2 name2 mark2 ->
  fst (load_from_csv (Some [header; r1; r2]))
  = setitem [(name1, mark1)] name2 mark2.
Proof.
  intros H1 H2. unfold load_from_csv. cbn [load_rows].
  rewrite (load_row_valid _ _ _ _ _ H1). cbn [setitem].
  rewrite (load_row_valid _ _ _ _ _ H2). reflexivity.
Qed.

(** C8, amended. A row with fewer than two columns (such as "Alice" alone)
    or whose second column is not an integer is skipped, with a warning
    when it is not empty, and the import goes on with the rows after it; a
    file whose rows after the header are two valid rows with different
    names gives exactly two records. *)
Theorem import_skips_malformed_rows :
  (forall r, short_row r \/ non_integer_mark r -> skipped r) /\
  (forall r header before after,
      r <> [] ->
      short_row r \/ non_integer_mark r ->
      In (SkippingInvalidRow r)
        (snd (load_from_csv (Some (header :: before ++ r :: after))))) /\
  skipped ["Alice"] /\
  (forall header r1 r2 name1 mark1 name2 mark2,
      valid_row r1 name1 mark1 ->
      valid_row r2 name2 mark2 ->
      name1 <> name2 ->
      fst (load_from_csv (Some [header; r1; r2]))
      = [(name1, mark1); (name2, mark2)] /\
      len (fst (load_from_csv (Some [header; r1; r2]))) = 2%nat).
Proof.
  split; [exact malformed_skipped|].
  split; [intros; now apply malformed_reported|].
  split; [apply malformed_skipped; left; unfold short_row; simpl; lia|].
  intros header r1 r2 name1 mark1 name2 mark2 H1 H2 Hne.
  rewrite (two_valid_rows header r1 r2 _ _ _ _ H1 H2). cbn [setitem].
  destruct (String.eqb_spec name1 name2); [contradiction|]. now split.
Qed.

Lemma import_skips_malformed_rows_witness :
  (short_row ["Alice"] \/ non_integer_mark ["Alice"]) /\
  skipped ["Alice"] /\
  (short_row ["Eve"; "4.5"] \/ non_integer_mark ["Eve"; "4.5"]) /\
  skipped ["Eve"; "4.5"] /\
  fst (load_from_csv (Some [["Name"; "Marks"]; ["Bob"; "71"]; ["Eve"; " 45 "]]))
  = [("Bob", 71); ("Eve", 45)].
Proof.
  assert (H1 : short_row ["Alice"] \/ non_integer_mark ["Alice"])
    by (left; unfold short_row; simpl; lia).
  assert (H2 : short_row ["Eve"; "4.5"] \/ non_integer_mark ["Eve"; "4.5"])
    by (right; exists "4.5"; split; reflexivity).
  split; [exact H1|].
  split; [exact (proj1 import_skips_malformed_rows _ H1)|].
  split; [exact H2|].
  split; [exact (proj1 import_skips_malformed_rows _ H2)|].
  apply (proj2 (proj2 (proj2 import_skips_malformed_rows))
           ["Name"; "Marks"] ["Bob"; "71"] ["Eve"; " 45 "] "Bob" 71 "Eve" 45).
  - exists "Bob", "71", []. repeat split.
  - exists "Eve", " 45 ", []. repeat split.
  - discriminate.
Defined.

(** C8 as stated fails twice: a row with a third column has the wrong
    column count and is imported all the same, and two valid rows with the
    same name give one record. *)
Lemma import_extra_column_counterexample :
  (wrong_column_count ["Al"; "3"; "extra"] /\
   ~ skipped ["Al"; "3"; "extra"] /\
   fst (load_from_csv (Some [["Name"; "Marks"]; ["Al"; "3"; "extra"]]))
   = [("Al", 3)]) /\
  (valid_row ["Bob"; "1"] "Bob" 1 /\
   valid_row ["Bob"; "2"] "Bob" 2 /\
   fst (load_from_csv (Some [["Name"; "Marks"]; ["Bob"; "1"]; ["Bob"; "2"]]))
   = [("Bob", 2)]).
Proof.
  split; [split; [|split]|split; [|split]].
  - unfold wrong_column_count. simpl. lia.
  - intros H. specialize (H ["Name"; "Marks"] [] []). discriminate H.
  - reflexivity.
  - exists "Bob", "1", []. repeat split.
  - exists "Bob", "2", []. repeat split.
  - reflexivity.
Qed.

(** ** CSV export and the round trip *)

Lemma universal_newlines_no_cr (s : string) :
  no_cr s = true -> universal_newlines s = s.
Proof.
  induction s as [|c s IH]; simpl; [reflexivity|].
  intros H. apply andb_prop in H. destruct H as [Hc Hs].
  destruct (Ascii.eqb c CR); [discriminate|]. now rewrite IH.
Qed.

Lemma no_space_no_cr (s : string) : no_space s = true -> no_cr s = true.
Proof.
  induction s as [|c s IH]; simpl; [reflexivity|].
  intros H. apply andb_prop in H. destruct H as [Hc Hs].
  rewrite (IH Hs), andb_true_r.
  destruct (Ascii.eqb_spec c CR) as [->|_]; [discriminate Hc | reflexivity].
Qed.

Lemma no_cr_str (z : Z) : no_cr (decimal z) = true.
Proof. apply no_space_no_cr, no_space_str. Qed.

Lemma no_cr_letter (mark : Z) : no_cr (letter mark) = true.
Proof.
  pose proof (letter_five mark) as H. simpl in H.
  destruct H as [<-|[<-|[<-|[<-|[<-|[]]]]]]; reflexivity.
Qed.

Lemma fits_letter (mark : Z) : fits (letter mark) = true.
Proof.
  pose proof (letter_five mark) as H. simpl in H.
  destruct H as [<-|[<-|[<-|[<-|[<-|[]]]]]]; reflexivity.
Qed.

(** The text of a printed int is far below the field limit. *)
Lemma fits_decimal (z : Z) : prints z = true -> fits (decimal z) = true.
Proof.
  unfold prints, fits, field_size_limit. intros H.
  apply negb_true_iff, Nat.ltb_ge in H.
  pose proof (length_decimal z). unfold max_str_digits in H.
  apply Z.leb_le. lia.
Qed.

Lemma mark_of_In (d : dict Z) (name : string) :
  In name (keys d) -> lookup d name = Some (mark_of d name).
Proof.
  intros Hin. apply lookup_In_keys in Hin. destruct Hin as [m Hm].
  unfold mark_of. now rewrite Hm.
Qed.

Lemma take_while_all {A : Type} (p : A -> bool) (xs : list A) :
  (forall x, In x xs -> p x = true) -> take_while p xs = xs.
Proof.
  induction xs as [|x xs IH]; intros H; cbn [take_while]; [reflexivity|].
  rewrite (H x) by now left. f_equal. apply IH. intros y Hy. apply H. now right.
Qed.

Lemma forallb_all {A : Type} (p : A -> bool) (xs : list A) :
  (forall x, In x xs -> p x = true) -> forallb p xs = true.
Proof. intros H. now apply forallb_forall. Qed.

Lemma take_while_In {A : Type} (p : A -> bool) (xs : list A) (x : A) :
  In x (take_while p xs) -> In x xs /\ p x = true.
Proof.
  induction xs as [|y xs IH]; cbn [take_while]; [contradiction|].
  destruct (p y) eqn:E; [|contradiction].
  intros [<-|H]; [split; [now left | exact E]|].
  destruct (IH H) as [H1 H2]. split; [now right | exact H2].
Qed.

Lemma take_while_prefix {A : Type} (p : A -> bool) (xs : list A) :
  exists rest, xs = (take_while p xs ++ rest)%list.
Proof.
  induction xs as [|x xs [rest IH]]; cbn [take_while]; [now exists []|].
  destruct (p x); [|now eexists].
  exists rest. cbn [app]. now f_equal.
Qed.

Lemma take_while_ext {A : Type} (p q : A -> bool) (xs : list A) :
  (forall x, In x xs -> p x = q x) -> take_while p xs = take_while q xs.
Proof.
  induction xs as [|x xs IH]; intros H; cbn [take_while]; [reflexivity|].
  rewrite (H x) by now left. destruct (q x); [|reflexivity].
  f_equal. apply IH. intros y Hy. apply H. now right.
Qed.

Lemma forallb_same {A : Type} (p q : A -> bool) (xs : list A) :
  (forall x, p x = q x) -> forallb p xs = forallb q xs.
Proof.
  intros H. induction xs as [|x xs IH]; cbn [forallb]; [reflexivity|].
  now rewrite H, IH.
Qed.

(** The export of the grades of a dict writes one row per name, up to the
    first mark that [str] refuses. *)
Lemma write_rows_graded (names : list string) (d : dict Z) (file : list row) :
  wf d ->
  (forall name, In name names -> In name (keys d)) ->
  write_rows names d (assign_grades d) file
  = ((file ++ map (export_row d)
                (take_while (fun name => prints (mark_of d name)) names))%list,
     if forallb (fun name => prints (mark_of d name)) names then None
     else Some ValueError).
Proof.
  intros Hwf. revert file. induction names as [|name names IH]; intros file Hin.
  - simpl. now rewrite app_nil_r.
  - cbn [write_rows take_while forallb]. unfold getitem.
    rewrite (lookup_assign_grades d name Hwf).
    rewrite (mark_of_In d name) by (apply Hin; now left).
    cbn [bind option_map]. rewrite str_prints.
    destruct (prints (mark_of d name)); cbn [bind andb map].
    + rewrite IH by (intros n Hn; apply Hin; now right).
      rewrite <- app_assoc. reflexivity.
    + now rewrite app_nil_r.
Qed.

Lemma sorted_keys_In (d : dict Z) (name : string) :
  In name (StrSort.sort (keys d)) -> In name (keys d).
Proof.
  intros Hin. eapply Permutation_in; [|exact Hin].
  apply Permutation_sym, StrSort.Permuted_sort.
Qed.

Lemma save_results_prefix (d : dict Z) :
  wf d ->
  save_results_to_csv d (assign_grades d)
  = (["Name"; "Marks"; "Grade"]
       :: map (export_row d)
            (take_while (fun name => prints (mark_of d name))
               (StrSort.sort (keys d))),
     if forallb (fun name => prints (mark_of d name)) (StrSort.sort (keys d))
     then None else Some ValueError).
Proof.
  intros Hwf. unfold save_results_to_csv.
  rewrite write_rows_graded; [reflexivity | exact Hwf |].
  intros name. apply sorted_keys_In.
Qed.

Lemma printable_mark_of (d : dict Z) (name : string) :
  Forall printable (values d) -> In name (keys d) ->
  prints (mark_of d name) = true.
Proof.
  intros Hp Hin. apply printable_prints.
  apply mark_of_In, lookup_Some_In in Hin.
  rewrite Forall_forall in Hp. apply Hp.
  unfold values. now apply (in_map snd) in Hin.
Qed.

(** When every mark can be printed, every name gets its row. *)
Lemma save_results_rows (d : dict Z) :
  wf d ->
  Forall printable (values d) ->
  save_results_to_csv d (assign_grades d)
  = (["Name"; "Marks"; "Grade"] :: map (export_row d) (StrSort.sort (keys d)),
     None).
Proof.
  intros Hwf Hp. rewrite (save_results_prefix d Hwf).
  assert (Hall : forall name, In name (StrSort.sort (keys d)) ->
                   prints (mark_of d name) = true).
  { intros name Hin. apply printable_mark_of; [exact Hp|].
    now apply sorted_keys_In. }
  now rewrite (take_while_all _ _ Hall), (forallb_all _ _ Hall).
Qed.

Lemma read_back_cons (r : row) (rows : list row) :
  read_back (r :: rows)
  = if forallb fits (map universal_newlines r) then
      (map universal_newlines r :: fst (read_back rows), snd (read_back rows))
    else ([], Some CsvError).
Proof. cbn [read_back]. now destruct (read_back rows). Qed.

(** Rows exported for names without carriage return read back unchanged, up
    to the first name above the field limit. *)
Lemma read_back_exported (d : dict Z) (names : list string) :
  Forall plain names ->
  (forall name, In name names -> prints (mark_of d name) = true) ->
  read_back (map (export_row d) names)
  = (map (export_row d) (take_while fits names),
     if forallb fits names then None else Some CsvError).
Proof.
  induction 1 as [|name names [_ Hcr] _ IH]; intros Hp; [reflexivity|].
  cbn [map]. rewrite read_back_cons.
  rewrite IH by (intros n Hn; apply Hp; now right).
  unfold export_row at 1 2. cbn [map].
  rewrite (universal_newlines_no_cr name Hcr),
    (universal_newlines_no_cr _ (no_cr_str _)),
    (universal_newlines_no_cr _ (no_cr_letter _)).
  cbn [forallb take_while fst snd].
  rewrite (fits_decimal _ (Hp name (or_introl eq_refl))), fits_letter.
  cbn [andb]. rewrite andb_true_r.
  destruct (fits name); reflexivity.
Qed.

Lemma read_back_header (rows : list row) :
  read_back (["Name"; "Marks"; "Grade"] :: rows)
  = (["Name"; "Marks"; "Grade"] :: fst (read_back rows), snd (read_back rows)).
Proof. now rewrite read_back_cons. Qed.

(** The exception that ends the reading does not change the dict. *)
Lemma load_from_reader_fst (rows : list row) (e : option exn) :
  fst (load_from_reader (Some (rows, e))) = fst (load_from_csv (Some rows)).
Proof.
  destruct rows as [|header rows]; destruct e as [e|]; try reflexivity.
  cbn [load_from_reader load_from_csv].
  now destruct (load_rows rows ([], [Loading header])).
Qed.

Lemma export_row_valid (d : dict Z) (name : string) :
  stripped name -> prints (mark_of d name) = true ->
  valid_row (export_row d name) name (mark_of d name).
Proof.
  intros Hs Hp.
  exists name, (decimal (mark_of d name)), [letter (mark_of d name)].
  split; [reflexivity|]. split; [exact Hs|].
  now rewrite strip_str, int_decimal, Hp.
Qed.

(** Importing exported rows stores the marks of their names, in order. *)
Lemma load_exported_rows (d : dict Z) (names : list string)
    (acc : dict Z) (out : list message) :
  Forall plain names ->
  (forall name, In name names -> prints (mark_of d name) = true) ->
  load_rows (map (export_row d) names) (acc, out)
  = (fold_left (fun a name => setitem a name (mark_of d name)) names acc, out).
Proof.
  intros Hs. revert acc.
  induction Hs as [|name names [Hname _] _ IH]; intros acc Hp.
  - reflexivity.
  - cbn [map load_rows fold_left].
    rewrite (load_row_valid acc out _ _ _
               (export_row_valid d name Hname (Hp name (or_introl eq_refl)))).
    apply IH. intros n Hn. apply Hp. now right.
Qed.

Lemma items_of_keys (d : dict Z) :
  wf d -> map (fun name => (name, mark_of d name)) (keys d) = d.
Proof.
  intros Hwf. unfold keys. rewrite map_map.
  rewrite <- (map_id d) at 2. apply map_ext_in.
  intros [k m] Hin. simpl. unfold mark_of.
  now rewrite (In_lookup d k m Hwf Hin).
Qed.

Lemma NoDup_prefix {A : Type} (xs ys : list A) :
  NoDup (xs ++ ys)%list -> NoDup xs.
Proof.
  induction xs as [|x xs IH]; cbn [app]; intros H; [constructor|].
  inversion H as [|? ? Hx Hrest]; subst. constructor.
  - intros Hin. apply Hx. apply in_or_app. now left.
  - now apply IH.
Qed.

(** What comes back: the entries of the dict in the order of the names, up
    to the first that the export or the reader stops at. *)
Lemma reimport_prefix (d : dict Z) :
  wf d ->
  Forall plain (keys d) ->
  reimport d
  = map (fun name => (name, mark_of d name))
      (take_while fits
         (take_while (fun name => prints (mark_of d name))
            (StrSort.sort (keys d)))).
Proof.
  intros Hwf Hs. unfold reimport.
  set (printed := take_while (fun name => prints (mark_of d name))
                    (StrSort.sort (keys d))).
  assert (Hin : forall name, In name printed ->
                  In name (keys d) /\ prints (mark_of d name) = true).
  { intros name H. apply take_while_In in H. destruct H as [H1 H2].
    split; [now apply sorted_keys_In | exact H2]. }
  assert (Hplain : Forall plain printed).
  { rewrite Forall_forall in *. intros name H. apply Hs. now apply Hin. }
  rewrite (save_results_prefix d Hwf). cbn [fst]. fold printed.
  rewrite read_back_header, load_from_reader_fst.
  rewrite (read_back_exported d printed Hplain)
    by (intros name H; now apply Hin).
  cbn [fst load_from_csv].
  set (read := take_while fits printed).
  assert (Hread : forall name, In name read -> In name printed).
  { intros name H. now apply take_while_In in H. }
  rewrite (load_exported_rows d read).
  - cbn [fst].
    apply (fold_setitem_fresh (fun name => (name, mark_of d name)) read []).
    simpl. rewrite map_id.
    destruct (take_while_prefix fits printed) as [rest1 H1].
    destruct (take_while_prefix (fun name => prints (mark_of d name))
                (StrSort.sort (keys d))) as [rest2 H2].
    fold printed in H2. fold read in H1.
    apply (NoDup_prefix read rest1). rewrite <- H1.
    apply (NoDup_prefix printed rest2). rewrite <- H2.
    eapply Permutation_NoDup; [apply StrSort.Permuted_sort | exact Hwf].
  - rewrite Forall_forall in *. intros name H. apply Hplain. now apply Hread.
  - intros name H. now apply Hin, Hread.
Qed.

(** When every mark can be printed and every name is within the field
    limit, all entries come back, sorted by name. *)
Lemma reimport_sorted (d : dict Z) :
  wf d ->
  Forall plain (keys d) ->
  Forall printable (values d) ->
  Forall (fun name => fits name = true) (keys d) ->
  reimport d
  = map (fun name => (name, mark_of d name)) (StrSort.sort (keys d)).
Proof.
  intros Hwf Hs Hp Hf. rewrite (reimport_prefix d Hwf Hs).
  rewrite (take_while_all (fun name => prints (mark_of d name))).
  - rewrite take_while_all; [reflexivity|].
    rewrite Forall_forall in Hf. intros name H. now apply Hf, sorted_keys_In.
  - intros name H. apply printable_mark_of; [exact Hp|].
    now apply sorted_keys_In.
Qed.

Lemma reimport_permutation (d : dict Z) :
  wf d -> Forall plain (keys d) ->
  Forall printable (values d) ->
  Forall (fun name => fits name = true) (keys d) ->
  Permutation (reimport d) d.
Proof.
  intros Hwf Hs Hp Hf. rewrite (reimport_sorted d Hwf Hs Hp Hf).
  rewrite <- (items_of_keys d Hwf) at 2.
  apply Permutation_map, Permutation_sym, StrSort.Permuted_sort.
Qed.

(** The marks of a Record Store can be printed. *)
Lemma record_store_printable (d : dict Z) :
  record_store d -> Forall printable (values d).
Proof.
  intros [_ Hr]. unfold values, items in *. rewrite Forall_forall in *.
  intros m Hm. apply in_map_iff in Hm. destruct Hm as (item & <- & Hitem).
  apply range_printable. now apply Hr.
Qed.



Lemma length_repeat_str (c : ascii) (n : nat) :
  String.length (repeat_char c n) = n.
Proof. induction n; cbn; now f_equal. Qed.


Lemma fits_repeat (c : ascii) (n : Z) :
  0 <= n -> fits (repeat_char c (Z.to_nat n)) = (n <=? field_size_limit).
Proof. intros Hn. unfold fits. now rewrite length_repeat_str, Z2Nat.id. Qed.

(** A field above the limit ends the reading: the rows before it are
    loaded, the rows after it are not. *)
Lemma read_back_long_field (long : string) :
  fits long = false ->
  no_cr long = true ->
  let file := [["Name"; "Marks"]; ["a"; "1"]; [long; "5"]; ["z"; "2"]] in
  read_back file = ([["Name"; "Marks"]; ["a"; "1"]], Some CsvError) /\
  load_from_reader (Some (read_back file))
  = ([("a", 1)], [Loading ["Name"; "Marks"]; ErrorOccurred CsvError]).
Proof.
  intros Hfits Hcr. cbv zeta.
  assert (Hread : read_back [["Name"; "Marks"]; ["a"; "1"]; [long; "5"]; ["z"; "2"]]
                  = ([["Name"; "Marks"]; ["a"; "1"]], Some CsvError)).
  { rewrite read_back_cons.
    change (forallb fits (map universal_newlines ["Name"; "Marks"])) with true.
    cbv iota. rewrite read_back_cons.
    change (forallb fits (map universal_newlines ["a"; "1"])) with true.
    cbv iota. rewrite read_back_cons. cbn [map forallb].
    rewrite (universal_newlines_no_cr long Hcr), Hfits. reflexivity. }
  split; [exact Hread|]. rewrite Hread. reflexivity.
Qed.

(** A field of 131072 characters is read, one of 131073 is not. *)
Example field_limit_examples :
  fits (repeat_char "x" (Z.to_nat 131072)) = true /\
  fits (repeat_char "x" (Z.to_nat 131073)) = false.
Proof.
  rewrite !fits_repeat by discriminate. split; reflexivity.
Qed.



(** ** The stores the input adapters build *)

Lemma starts_clean_lstrip (s : string) : starts_clean (lstrip s) = true.
Proof.
  induction s as [|c s IH]; simpl; [reflexivity|].
  destruct (isspace c) eqn:E; [exact IH | simpl; now rewrite E].
Qed.

Lemma lstrip_starts_clean (s : string) : starts_clean s = true -> lstrip s = s.
Proof.
  destruct s as [|c s]; simpl; [reflexivity|].
  now destruct (isspace c).
Qed.

Lemma starts_clean_rstrip (s : string) :
  starts_clean s = true -> starts_clean (rstrip s) = true.
Proof.
  destruct s as [|c s]; simpl; [reflexivity|]. intros Hc.
  destruct (rstrip s); [|exact Hc].
  destruct (isspace c) eqn:Ec; [reflexivity | simpl; now rewrite Ec].
Qed.

Lemma rstrip_idempotent (s : string) : rstrip (rstrip s) = rstrip s.
Proof.
  induction s as [|c s IH]; simpl; [reflexivity|].
  destruct (rstrip s) as [|c' r] eqn:E.
  - destruct (isspace c) eqn:Ec; simpl; [reflexivity | now rewrite Ec].
  - cbn [rstrip] in *. cbn [rstrip]. rewrite IH. reflexivity.
Qed.

(** [strip] leaves nothing for a second [strip]. *)
Lemma strip_idempotent (s : string) : stripped (strip s).
Proof.
  unfold stripped, strip.
  rewrite (lstrip_starts_clean (rstrip (lstrip s))).
  - apply rstrip_idempotent.
  - apply starts_clean_rstrip, starts_clean_lstrip.
Qed.

Lemma stripped_setitem (d : dict Z) (name : string) (mark : Z) :
  Forall stripped (keys d) -> stripped name ->
  Forall stripped (keys (setitem d name mark)).
Proof.
  intros Hd Hn. rewrite Forall_forall in *. intros k Hk.
  apply keys_setitem in Hk. destruct Hk as [->|Hk]; [exact Hn | now apply Hd].
Qed.

Lemma load_row_keeps (P : dict Z -> Prop) (d : dict Z) (out : list message) r :
  P d ->
  (forall d' c0 mark,
      In c0 r -> printable mark -> P d' -> P (setitem d' (strip c0) mark)) ->
  exists d' out', load_row (d, out) r = Ok (d', out') /\ P d'.
Proof.
  intros Hd Hset. destruct r as [|c0 [|c1 more]].
  - now exists d, out.
  - now eexists d, _.
  - unfold load_row, store_row, index. simpl.
    destruct (int_cases (strip c1)) as [[z Hz]| ->]; simpl.
    + rewrite Hz. eexists _, _. split; [reflexivity|].
      apply Hset; [now left | exact (int_printable _ _ Hz) | exact Hd].
    + now eexists d, _.
Qed.

(** A property of the dict that every stored entry keeps holds of the dict
    loaded. *)
Lemma load_rows_keeps (P : dict Z -> Prop) (rows : list row)
    (d : dict Z) (out : list message) :
  P d ->
  (forall d' r c0 mark,
      In r rows -> In c0 r -> printable mark -> P d' ->
      P (setitem d' (strip c0) mark)) ->
  P (fst (load_rows rows (d, out))).
Proof.
  revert d out.
  induction rows as [|r rows IH]; intros d out Hd Hset; [exact Hd|].
  cbn [load_rows].
  destruct (load_row_keeps P d out r Hd) as (d' & out' & -> & Hd').
  - intros d0 c0 mark Hc0. apply (Hset d0 r c0 mark); [now left | exact Hc0].
  - apply IH; [exact Hd'|].
    intros d0 r0 c0 mark Hr0. apply Hset. now right.
Qed.

(** Whatever the file, the loader returns a dict whose names are stripped. *)
Lemma load_from_csv_store (file : option (list row)) :
  wf (fst (load_from_csv file)) /\
  Forall stripped (keys (fst (load_from_csv file))).
Proof.
  assert (H0 : wf (@nil (string * Z)) /\ Forall stripped (keys (@nil (string * Z))))
    by (split; constructor).
  destruct file as [[|header rows]|]; [exact H0| |exact H0].
  unfold load_from_csv.
  apply (load_rows_keeps (fun d => wf d /\ Forall stripped (keys d))).
  - exact H0.
  - intros d' r c0 mark _ _ _ [Hw Hs].
    split; [now apply wf_setitem|].
    apply stripped_setitem; [exact Hs | apply strip_idempotent].
Qed.

(** Manual entry returns a Record Store with stripped, non-empty names. *)
Lemma manual_loop_store (lines : list string) :
  forall (d : dict Z) (out : list message) d' out',
    record_store d ->
    Forall (fun name => stripped name /\ name <> "") (keys d) ->
    manual_loop lines d out = Ok (d', out') ->
    record_store d' /\
    Forall (fun name => stripped name /\ name <> "") (keys d').
Proof.
  induction lines as [lines IH] using (well_founded_induction
    (Wf_nat.well_founded_ltof _ (@List.length string))).
  intros d out d' out' Hd Hn Hrun.
  destruct lines as [|l1 [|l2 lines2]]; cbn [manual_loop] in Hrun;
    cbv zeta in Hrun.
  - discriminate.
  - destruct (String.eqb (strip l1) "");
      [injection Hrun as <- <-; now split | discriminate].
  - destruct (String.eqb (strip l1) "") eqn:Hname;
      [injection Hrun as <- <-; now split|].
    apply String.eqb_neq in Hname.
    assert (Hlt : Wf_nat.ltof _ (@List.length string) lines2 (l1 :: l2 :: lines2))
      by (unfold Wf_nat.ltof; simpl; lia).
    destruct (int_cases (strip l2)) as [[mark Hm]|Hm]; rewrite Hm in Hrun.
    + destruct (Z.leb_spec 0 mark) as [H0|H0];
        destruct (Z.leb_spec mark 100) as [H1|H1]; cbn [andb] in Hrun;
        try (eapply (IH lines2 Hlt); eassumption).
      eapply (IH lines2 Hlt); [| |exact Hrun].
      * destruct Hd as [Hw Hr]. split; [now apply wf_setitem|].
        unfold items in *. rewrite Forall_forall in *.
        intros [k m] Hin. simpl.
        apply (In_lookup _ k m (wf_setitem d (strip l1) mark Hw)) in Hin.
        destruct (String.eqb_spec (strip l1) k) as [Heq|Hk].
        -- rewrite <- Heq, lookup_setitem_eq in Hin. injection Hin as <-. lia.
        -- rewrite lookup_setitem_neq in Hin by exact Hk.
           apply lookup_Some_In in Hin. exact (Hr _ Hin).
      * rewrite Forall_forall in *. intros k Hk.
        apply keys_setitem in Hk. destruct Hk as [->|Hk]; [|now apply Hn].
        split; [apply strip_idempotent | exact Hname].
    + eapply (IH lines2 Hlt); eassumption.
Qed.

Lemma get_manual_input_store (lines : list string) d out :
  get_manual_input lines = Ok (d, out) ->
  record_store d /\ Forall (fun name => stripped name /\ name <> "") (keys d).
Proof.
  apply manual_loop_store; [split|]; constructor.
Qed.

(** ** Files read in universal-newlines mode *)

Lemma no_cr_lstrip (s : string) : no_cr s = true -> no_cr (lstrip s) = true.
Proof.
  induction s as [|c s IH]; simpl; [reflexivity|].
  intros H. destruct (isspace c).
  - apply andb_prop in H. now apply IH.
  - exact H.
Qed.

Lemma no_cr_rstrip (s : string) : no_cr s = true -> no_cr (rstrip s) = true.
Proof.
  induction s as [|c s IH]; simpl; [reflexivity|].
  intros H. apply andb_prop in H. destruct H as [Hc Hs].
  specialize (IH Hs). destruct (rstrip s) as [|c' r].
  - destruct (isspace c); simpl; [reflexivity | now rewrite Hc].
  - cbn [no_cr] in *. now rewrite Hc, IH.
Qed.

Lemma plain_strip (s : string) : no_cr s = true -> plain (strip s).
Proof.
  intros H. split; [apply strip_idempotent|].
  unfold strip. now apply no_cr_rstrip, no_cr_lstrip.
Qed.

(** A store loaded from a CSV file without carriage returns, as every file
    is once read in universal-newlines mode, has plain names. *)
Lemma load_from_csv_plain (rows : list row) :
  Forall (Forall (fun field => no_cr field = true)) rows ->
  Forall plain (keys (fst (load_from_csv (Some rows)))).
Proof.
  destruct rows as [|header rows]; [constructor|].
  intros Hrows. apply Forall_inv_tail in Hrows. unfold load_from_csv.
  apply (load_rows_keeps (fun d => Forall plain (keys d))); [constructor|].
  intros d' r c0 mark Hr Hc0 _ Hd'.
  rewrite Forall_forall in Hrows. specialize (Hrows r Hr).
  rewrite Forall_forall in Hrows.
  rewrite Forall_forall in *. intros k Hk.
  apply keys_setitem in Hk. destruct Hk as [->|Hk]; [|now apply Hd'].
  apply plain_strip. now apply Hrows.
Qed.

Lemma length_lstrip (s : string) : (String.length (lstrip s) <= String.length s)%nat.
Proof.
  induction s as [|c s IH]; cbn [lstrip String.length]; [lia|].
  destruct (isspace c); cbn [String.length]; lia.
Qed.

Lemma length_rstrip (s : string) : (String.length (rstrip s) <= String.length s)%nat.
Proof.
  induction s as [|c s IH]; cbn [rstrip String.length]; [lia|].
  destruct (rstrip s); [destruct (isspace c)|]; cbn [String.length] in *; lia.
Qed.

Lemma fits_strip (s : string) : fits s = true -> fits (strip s) = true.
Proof.
  unfold fits, strip. rewrite !Z.leb_le.
  pose proof (length_lstrip s). pose proof (length_rstrip (lstrip s)). lia.
Qed.

(** The names of a store loaded from fields within the reader's limit are
    within it. *)
Lemma load_from_csv_fits (rows : list row) :
  Forall (Forall (fun field => fits field = true)) rows ->
  Forall (fun name => fits name = true) (keys (fst (load_from_csv (Some rows)))).
Proof.
  destruct rows as [|header rows]; [constructor|].
  intros Hrows. apply Forall_inv_tail in Hrows. unfold load_from_csv.
  apply (load_rows_keeps (fun d => Forall (fun name => fits name = true) (keys d)));
    [constructor|].
  intros d' r c0 mark Hr Hc0 _ Hd'.
  rewrite Forall_forall in Hrows. specialize (Hrows r Hr).
  rewrite Forall_forall in Hrows.
  rewrite Forall_forall in *. intros k Hk.
  apply keys_setitem in Hk. destruct Hk as [->|Hk]; [|now apply Hd'].
  apply fits_strip. now apply Hrows.
Qed.

Lemma values_setitem (d : dict Z) (k : string) (v v' : Z) :
  In v' (values (setitem d k v)) -> v' = v \/ In v' (values d).
Proof.
  induction d as [|[k0 v0] d IH]; cbn [setitem values map In].
  - intros [<-|[]]. now left.
  - destruct (String.eqb k0 k); cbn [map In].
    + intros [<-|H]; [now left | right; now right].
    + intros [<-|H]; [right; now left|].
      destruct (IH H) as [->|H']; [now left | right; now right].
Qed.

(** The marks of a store loaded from a file can be printed. *)
Lemma load_from_csv_printable (file : option (list row)) :
  Forall printable (values (fst (load_from_csv file))).
Proof.
  destruct file as [[|header rows]|]; [constructor| |constructor].
  unfold load_from_csv.
  apply (load_rows_keeps (fun d => Forall printable (values d))); [constructor|].
  intros d' r c0 mark _ _ Hmark Hd'.
  rewrite Forall_forall in *. intros v Hv.
  apply values_setitem in Hv. destruct Hv as [->|Hv]; [exact Hmark | now apply Hd'].
Qed.

(** Such a store survives export and import. *)
Lemma loaded_store_round_trip (rows : list row) :
  Forall (Forall (fun field => no_cr field = true)) rows ->
  Forall (Forall (fun field => fits field = true)) rows ->
  dict_eq (reimport (fst (load_from_csv (Some rows))))
    (fst (load_from_csv (Some rows))).
Proof.
  intros Hrows Hfits.
  destruct (load_from_csv_store (Some rows)) as [Hwf _].
  pose proof (load_from_csv_plain rows Hrows) as Hs.
  pose proof (load_from_csv_fits rows Hfits) as Hf.
  pose proof (load_from_csv_printable (Some rows)) as Hp.
  intros k. symmetry. apply (Permutation_dict_eq _ _ Hwf).
  apply Permutation_sym. now apply reimport_permutation.
Qed.

(** ** One analysis pass *)

Lemma max_nonempty {A : Type} (xs : list A) (key : A -> Z) :
  xs <> [] -> exists x, max_ xs key = Ok x.
Proof. destruct xs; [contradiction | now eexists]. Qed.

Lemma min_nonempty {A : Type} (xs : list A) (key : A -> Z) :
  xs <> [] -> exists x, min_ xs key = Ok x.
Proof. destruct xs; [contradiction | now eexists]. Qed.

Lemma rounded_cases (x : Q) (r : result number) :
  rounded x r -> (exists q, r = Ok (PyFloat q)) \/ r = Raise OverflowError.
Proof. intros [[-> _] | (q & -> & _)]; [now right | left; now exists q]. Qed.

(** The median is computed, an int among the marks or a float, unless the
    division overflows. *)
Lemma calculate_median_cases (marks_dict : dict Z) :
  marks_dict <> [] ->
  (exists v, calculate_median marks_dict = Ok (PyInt v) /\ In v (values marks_dict))
  \/ (exists q, calculate_median marks_dict = Ok (PyFloat q))
  \/ calculate_median marks_dict = Raise OverflowError.
Proof.
  intros Hne. pose proof (calculate_median_is_median _ Hne) as H.
  unfold is_median in H. destruct (Nat.odd (List.length (values marks_dict))).
  - destruct H as (v & Hv & ->). left. exists v.
    split; [reflexivity | now apply kth_smallest_In in Hv].
  - destruct H as (a & b & _ & _ & Hr). right. now apply rounded_cases in Hr.
Qed.

Lemma calculate_average_cases (marks_dict : dict Z) :
  marks_dict <> [] ->
  (exists q, calculate_average marks_dict = Ok (PyFloat q))
  \/ calculate_average marks_dict = Raise OverflowError.
Proof.
  intros Hne. exact (rounded_cases _ _ (calculate_average_rounded _ Hne)).
Qed.

Lemma max_from_In {A : Type} (key : A -> Z) (xs : list A) (best : A) :
  In (max_from key best xs) (best :: xs).
Proof.
  destruct (max_from_first key xs best) as (l1 & l2 & -> & _).
  apply in_or_app. right. now left.
Qed.

Lemma min_from_In {A : Type} (key : A -> Z) (xs : list A) (best : A) :
  In (min_from key best xs) (best :: xs).
Proof.
  destruct (min_from_first key xs best) as (l1 & l2 & -> & _).
  apply in_or_app. right. now left.
Qed.

(** What a pass computes: the grades of the store it is given and numbers
    taken from its marks. The only exception is the [OverflowError] of a
    division. *)
Lemma analyze_cases (marks_data : dict Z) :
  marks_data <> [] ->
  (exists a,
      analyze marks_data = Ok a /\
      grades_data a = assign_grades marks_data /\
      distribution a = calculate_grade_distribution (assign_grades marks_data) /\
      (forall v, med a = PyInt v -> In v (values marks_data)) /\
      In (max_score a) (items marks_data) /\
      In (min_score a) (items marks_data))
  \/ analyze marks_data = Raise OverflowError.
Proof.
  intros Hne. unfold analyze, get_max_score, get_min_score.
  rewrite (not_nonempty _ Hne).
  destruct (calculate_average_cases _ Hne) as [[q ->] | ->]; [|now right].
  cbn [bind].
  assert (Hmax : exists hi, max_ (items marks_data) snd = Ok hi /\
                   In hi (items marks_data)).
  { destruct marks_data as [|x xs]; [contradiction|].
    eexists. split; [reflexivity | apply max_from_In]. }
  assert (Hmin : exists lo, min_ (items marks_data) snd = Ok lo /\
                   In lo (items marks_data)).
  { destruct marks_data as [|x xs]; [contradiction|].
    eexists. split; [reflexivity | apply min_from_In]. }
  destruct Hmax as (hi & -> & Hhi). destruct Hmin as (lo & -> & Hlo).
  destruct (calculate_median_cases _ Hne) as [(v & -> & Hv) | [[q' ->] | ->]];
    [| |now right]; cbn [bind]; left; eexists; (split; [reflexivity|]);
    cbn [grades_data distribution med max_score min_score];
    repeat split; try assumption.
  - now intros v' [= <-].
  - discriminate.
Qed.


(** Within a pass the grades and the marks are over the same names. *)
Lemma analysis_pass_keys (marks_data : dict Z) (a : analysis) :
  analyze marks_data = Ok a ->
  forall name, In name (keys (grades_data a)) <-> In name (keys marks_data).
Proof.
  unfold analyze. intros H.
  destruct (calculate_average marks_data); [|discriminate].
  destruct (calculate_median marks_data); [|discriminate].
  destruct (get_max_score marks_data); [|discriminate].
  destruct (get_min_score marks_data); [|discriminate].
  cbn [bind] in H. injection H as <-. cbn [grades_data].
  intros name. apply keys_assign_grades_iff.
Qed.

(** * Further properties *)

(** ** CSV import: what is stored and what is reported *)

Lemma load_row_entry (d : dict Z) (out : list message) (r : row) :
  load_row (d, out) r
  = Ok (match row_entry r with
        | Some e => setitem d (fst e) (snd e)
        | None => d
        end,
        if warned r then (out ++ [SkippingInvalidRow r])%list else out).
Proof.
  destruct r as [|c0 [|c1 more]]; [reflexivity | reflexivity |].
  unfold load_row, store_row, index, warned, row_entry. simpl.
  destruct (int_cases (strip c1)) as [[z ->]| ->]; reflexivity.
Qed.

(** The loop stores the entries of the rows in order and warns once for
    each non-empty row without entry. *)
Lemma load_rows_entries (rows : list row) (d : dict Z) (out : list message) :
  load_rows rows (d, out)
  = (fold_left (fun acc e => setitem acc (fst e) (snd e))
       (somes (map row_entry rows)) d,
     (out ++ map SkippingInvalidRow (filter warned rows))%list).
Proof.
  revert d out. induction rows as [|r rows IH]; intros d out.
  - simpl. now rewrite app_nil_r.
  - cbn [load_rows]. rewrite load_row_entry, IH. cbn [map filter somes].
    destruct (row_entry r) as [e|]; destruct (warned r); cbn [somes fold_left map];
      rewrite <- ?app_assoc; reflexivity.
Qed.

Lemma lookup_fold_setitem_other {V : Type} (es : list (string * V))
    (d : dict V) (k : string) :
  (forall e, In e es -> fst e <> k) ->
  lookup (fold_left (fun acc e => setitem acc (fst e) (snd e)) es d) k
  = lookup d k.
Proof.
  revert d. induction es as [|e es IH]; intros d Hes; [reflexivity|].
  cbn [fold_left]. rewrite IH by (intros e' He'; apply Hes; now right).
  apply lookup_setitem_neq. apply Hes. now left.
Qed.

Lemma somes_app {A : Type} (xs ys : list (option A)) :
  somes (xs ++ ys) = (somes xs ++ somes ys)%list.
Proof.
  induction xs as [|[x|] xs IH]; simpl; [reflexivity | now rewrite IH | exact IH].
Qed.

Lemma In_somes {A : Type} (xs : list (option A)) (x : A) :
  In x (somes xs) <-> In (Some x) xs.
Proof.
  induction xs as [|[y|] xs IH]; simpl.
  - tauto.
  - rewrite IH. split; intros [H|H]; auto; left; congruence.
  - rewrite IH. split; [auto | intros [H|H]; [discriminate | exact H]].
Qed.

(** X1. Whatever the file, the loader returns a dict whose names are
    unique and stripped; and it never raises: a missing file, an empty file
    or bad rows only shorten what it returns. *)
Theorem csv_import_store (file : option (list row)) :
  wf (fst (load_from_csv file)) /\
  Forall stripped (keys (fst (load_from_csv file))) /\
  (forall name, In name (keys (fst (load_from_csv file))) ->
     exists rows r c0 more,
       file = Some rows /\ In r rows /\ r = c0 :: more /\ name = strip c0).
Proof.
  destruct (load_from_csv_store file) as [Hwf Hs].
  split; [exact Hwf|]. split; [exact Hs|].
  destruct file as [[|header rows]|]; try (intros name []).
  unfold load_from_csv. rewrite load_rows_entries. cbn [fst].
  intros name Hin.
  pose proof (keys_fold_setitem (fun e : string * Z => e)
                (somes (map row_entry rows)) [] name) as Hk.
  apply Hk in Hin. destruct Hin as [[]|Hin].
  apply in_map_iff in Hin. destruct Hin as ([n m] & Hn & Hin). simpl in Hn.
  subst n. apply In_somes, in_map_iff in Hin. destruct Hin as (r & Hr & Hin).
  destruct r as [|c0 [|c1 more]]; try discriminate Hr.
  unfold row_entry in Hr. destruct (int (strip c1)); [|discriminate].
  injection Hr as Hname _.
  exists (header :: rows), (c0 :: c1 :: more), c0, (c1 :: more).
  repeat split; [now right | now symmetry].
Qed.

(** X2. The last row that gives a name its mark wins: if a row has an
    entry for [name] and no later row has one, the store holds the mark of
    that row, whatever integer [int] read there (the import checks no
    range). *)
Theorem csv_import_last_row_wins (header : row) (before after : list row)
    (r : row) (name : string) (mark : Z) :
  row_entry r = Some (name, mark) ->
  (forall r' mark', In r' after -> row_entry r' <> Some (name, mark')) ->
  lookup (fst (load_from_csv (Some (header :: before ++ r :: after)))) name
  = Some mark.
Proof.
  intros Hr Hafter. unfold load_from_csv. rewrite load_rows_entries. cbn [fst].
  rewrite map_app, somes_app, fold_left_app. cbn [map somes]. rewrite Hr.
  cbn [somes fold_left fst snd]. rewrite lookup_fold_setitem_other.
  - apply lookup_setitem_eq.
  - intros [n m] He Hn. simpl in Hn. subst n.
    apply In_somes, in_map_iff in He. destruct He as (r' & Hr' & Hin).
    exact (Hafter r' m Hin Hr').
Qed.

Lemma csv_import_last_row_wins_witness :
  lookup (fst (load_from_csv
                 (Some [["Name"; "Marks"]; ["Bob"; "1"]; [" Bob "; "250"; "x"];
                        ["Eve"; "7"]; ["Bob"]]))) "Bob"
  = Some 250.
Proof.
  apply (csv_import_last_row_wins ["Name"; "Marks"] [["Bob"; "1"]]
           [["Eve"; "7"]; ["Bob"]] [" Bob "; "250"; "x"] "Bob" 250).
  - reflexivity.
  - intros r' mark' [<-|[<-|[]]]; discriminate.
Defined.

(** X3. The loader reports the header, then one warning for each row that
    is not empty and has no entry, in the order of the file; empty rows and
    rows it stores are passed in silence. *)
Theorem csv_import_warnings (header : row) (rows : list row) :
  snd (load_from_csv (Some (header :: rows)))
  = Loading header :: map SkippingInvalidRow (filter warned rows).
Proof.
  unfold load_from_csv. rewrite load_rows_entries. reflexivity.
Qed.

(** ** Manual entry *)

Lemma pairs_ind {A : Type} (P : list A -> Prop) :
  P [] -> (forall x, P [x]) -> (forall x y l, P l -> P (x :: y :: l)) ->
  forall l, P l.
Proof.
  intros H0 H1 H2.
  assert (H : forall l, P l /\ forall x, P (x :: l)).
  { induction l as [|y l [IH1 IH2]]; [now split|].
    split; [apply IH2 | intros x; now apply H2]. }
  intros l. apply H.
Qed.

(** The loop stores the entries of the pairs typed, in order, prints one
    message for each pair without entry, and ends with [EOFError] when the
    lines run out before an empty name. *)
Lemma manual_loop_entries (lines : list string) :
  forall (d : dict Z) (out : list message),
    manual_loop lines d out
    = if terminated lines then
        Ok (fold_left (fun acc e => setitem acc (fst e) (snd e))
              (somes (map typed_entry (typed_pairs lines))) d,
            (out ++ somes (map typed_message (typed_pairs lines)))%list)
      else Raise EOFError.
Proof.
  induction lines as [|l1|l1 l2 lines IH] using pairs_ind; intros d out.
  - reflexivity.
  - cbn [manual_loop terminated typed_pairs].
    destruct (String.eqb (strip l1) ""); [|reflexivity].
    simpl. now rewrite app_nil_r.
  - cbn [manual_loop terminated typed_pairs].
    destruct (String.eqb (strip l1) "").
    + simpl. now rewrite app_nil_r.
    + cbn [map]. unfold typed_entry at 1, typed_message at 1. cbn [fst snd].
      destruct (int_cases (strip l2)) as [[mark ->]| ->].
      * destruct ((0 <=? mark) && (mark <=? 100)); rewrite IH;
          destruct (terminated lines); cbn [somes fold_left fst snd];
          rewrite <- ?app_assoc; reflexivity.
      * rewrite IH. destruct (terminated lines); cbn [somes fold_left];
          rewrite <- ?app_assoc; reflexivity.
Qed.

(** X4. Manual entry returns a store exactly when an empty name is typed
    at a name prompt; when the lines typed run out first, [input] raises
    [EOFError] and nothing is returned. *)
Theorem manual_entry_ends (lines : list string) :
  (terminated lines = true ->
   exists d out, get_manual_input lines = Ok (d, out)) /\
  (terminated lines = false -> get_manual_input lines = Raise EOFError) /\
  (Forall (fun l => strip l <> "") lines ->
   get_manual_input lines = Raise EOFError).
Proof.
  unfold get_manual_input. rewrite manual_loop_entries.
  split; [intros ->; now eexists _, _|]. split; [now intros ->|].
  intros Hall. enough (terminated lines = false) as -> by reflexivity.
  induction lines as [|l1|l1 l2 lines IH] using pairs_ind.
  - reflexivity.
  - apply Forall_inv in Hall. cbn [terminated].
    now destruct (String.eqb_spec (strip l1) "").
  - pose proof (Forall_inv Hall) as H1. cbn [terminated].
    destruct (String.eqb_spec (strip l1) ""); [contradiction|].
    apply IH. now apply Forall_inv_tail, Forall_inv_tail in Hall.
Qed.

(** X5. What manual entry returns is a Record Store: names are unique,
    every mark lies in 0..100, and every name is stripped and not empty. *)
Theorem manual_entry_store (lines : list string) (d : dict Z)
    (out : list message) :
  get_manual_input lines = Ok (d, out) ->
  record_store d /\
  Forall (fun name => stripped name /\ name <> "") (keys d).
Proof. apply get_manual_input_store. Qed.

Lemma manual_entry_store_witness :
  get_manual_input ["Ann"; "70"; " Bob "; "abc"; "Cy"; "101"; "Ann"; " 8"; ""]
  = Ok ([("Ann", 8)], [InvalidInput; InvalidMark]) /\
  record_store [("Ann", 8)].
Proof.
  split; [reflexivity|].
  apply (manual_entry_store
           ["Ann"; "70"; " Bob "; "abc"; "Cy"; "101"; "Ann"; " 8"; ""]
           [("Ann", 8)] [InvalidInput; InvalidMark]).
  reflexivity.
Defined.

(** X6. In manual entry the last accepted mark of a name wins, and a pair
    whose mark is not an integer in 0..100 stores nothing: the name is
    dropped and the next line is read as a new name. *)
Theorem manual_entry_last_wins (lines : list string)
    (before after : list (string * string)) (p : string * string)
    (name : string) (mark : Z) (d : dict Z) (out : list message) :
  get_manual_input lines = Ok (d, out) ->
  typed_pairs lines = (before ++ p :: after)%list ->
  typed_entry p = Some (name, mark) ->
  (forall p' mark', In p' after -> typed_entry p' <> Some (name, mark')) ->
  lookup d name = Some mark /\
  0 <= mark <= 100 /\
  out = somes (map typed_message (typed_pairs lines)).
Proof.
  unfold get_manual_input. rewrite manual_loop_entries.
  destruct (terminated lines); [|discriminate].
  intros [= <- <-] Hpairs Hp Hafter. split; [|split; [|reflexivity]].
  - rewrite Hpairs, map_app, somes_app, fold_left_app. cbn [map somes].
    rewrite Hp. cbn [somes fold_left fst snd].
    rewrite lookup_fold_setitem_other; [apply lookup_setitem_eq|].
    intros [n m] He Hn. simpl in Hn. subst n.
    apply In_somes, in_map_iff in He. destruct He as (p' & Hp' & Hin).
    exact (Hafter p' m Hin Hp').
  - unfold typed_entry in Hp. destruct (int (strip (snd p))); [|discriminate].
    destruct (Z.leb_spec 0 a); destruct (Z.leb_spec a 100);
      cbn [andb] in Hp; try discriminate.
    injection Hp as _ <-. lia.
Qed.

Lemma manual_entry_last_wins_witness :
  exists d out,
    get_manual_input ["Ann"; "70"; "Ann"; " 8"; "Ann"; "800"; "Bo"; "x"; ""]
    = Ok (d, out) /\
    lookup d "Ann" = Some 8 /\ out = [InvalidMark; InvalidInput].
Proof.
  eexists _, _. split; [reflexivity|].
  destruct (manual_entry_last_wins
              ["Ann"; "70"; "Ann"; " 8"; "Ann"; "800"; "Bo"; "x"; ""]
              [("Ann", "70")] [("Ann", "800"); ("Bo", "x")] ("Ann", " 8")
              "Ann" 8 _ _ eq_refl eq_refl eq_refl) as (H1 & _ & H3).
  - intros p' mark' [<-|[<-|[]]]; discriminate.
  - split; [exact H1 | exact H3].
Defined.

(** ** Statistics: bounds and independence of the order of entry *)

(** X7. If every mark lies between [lo] and [hi], two ints of at most 53
    bits, the median and the average of a non-empty mapping are computed
    without error and lie between [lo] and [hi] as well: rounding the
    quotient to a double does not leave the range of the marks. *)
Theorem statistics_within_marks (marks_dict : dict Z) (lo hi : Z) :
  marks_dict <> [] ->
  Z.abs lo < 2 ^ 53 -> Z.abs hi < 2 ^ 53 ->
  Forall (fun mark => lo <= mark <= hi) (values marks_dict) ->
  exists m a,
    calculate_median marks_dict = Ok m /\
    calculate_average marks_dict = Ok a /\
    (inject_Z lo <= as_rational m <= inject_Z hi)%Q /\
    (inject_Z lo <= as_rational a <= inject_Z hi)%Q.
Proof.
  intros Hne Hlo Hhi Hall.
  assert (Hlen : 0 < Z.of_nat (len marks_dict)).
  { pose proof (len_nonzero _ Hne). lia. }
  destruct (truediv_between (total (values marks_dict)) (Z.of_nat (len marks_dict))
              lo hi Hlen Hlo Hhi) as (q & Hq & Hqb).
  { pose proof (total_bounds _ _ _ Hall) as Ht.
    unfold values in Ht at 1 4. rewrite length_map in Ht. exact Ht. }
  rewrite (calculate_average_truediv _ Hne), Hq.
  unfold calculate_median. rewrite (not_nonempty _ Hne).
  pose proof (median_middle _ (values_nonempty _ Hne)) as Hmed. cbv zeta in Hmed.
  rewrite Forall_forall in Hall.
  destruct (Nat.odd (List.length (values marks_dict))).
  - destruct Hmed as (v & (Hin & _) & ->).
    exists (PyInt v), (PyFloat q). split; [reflexivity|]. split; [reflexivity|].
    split; [|exact Hqb]. cbn [as_rational]. rewrite <- !Zle_Qle. exact (Hall v Hin).
  - destruct Hmed as (a & b & (Ha & _) & (Hb & _) & ->).
    apply Hall in Ha, Hb.
    destruct (truediv_between (a + b) 2 lo hi ltac:(lia) Hlo Hhi ltac:(lia))
      as (m & -> & Hmb).
    exists (PyFloat m), (PyFloat q). now repeat split.
Qed.

Lemma statistics_within_marks_witness :
  exists m a,
    calculate_median sample = Ok m /\
    calculate_average sample = Ok a /\
    (inject_Z 59 <= as_rational m <= inject_Z 90)%Q /\
    (inject_Z 59 <= as_rational a <= inject_Z 90)%Q.
Proof.
  apply (statistics_within_marks sample 59 90).
  - discriminate.
  - reflexivity.
  - reflexivity.
  - repeat constructor; simpl; lia.
Defined.

Lemma sorted_permutation_eq (s1 s2 : list Z) :
  StronglySorted (fun x y => is_true (x <=? y)) s1 ->
  StronglySorted (fun x y => is_true (x <=? y)) s2 ->
  Permutation s1 s2 -> s1 = s2.
Proof.
  intros H1. revert s2. induction H1 as [|x s1 Hs1 IH Hx]; intros s2 H2 Hp.
  - now apply Permutation_nil in Hp.
  - destruct H2 as [|y s2 Hs2 Hy].
    + apply Permutation_sym, Permutation_nil in Hp. discriminate.
    + assert (Hxy : x = y).
      { rewrite Forall_forall in Hx, Hy.
        assert (Hin1 : In x (y :: s2))
          by (eapply Permutation_in; [exact Hp | now left]).
        assert (Hin2 : In y (x :: s1))
          by (eapply Permutation_in; [apply Permutation_sym, Hp | now left]).
        destruct Hin1 as [->|Hin1]; [reflexivity|].
        destruct Hin2 as [->|Hin2]; [reflexivity|].
        apply Hy in Hin1. apply Hx in Hin2.
        apply Z.leb_le in Hin1, Hin2. lia. }
      subst y. f_equal. apply IH; [exact Hs2|].
      now apply Permutation_cons_inv in Hp.
Qed.

Lemma sort_permutation (xs ys : list Z) :
  Permutation xs ys -> ZSort.sort xs = ZSort.sort ys.
Proof.
  intros Hp. apply sorted_permutation_eq.
  - apply (ZSort.StronglySorted_sort xs leb_transitive).
  - apply (ZSort.StronglySorted_sort ys leb_transitive).
  - eapply Permutation_trans; [apply Permutation_sym, ZSort.Permuted_sort|].
    eapply Permutation_trans; [exact Hp | apply ZSort.Permuted_sort].
Qed.

Lemma total_permutation (xs ys : list Z) :
  Permutation xs ys -> total xs = total ys.
Proof.
  unfold total.
  induction 1 as [| x xs ys _ IH | x y xs | xs ys zs _ IH1 _ IH2];
    cbn [fold_right]; lia.
Qed.

Lemma extreme_marks_agree (d1 d2 : dict Z) :
  Permutation d1 d2 ->
  exists hi1 hi2 lo1 lo2,
    get_max_score d1 = Ok hi1 /\ get_max_score d2 = Ok hi2 /\
    get_min_score d1 = Ok lo1 /\ get_min_score d2 = Ok lo2 /\
    snd hi1 = snd hi2 /\ snd lo1 = snd lo2.
Proof.
  intros Hp. destruct d1 as [|x1 r1].
  - apply Permutation_nil in Hp. subst d2. now eexists _, _, _, _.
  - destruct d2 as [|x2 r2];
      [apply Permutation_sym, Permutation_nil in Hp; discriminate|].
    unfold get_max_score, get_min_score, items, max_, min_. simpl not_.
    cbv iota.
    destruct (max_from_first snd r1 x1) as (a1 & a2 & Ha & Halt & Hale).
    destruct (max_from_first snd r2 x2) as (b1 & b2 & Hb & Hblt & Hble).
    destruct (min_from_first snd r1 x1) as (c1 & c2 & Hc & Hclt & Hcle).
    destruct (min_from_first snd r2 x2) as (e1 & e2 & He & Helt & Hele).
    eexists _, _, _, _. repeat (split; [reflexivity|]).
    assert (Hbound : forall (l1 l2 : list (string * Z)) (m y : string * Z),
               (forall z, In z l1 -> snd z < snd m) ->
               (forall z, In z l2 -> snd z <= snd m) ->
               In y (l1 ++ m :: l2) -> snd y <= snd m).
    { intros l1 l2 m y Hl1 Hl2 Hy. apply in_app_or in Hy.
      destruct Hy as [Hy|[<-|Hy]];
        [apply Z.lt_le_incl; now apply Hl1 | lia | now apply Hl2]. }
    assert (Hbound' : forall (l1 l2 : list (string * Z)) (m y : string * Z),
               (forall z, In z l1 -> snd m < snd z) ->
               (forall z, In z l2 -> snd m <= snd z) ->
               In y (l1 ++ m :: l2) -> snd m <= snd y).
    { intros l1 l2 m y Hl1 Hl2 Hy. apply in_app_or in Hy.
      destruct Hy as [Hy|[<-|Hy]];
        [apply Z.lt_le_incl; now apply Hl1 | lia | now apply Hl2]. }
    assert (Hin : forall (l1 l2 : list (string * Z)) m, In m (l1 ++ m :: l2))
      by (intros; apply in_or_app; right; now left).
    split.
    + apply Z.le_antisymm.
      * apply (Hbound b1 b2 _ _ Hblt Hble). rewrite <- Hb.
        eapply Permutation_in; [exact Hp|]. rewrite Ha. apply Hin.
      * apply (Hbound a1 a2 _ _ Halt Hale). rewrite <- Ha.
        eapply Permutation_in; [apply Permutation_sym, Hp|].
        rewrite Hb. apply Hin.
    + apply Z.le_antisymm.
      * apply (Hbound' c1 c2 _ _ Hclt Hcle). rewrite <- Hc.
        eapply Permutation_in; [apply Permutation_sym, Hp|].
        rewrite He. apply Hin.
      * apply (Hbound' e1 e2 _ _ Helt Hele). rewrite <- He.
        eapply Permutation_in; [exact Hp|]. rewrite Hc. apply Hin.
Qed.

(** X8. The statistics do not depend on the order in which the students
    were entered: two orderings of the same entries have the same average,
    the same median and the same highest and lowest mark (the student named
    with an extreme mark may differ when several tie). *)
Theorem statistics_order_independent (d1 d2 : dict Z) :
  Permutation d1 d2 ->
  calculate_average d1 = calculate_average d2 /\
  calculate_median d1 = calculate_median d2 /\
  exists hi1 hi2 lo1 lo2,
    get_max_score d1 = Ok hi1 /\ get_max_score d2 = Ok hi2 /\
    get_min_score d1 = Ok lo1 /\ get_min_score d2 = Ok lo2 /\
    snd hi1 = snd hi2 /\ snd lo1 = snd lo2.
Proof.
  intros Hp. split; [|split; [|now apply extreme_marks_agree]].
  - destruct d1 as [|x1 r1].
    + apply Permutation_nil in Hp. now subst d2.
    + destruct d2 as [|x2 r2];
        [apply Permutation_sym, Permutation_nil in Hp; discriminate|].
      unfold calculate_average. simpl not_. cbv iota.
      assert (Hv : Permutation (values (x1 :: r1)) (values (x2 :: r2)))
        by now apply Permutation_map.
      rewrite !sum_total, (total_permutation _ _ Hv).
      now rewrite (Permutation_length Hv).
  - destruct d1 as [|x1 r1].
    + apply Permutation_nil in Hp. now subst d2.
    + destruct d2 as [|x2 r2];
        [apply Permutation_sym, Permutation_nil in Hp; discriminate|].
      unfold calculate_median, median. simpl not_. cbv iota.
      assert (Hv : Permutation (values (x1 :: r1)) (values (x2 :: r2)))
        by now apply Permutation_map.
      now rewrite (sort_permutation _ _ Hv).
Qed.

Lemma statistics_order_independent_witness :
  calculate_median [("Ann", 7); ("Ben", 7); ("Cy", 3)]
  = calculate_median [("Ben", 7); ("Cy", 3); ("Ann", 7)] /\
  get_max_score [("Ann", 7); ("Ben", 7); ("Cy", 3)] = Ok ("Ann", 7) /\
  get_max_score [("Ben", 7); ("Cy", 3); ("Ann", 7)] = Ok ("Ben", 7).
Proof.
  split; [|split; reflexivity].
  apply (statistics_order_independent
           [("Ann", 7); ("Ben", 7); ("Cy", 3)]
           [("Ben", 7); ("Cy", 3); ("Ann", 7)]).
  apply Permutation_cons_append.
Defined.

(** ** Grades and the pass/fail filter together *)

Lemma letter_monotone (m1 m2 : Z) :
  m1 <= m2 -> String.leb (letter m2) (letter m1) = true.
Proof.
  intros H. unfold letter. rewrite !Z.geb_leb.
  destruct (Z.leb_spec 90 m2); destruct (Z.leb_spec 90 m1); try lia;
    try reflexivity;
  destruct (Z.leb_spec 80 m2); destruct (Z.leb_spec 80 m1); try lia;
    try reflexivity;
  destruct (Z.leb_spec 70 m2); destruct (Z.leb_spec 70 m1); try lia;
    try reflexivity;
  destruct (Z.leb_spec 60 m2); destruct (Z.leb_spec 60 m1); try lia;
    reflexivity.
Qed.

(** X9. A higher mark never gets a worse grade: of two students of one
    mapping, the one with the mark at least as high has a letter at least
    as early in the alphabet. *)
Theorem grade_monotone (marks_dict : dict Z) (name1 name2 : string)
    (mark1 mark2 : Z) :
  wf marks_dict ->
  lookup marks_dict name1 = Some mark1 ->
  lookup marks_dict name2 = Some mark2 ->
  mark1 <= mark2 ->
  exists grade1 grade2,
    lookup (assign_grades marks_dict) name1 = Some grade1 /\
    lookup (assign_grades marks_dict) name2 = Some grade2 /\
    String.leb grade2 grade1 = true.
Proof.
  intros Hwf H1 H2 Hle. exists (letter mark1), (letter mark2).
  rewrite !lookup_assign_grades, H1, H2 by exact Hwf.
  repeat split. now apply letter_monotone.
Qed.

Lemma grade_monotone_witness :
  exists grade1 grade2,
    lookup (assign_grades sample) "Cara" = Some grade1 /\
    lookup (assign_grades sample) "Bo" = Some grade2 /\
    String.leb grade2 grade1 = true.
Proof.
  apply (grade_monotone sample "Cara" "Bo" 59 89 ltac:(solve_wf) eq_refl eq_refl).
  lia.
Defined.

Lemma map_setitem {V W : Type} (f : V -> W) (d : dict V) (k : string) (v : V) :
  map (fun item => (fst item, f (snd item))) (setitem d k v)
  = setitem (map (fun item => (fst item, f (snd item))) d) k (f v).
Proof.
  induction d as [|[k0 v0] d IH]; simpl; [reflexivity|].
  destruct (String.eqb k0 k); simpl; [reflexivity | now rewrite IH].
Qed.

(** X10. Grading commutes with recording a mark: grading a mapping after
    [marks_dict[name] = mark] is the same as recording, in the grades of
    the mapping, the grade that mark gets on its own. *)
Theorem assign_grades_setitem (marks_dict : dict Z) (name : string) (mark : Z) :
  wf marks_dict ->
  exists grade,
    assign_grades [(name, mark)] = [(name, grade)] /\
    assign_grades (setitem marks_dict name mark)
    = setitem (assign_grades marks_dict) name grade.
Proof.
  intros Hwf. exists (letter mark). split.
  - now rewrite assign_grades_fold.
  - rewrite (assign_grades_map _ (wf_setitem marks_dict name mark Hwf)).
    rewrite (assign_grades_map _ Hwf). apply map_setitem.
Qed.

Lemma assign_grades_setitem_witness :
  assign_grades (setitem sample "Bo" 95)
  = setitem (assign_grades sample) "Bo" "A".
Proof.
  destruct (assign_grades_setitem sample "Bo" 95 ltac:(solve_wf))
    as (grade & Hg & Heq).
  injection Hg as <-. exact Heq.
Defined.

Lemma count_grade_letters (gs : list string) :
  count_grade "A" gs + count_grade "B" gs + count_grade "C" gs
  + count_grade "D" gs + count_grade "F" gs
  = Z.of_nat (List.length (filter is_letter gs)).
Proof.
  induction gs as [|g gs IH]; [reflexivity|].
  rewrite !count_grade_cons. cbn [filter]. unfold is_letter at 1, bump.
  cbn [existsb]. rewrite !(String.eqb_sym g).
  destruct (String.eqb_spec "A" g) as [<-|_];
    [eval_eqb; cbn [orb List.length]; rewrite Nat2Z.inj_succ; lia|].
  destruct (String.eqb_spec "B" g) as [<-|_];
    [eval_eqb; cbn [orb List.length]; rewrite Nat2Z.inj_succ; lia|].
  destruct (String.eqb_spec "C" g) as [<-|_];
    [eval_eqb; cbn [orb List.length]; rewrite Nat2Z.inj_succ; lia|].
  destruct (String.eqb_spec "D" g) as [<-|_];
    [eval_eqb; cbn [orb List.length]; rewrite Nat2Z.inj_succ; lia|].
  destruct (String.eqb_spec "F" g) as [<-|_];
    [eval_eqb; cbn [orb List.length]; rewrite Nat2Z.inj_succ; lia|].
  cbn [orb]. lia.
Qed.

(** X11. On any name -> grade mapping the distribution keeps its five
    categories and counts only the grades that are one of A, B, C, D, F: a
    grade such as "N/A" or "E" opens no category and is counted nowhere, so
    the counters add up to the number of students with one of the five
    letters. *)
Theorem distribution_ignores_other_grades (grades_dict : dict string) :
  let distribution := calculate_grade_distribution grades_dict in
  keys distribution = ["A"; "B"; "C"; "D"; "F"] /\
  (forall grade,
      is_letter grade = false -> contains distribution grade = false) /\
  sum (values distribution)
  = Z.of_nat (List.length (filter is_letter (values grades_dict))) /\
  sum (values distribution) <= Z.of_nat (len grades_dict).
Proof.
  intros distribution. subst distribution.
  rewrite calculate_grade_distribution_counts.
  assert (Hsum : sum (values (tally (count_grade "A" (values grades_dict))
                                (count_grade "B" (values grades_dict))
                                (count_grade "C" (values grades_dict))
                                (count_grade "D" (values grades_dict))
                                (count_grade "F" (values grades_dict))))
                 = Z.of_nat (List.length (filter is_letter (values grades_dict)))).
  { unfold sum, tally. cbn [values map snd fold_left]. rewrite Z.add_0_l.
    apply count_grade_letters. }
  split; [reflexivity|]. split; [|split; [exact Hsum|]].
  - intros grade Hg. unfold is_letter in Hg. cbn [existsb] in Hg.
    rewrite !(String.eqb_sym grade) in Hg.
    unfold contains, tally. cbn [lookup].
    destruct (String.eqb "A" grade); [discriminate|].
    destruct (String.eqb "B" grade); [discriminate|].
    destruct (String.eqb "C" grade); [discriminate|].
    destruct (String.eqb "D" grade); [discriminate|].
    destruct (String.eqb "F" grade); [discriminate | reflexivity].
  - rewrite Hsum. apply inj_le. unfold len, values.
    rewrite <- (length_map snd grades_dict). apply filter_length_le.
Qed.

(** X12. With a pass mark of at most 60, as the 40 that [main] uses,
    every student who fails has grade F, and every student with a grade
    other than F passes. *)
Theorem failed_students_have_F (marks_dict : dict Z) (pass_threshold : Z)
    (name : string) :
  wf marks_dict ->
  pass_threshold <= 60 ->
  (In name (keys (failed_students marks_dict pass_threshold)) ->
   lookup (assign_grades marks_dict) name = Some "F") /\
  (forall grade,
      lookup (assign_grades marks_dict) name = Some grade ->
      grade <> "F" ->
      In name (keys (passed_students marks_dict pass_threshold))).
Proof.
  intros Hwf Ht.
  rewrite (passed_students_filter _ _ Hwf), (failed_students_filter _ _ Hwf).
  split.
  - intros Hin. apply lookup_In_keys in Hin. destruct Hin as [m Hm].
    apply lookup_filter in Hm; [|exact Hwf]. destruct Hm as [Hm Hlt].
    simpl in Hlt. apply Z.ltb_lt in Hlt.
    rewrite lookup_assign_grades, Hm by exact Hwf. simpl. f_equal.
    apply letter_cutoffs. lia.
  - intros grade Hg HnF. rewrite lookup_assign_grades in Hg by exact Hwf.
    destruct (lookup marks_dict name) as [m|] eqn:Hm; [|discriminate].
    injection Hg as <-. apply lookup_In_keys. exists m.
    apply lookup_filter; [exact Hwf|]. split; [exact Hm|]. simpl.
    rewrite Z.geb_leb. apply Z.leb_le.
    destruct (Z.lt_ge_cases m 60) as [Hlt|Hge]; [|lia].
    exfalso. apply HnF. now apply letter_cutoffs.
Qed.

Lemma failed_students_have_F_witness :
  In "Cara" (keys (failed_students (("Al", 39) :: sample) 60)) /\
  lookup (assign_grades (("Al", 39) :: sample)) "Cara" = Some "F".
Proof.
  split; [right; now left|].
  apply (failed_students_have_F (("Al", 39) :: sample) 60 "Cara"
           ltac:(solve_wf) ltac:(lia)).
  right. now left.
Defined.

(** X13. Raising the pass mark never lets anyone pass who failed before
    and never fails fewer students. *)
Theorem pass_mark_monotone (marks_dict : dict Z) (low high : Z) (name : string) :
  wf marks_dict ->
  low <= high ->
  (In name (keys (passed_students marks_dict high)) ->
   In name (keys (passed_students marks_dict low))) /\
  (In name (keys (failed_students marks_dict low)) ->
   In name (keys (failed_students marks_dict high))) /\
  (len (passed_students marks_dict high)
   <= len (passed_students marks_dict low))%nat.
Proof.
  intros Hwf Hle.
  rewrite !(passed_students_filter _ _ Hwf), !(failed_students_filter _ _ Hwf).
  split; [|split].
  - intros Hin. apply lookup_In_keys in Hin. destruct Hin as [m Hm].
    apply lookup_filter in Hm; [|exact Hwf]. destruct Hm as [Hm Hp].
    apply lookup_In_keys. exists m. apply lookup_filter; [exact Hwf|].
    split; [exact Hm|]. simpl in *. rewrite Z.geb_leb in *.
    apply Z.leb_le in Hp. apply Z.leb_le. lia.
  - intros Hin. apply lookup_In_keys in Hin. destruct Hin as [m Hm].
    apply lookup_filter in Hm; [|exact Hwf]. destruct Hm as [Hm Hp].
    apply lookup_In_keys. exists m. apply lookup_filter; [exact Hwf|].
    split; [exact Hm|]. simpl in *.
    apply Z.ltb_lt in Hp. apply Z.ltb_lt. lia.
  - unfold len. clear Hwf. induction marks_dict as [|[k m] d IH]; simpl; [lia|].
    rewrite !Z.geb_leb.
    destruct (Z.leb_spec high m); destruct (Z.leb_spec low m); simpl; lia.
Qed.

Lemma pass_mark_monotone_witness :
  (len (passed_students sample 90) <= len (passed_students sample 60))%nat.
Proof.
  apply (pass_mark_monotone sample 60 90 "Bo" ltac:(solve_wf)). lia.
Defined.

(** ** CSV export *)









(** *** The order of names *)

Lemma ascii_compare_N (a b : ascii) :
  Ascii.compare a b = N.compare (N_of_ascii a) (N_of_ascii b).
Proof. reflexivity. Qed.

Lemma string_leb_trans :
  Transitive (fun a b => is_true (String.leb a b)).
Proof.
  intros a. unfold is_true, String.leb.
  induction a as [|x a IH]; intros b c Hab Hbc.
  - destruct c; reflexivity.
  - destruct b as [|y b]; [discriminate Hab|].
    destruct c as [|z c]; [discriminate Hbc|].
    cbn [String.compare] in *. rewrite ascii_compare_N in *.
    destruct (N.compare_spec (N_of_ascii x) (N_of_ascii y)) as [Exy|Lxy|Gxy];
      [| |discriminate Hab];
      destruct (N.compare_spec (N_of_ascii y) (N_of_ascii z)) as [Eyz|Lyz|Gyz];
      try discriminate Hbc;
      destruct (N.compare_spec (N_of_ascii x) (N_of_ascii z)) as [Exz|Lxz|Gxz];
      try reflexivity; try lia.
    now apply (IH b c).
Qed.

Lemma sorted_names_eq (s1 s2 : list string) :
  StronglySorted (fun a b => is_true (String.leb a b)) s1 ->
  StronglySorted (fun a b => is_true (String.leb a b)) s2 ->
  Permutation s1 s2 -> s1 = s2.
Proof.
  intros H1. revert s2. induction H1 as [|x s1 Hs1 IH Hx]; intros s2 H2 Hp.
  - now apply Permutation_nil in Hp.
  - destruct H2 as [|y s2 Hs2 Hy].
    + apply Permutation_sym, Permutation_nil in Hp. discriminate.
    + assert (Hxy : x = y).
      { rewrite Forall_forall in Hx, Hy.
        assert (Hin1 : In x (y :: s2))
          by (eapply Permutation_in; [exact Hp | now left]).
        assert (Hin2 : In y (x :: s1))
          by (eapply Permutation_in; [apply Permutation_sym, Hp | now left]).
        destruct Hin1 as [->|Hin1]; [reflexivity|].
        destruct Hin2 as [->|Hin2]; [reflexivity|].
        apply String.leb_antisym; [now apply Hx | now apply Hy]. }
      subst y. f_equal. apply IH; [exact Hs2|].
      now apply Permutation_cons_inv in Hp.
Qed.

Lemma sort_names_permutation (xs ys : list string) :
  Permutation xs ys -> StrSort.sort xs = StrSort.sort ys.
Proof.
  intros Hp. apply sorted_names_eq.
  - apply (StrSort.StronglySorted_sort xs string_leb_trans).
  - apply (StrSort.StronglySorted_sort ys string_leb_trans).
  - eapply Permutation_trans; [apply Permutation_sym, StrSort.Permuted_sort|].
    eapply Permutation_trans; [exact Hp | apply StrSort.Permuted_sort].
Qed.

Lemma mark_of_dict_eq (d1 d2 : dict Z) (name : string) :
  dict_eq d1 d2 -> mark_of d1 name = mark_of d2 name.
Proof. intros H. unfold mark_of. now rewrite (H name). Qed.

(** X16. The file exported does not depend on the order in which the
    students were entered: two orderings of the same entries are exported
    as the same rows. *)
Theorem export_order_independent (d1 d2 : dict Z) :
  wf d1 ->
  Permutation d1 d2 ->
  save_results_to_csv d1 (assign_grades d1)
  = save_results_to_csv d2 (assign_grades d2).
Proof.
  intros Hwf Hp.
  assert (Hwf2 : wf d2).
  { unfold wf, keys. eapply Permutation_NoDup; [|exact Hwf].
    now apply Permutation_map. }
  rewrite (save_results_prefix d1 Hwf), (save_results_prefix d2 Hwf2).
  assert (Hk : Permutation (keys d1) (keys d2)) by now apply Permutation_map.
  rewrite (sort_names_permutation _ _ Hk).
  assert (Hm : forall name, mark_of d1 name = mark_of d2 name).
  { intros name. apply mark_of_dict_eq. now apply Permutation_dict_eq. }
  rewrite (take_while_ext (fun name => prints (mark_of d1 name))
             (fun name => prints (mark_of d2 name)))
    by (intros name _; now rewrite Hm).
  rewrite (forallb_same (fun name => prints (mark_of d1 name))
             (fun name => prints (mark_of d2 name)))
    by (intros name; now rewrite Hm).
  do 2 f_equal. apply map_ext. intros name. unfold export_row.
  now rewrite Hm.
Qed.

Lemma export_order_independent_witness :
  save_results_to_csv [("Bo", 89); ("Abe", 90)] (assign_grades [("Bo", 89); ("Abe", 90)])
  = save_results_to_csv [("Abe", 90); ("Bo", 89)] (assign_grades [("Abe", 90); ("Bo", 89)]).
Proof.
  apply (export_order_independent [("Bo", 89); ("Abe", 90)] [("Abe", 90); ("Bo", 89)]).
  - solve_wf.
  - apply perm_swap.
Defined.

(** ** Export and import together *)

(** X17. A store loaded from the rows that the CSV reader yields (read in
    universal-newlines mode, so that no field holds a carriage return, and
    no field above the reader's limit of 131072 characters) survives export
    and import: the export reports no error and importing the file exported
    gives the same mapping, whatever integers the marks read are. *)
Theorem loaded_store_survives_export (rows : list row) :
  Forall (Forall (fun field => no_cr field = true)) rows ->
  Forall (Forall (fun field => fits field = true)) rows ->
  snd (save_results_to_csv (fst (load_from_csv (Some rows)))
         (assign_grades (fst (load_from_csv (Some rows))))) = None /\
  dict_eq (reimport (fst (load_from_csv (Some rows))))
    (fst (load_from_csv (Some rows))).
Proof.
  intros Hrows Hfits. split; [|now apply loaded_store_round_trip].
  destruct (load_from_csv_store (Some rows)) as [Hwf _].
  now rewrite (save_results_rows _ Hwf (load_from_csv_printable (Some rows))).
Qed.

Lemma loaded_store_survives_export_witness :
  dict_eq
    (reimport (fst (load_from_csv
                      (Some [["Name"; "Marks"]; ["Zed"; "250"]; [" Al "; "-3"]]))))
    (fst (load_from_csv (Some [["Name"; "Marks"]; ["Zed"; "250"]; [" Al "; "-3"]]))).
Proof.
  apply (loaded_store_survives_export
           [["Name"; "Marks"]; ["Zed"; "250"]; [" Al "; "-3"]]).
  - repeat constructor.
  - repeat constructor.
Defined.

Lemma StronglySorted_prefix {A : Type} (R : A -> A -> Prop) (xs ys : list A) :
  StronglySorted R (xs ++ ys)%list -> StronglySorted R xs.
Proof.
  induction xs as [|x xs IH]; cbn [app]; intros H; [constructor|].
  inversion H as [|? ? Hs Hx]; subst. constructor; [now apply IH|].
  rewrite Forall_forall in *. intros y Hy. apply Hx. apply in_or_app. now left.
Qed.

Lemma lookup_pairs_of_names (f : string -> Z) (names : list string) (name : string) :
  In name names -> lookup (map (fun n => (n, f n)) names) name = Some (f name).
Proof.
  induction names as [|n names IH]; [contradiction|].
  cbn [map lookup]. destruct (String.eqb_spec n name) as [->|Hne];
    [reflexivity|].
  intros [H|H]; [contradiction | now apply IH].
Qed.

Lemma keys_pairs_of_names (f : string -> Z) (names : list string) :
  keys (map (fun name => (name, f name)) names) = names.
Proof. unfold keys. rewrite map_map. simpl. apply map_id. Qed.

(** X18. What an export followed by an import returns is the store in
    canonical form: the same list for every order of entry, and unchanged
    by a further export and import. *)
Theorem reimport_canonical (d1 d2 : dict Z) :
  wf d1 ->
  Forall plain (keys d1) ->
  Permutation d1 d2 ->
  reimport d1 = reimport d2 /\
  reimport (reimport d1) = reimport d1 /\
  Sorted (fun a b => is_true (String.leb a b)) (keys (reimport d1)).
Proof.
  intros Hwf Hs Hp.
  assert (Hwf2 : wf d2).
  { unfold wf, keys. eapply Permutation_NoDup; [|exact Hwf].
    now apply Permutation_map. }
  assert (Hk : Permutation (keys d1) (keys d2)) by now apply Permutation_map.
  assert (Hs2 : Forall plain (keys d2)).
  { rewrite Forall_forall in *. intros n Hn. apply Hs.
    eapply Permutation_in; [apply Permutation_sym, Hk | exact Hn]. }
  assert (Hm : forall name, mark_of d1 name = mark_of d2 name).
  { intros name. apply mark_of_dict_eq. now apply Permutation_dict_eq. }
  rewrite (reimport_prefix d1 Hwf Hs).
  set (read := take_while fits
                 (take_while (fun name => prints (mark_of d1 name))
                    (StrSort.sort (keys d1)))).
  destruct (take_while_prefix fits
              (take_while (fun name => prints (mark_of d1 name))
                 (StrSort.sort (keys d1)))) as [rest1 H1].
  destruct (take_while_prefix (fun name => prints (mark_of d1 name))
              (StrSort.sort (keys d1))) as [rest2 H2].
  fold read in H1. rewrite H1, <- app_assoc in H2.
  assert (Hsorted : StronglySorted (fun a b => is_true (String.leb a b)) read).
  { apply (StronglySorted_prefix _ read (rest1 ++ rest2)). rewrite <- H2.
    apply (StrSort.StronglySorted_sort _ string_leb_trans). }
  assert (Hread : forall name, In name read ->
            In name (keys d1) /\ prints (mark_of d1 name) = true /\
            fits name = true).
  { intros name H. apply take_while_In in H. destruct H as [H Hf].
    apply take_while_In in H. destruct H as [H Hpr].
    split; [now apply sorted_keys_In | now split]. }
  split; [|split].
  - rewrite (reimport_prefix d2 Hwf2 Hs2).
    rewrite <- (sort_names_permutation _ _ Hk).
    rewrite (take_while_ext (fun name => prints (mark_of d2 name))
               (fun name => prints (mark_of d1 name)))
      by (intros name _; now rewrite Hm).
    fold read. apply map_ext. intros name. now rewrite Hm.
  - set (r := map (fun name => (name, mark_of d1 name)) read).
    assert (Hkr : keys r = read) by apply keys_pairs_of_names.
    assert (Hwfr : wf r).
    { unfold wf. rewrite Hkr. apply (NoDup_prefix read (rest1 ++ rest2)).
      rewrite <- H2.
      eapply Permutation_NoDup; [apply StrSort.Permuted_sort | exact Hwf]. }
    assert (Hplr : Forall plain (keys r)).
    { rewrite Hkr. rewrite Forall_forall in *. intros n Hn.
      now apply Hs, Hread. }
    assert (Hmr : forall name, In name read -> mark_of r name = mark_of d1 name).
    { intros name Hin. unfold mark_of at 1. unfold r.
      now rewrite (lookup_pairs_of_names (mark_of d1) read name Hin). }
    rewrite (reimport_prefix r Hwfr Hplr), Hkr.
    assert (Hsort : StrSort.sort read = read).
    { apply sorted_names_eq; [|exact Hsorted|].
      - apply (StrSort.StronglySorted_sort _ string_leb_trans).
      - apply Permutation_sym, StrSort.Permuted_sort. }
    rewrite Hsort.
    rewrite (take_while_all (fun name => prints (mark_of r name)))
      by (intros name Hin; rewrite (Hmr name Hin); now apply Hread).
    rewrite take_while_all by (intros name Hin; now apply Hread).
    apply map_ext_in. intros name Hin. now rewrite Hmr.
  - rewrite keys_pairs_of_names. now apply StronglySorted_Sorted.
Qed.

Lemma reimport_canonical_witness :
  reimport [("Bo", 89); ("Abe", 90)] = reimport [("Abe", 90); ("Bo", 89)].
Proof.
  apply (reimport_canonical [("Bo", 89); ("Abe", 90)] [("Abe", 90); ("Bo", 89)]).
  - solve_wf.
  - repeat constructor.
  - apply perm_swap.
Defined.

(** ** Results table *)

Lemma length_append (s t : string) :
  String.length (s ++ t) = (String.length s + String.length t)%nat.
Proof. induction s as [|c s IH]; simpl; [reflexivity | now rewrite IH]. Qed.

Lemma append_assoc_str (s t u : string) :
  ((s ++ t) ++ u)%string = (s ++ (t ++ u))%string.
Proof. induction s as [|c s IH]; simpl; [reflexivity | now rewrite IH]. Qed.

Lemma length_repeat_blank (n : nat) : String.length (repeat_str " " n) = n.
Proof. induction n as [|n IH]; simpl; [reflexivity | now rewrite IH]. Qed.

(** Padding reaches the width and never cuts. *)
Lemma length_ljust (s : string) (w : nat) :
  String.length (ljust s w) = Nat.max (String.length s) w.
Proof. unfold ljust. rewrite length_append, length_repeat_blank. lia. Qed.

Lemma table_rows_total (names : list string) (marks_dict : dict Z)
    (grades_dict : dict string) :
  (forall name, In name names -> In name (keys marks_dict)) ->
  (forall name, In name names -> printable (mark_of marks_dict name)) ->
  table_rows names marks_dict grades_dict
  = Ok (map (fun name =>
               (ljust name 20 ++ " " ++ ljust (decimal (mark_of marks_dict name)) 10
                ++ " " ++ ljust (get_default grades_dict name "N/A") 10)%string)
          names).
Proof.
  induction names as [|name names IH]; intros Hin Hp; [reflexivity|].
  cbn [table_rows map]. unfold table_row, getitem.
  rewrite (mark_of_In marks_dict name) by (apply Hin; now left).
  cbn [bind]. rewrite (Hp name (or_introl eq_refl)). cbn [bind].
  rewrite IH by (intros n Hn; (apply Hin || apply Hp); now right).
  reflexivity.
Qed.

(** X19. When every mark can be printed (it has at most 4300 digits, as
    every mark read by the input adapters has), the results table is
    printed for any grades, without error: it has five framing lines, one
    line per student in ascending order of the names, and a closing line; a
    student without a grade is shown with "N/A" (where the export would
    stop with [KeyError]). *)
Theorem results_table_lines (marks_dict : dict Z) (grades_dict : dict string) :
  Forall printable (values marks_dict) ->
  exists names lines,
    Permutation names (keys marks_dict) /\
    Sorted (fun a b => is_true (String.leb a b)) names /\
    print_results_table marks_dict grades_dict = Ok lines /\
    List.length lines = (6 + len marks_dict)%nat /\
    forall i name,
      nth_error names i = Some name ->
      exists line,
        nth_error lines (5 + i) = Some line /\
        table_row marks_dict grades_dict name = Ok line /\
        (~ In name (keys grades_dict) ->
         exists s, line = (s ++ ljust "N/A" 10)%string).
Proof.
  intros Hpr.
  pose proof (StrSort.Permuted_sort (keys marks_dict)) as Hp.
  assert (Hk : forall name, In name (StrSort.sort (keys marks_dict)) ->
                            In name (keys marks_dict)).
  { intros name Hin.
    eapply Permutation_in; [apply Permutation_sym, Hp | exact Hin]. }
  assert (Hkp : forall name, In name (StrSort.sort (keys marks_dict)) ->
                             printable (mark_of marks_dict name)).
  { intros name Hin. apply printable_prints, printable_mark_of; auto. }
  exists (StrSort.sort (keys marks_dict)). eexists.
  split; [now apply Permutation_sym|]. split; [apply StrSort.Sorted_sort|].
  unfold print_results_table. rewrite (table_rows_total _ _ _ Hk Hkp).
  cbn [bind].
  split; [reflexivity|]. split.
  - cbn [List.length app]. rewrite length_app, length_map. cbn [List.length].
    rewrite <- (Permutation_length Hp). unfold len, keys.
    rewrite length_map. lia.
  - intros i name Hi.
    eexists. split; [|split].
    + cbn [app Nat.add nth_error].
      rewrite nth_error_app1
        by (rewrite length_map; apply nth_error_Some; congruence).
      rewrite nth_error_map, Hi. reflexivity.
    + unfold table_row, getitem.
      rewrite (mark_of_In marks_dict name)
        by (apply Hk; eapply nth_error_In; exact Hi).
      cbn [bind]. rewrite (Hkp name) by (eapply nth_error_In; exact Hi).
      reflexivity.
    + intros Hno. apply lookup_None in Hno. unfold get_default.
      rewrite Hno.
      exists (ljust name 20 ++ " " ++ ljust (decimal (mark_of marks_dict name)) 10
              ++ " ")%string.
      now rewrite !append_assoc_str.
Qed.

Lemma results_table_lines_witness :
  Forall printable (values sample) /\
  exists names lines,
    Permutation names (keys sample) /\
    Sorted (fun a b => is_true (String.leb a b)) names /\
    print_results_table sample (assign_grades sample) = Ok lines /\
    List.length lines = (6 + len sample)%nat.
Proof.
  assert (H : Forall printable (values sample)) by (repeat constructor).
  split; [exact H|].
  destruct (results_table_lines sample (assign_grades sample) H)
    as (names & lines & H1 & H2 & H3 & H4 & _).
  now exists names, lines.
Defined.

(** X20. The line of the table of a student whose mark can be printed (it
    has at most 4300 digits) is as wide as its three columns, 20, 10 and 10
    characters or what the name, the mark and the grade need if that is
    more, and the two blanks between them; with a name of at most 20
    characters, a mark in 0..100 and a grade of [assign_grades] it is
    exactly 42 characters wide, the mark starting at column 21 and the
    grade at column 32. *)
Theorem results_table_row_width (marks_dict : dict Z) (grades_dict : dict string)
    (name : string) (mark : Z) :
  lookup marks_dict name = Some mark ->
  printable mark ->
  exists line,
    table_row marks_dict grades_dict name = Ok line /\
    String.length line
    = (Nat.max (String.length name) 20 + 1
       + Nat.max (String.length (decimal mark)) 10 + 1
       + Nat.max (String.length (get_default grades_dict name "N/A")) 10)%nat /\
    ((String.length name <= 20)%nat ->
     0 <= mark <= 100 ->
     wf marks_dict ->
     grades_dict = assign_grades marks_dict ->
     String.length line = 42%nat /\
     substring 21 (String.length (decimal mark)) line = decimal mark /\
     substring 32 1 line = get_default grades_dict name "N/A").
Proof.
  intros Hlk Hpr. unfold table_row, getitem. rewrite Hlk. cbn [bind].
  rewrite Hpr. cbn [bind].
  eexists. split; [reflexivity|]. split.
  - rewrite !length_append, !length_ljust. simpl. lia.
  - intros Hname Hmark Hwf ->.
    pose proof (decimal_short mark Hmark) as Hstr.
    unfold get_default. rewrite (lookup_assign_grades _ _ Hwf), Hlk.
    cbn [option_map].
    assert (Hg : String.length (letter mark) = 1%nat).
    { pose proof (letter_five mark) as H5. simpl in H5.
      destruct H5 as [<-|[<-|[<-|[<-|[<-|[]]]]]]; reflexivity. }
    split; [rewrite !length_append, !length_ljust, Hg; simpl; lia|].
    assert (Hdrop : forall (s t : string) n,
               substring (String.length s) n (s ++ t) = substring 0 n t).
    { induction s as [|c s IH]; intros t n; simpl; [reflexivity | apply IH]. }
    assert (Htake : forall (s t : string),
               substring 0 (String.length s) (s ++ t) = s).
    { induction s as [|c s IH]; intros t; simpl.
      - now destruct t.
      - now rewrite IH. }
    assert (H21 : String.length (ljust name 20 ++ " ") = 21%nat)
      by (rewrite length_append, length_ljust; simpl; lia).
    assert (H32 : String.length
                    (ljust name 20 ++ " " ++ ljust (decimal mark) 10 ++ " ")
                  = 32%nat)
      by (rewrite !length_append, !length_ljust; simpl; lia).
    split.
    + replace (ljust name 20 ++ " " ++ ljust (decimal mark) 10 ++ " "
               ++ ljust (letter mark) 10)%string
        with ((ljust name 20 ++ " ")
              ++ (decimal mark ++ (repeat_str " " (10 - String.length (decimal mark))
                               ++ " " ++ ljust (letter mark) 10)))%string
        by (unfold ljust; now rewrite !append_assoc_str).
      rewrite <- H21 at 1. rewrite Hdrop. apply Htake.
    + replace (ljust name 20 ++ " " ++ ljust (decimal mark) 10 ++ " "
               ++ ljust (letter mark) 10)%string
        with ((ljust name 20 ++ " " ++ ljust (decimal mark) 10 ++ " ")
              ++ (letter mark ++ repeat_str " " (10 - String.length (letter mark))))%string
        by (unfold ljust; now rewrite !append_assoc_str).
      rewrite <- H32 at 1. rewrite Hdrop. rewrite <- Hg at 1. apply Htake.
Qed.

Lemma results_table_row_width_witness :
  exists line,
    table_row sample (assign_grades sample) "Bo" = Ok line /\
    String.length line = 42%nat /\
    substring 21 2 line = "89" /\ substring 32 1 line = "B".
Proof.
  destruct (results_table_row_width sample (assign_grades sample) "Bo" 89
              eq_refl eq_refl)
    as (line & Hline & _ & H).
  exists line. split; [exact Hline|].
  destruct H as (H42 & H21 & H32);
    [simpl; lia | lia | solve_wf | reflexivity |].
  split; [exact H42|]. split; [exact H21 | exact H32].
Defined.

(** ** The name of the file exported *)

Lemma substring_drop (s t : string) (n : nat) :
  substring (String.length s) n (s ++ t) = substring 0 n t.
Proof. induction s as [|c s IH]; simpl; [reflexivity | apply IH]. Qed.

Lemma substring_all (s : string) : substring 0 (String.length s) s = s.
Proof. induction s as [|c s IH]; simpl; [reflexivity | now rewrite IH]. Qed.

Lemma substring_split (s : string) (k : nat) :
  (k <= String.length s)%nat ->
  s = (substring 0 k s ++ substring k (String.length s - k) s)%string.
Proof.
  revert k. induction s as [|c s IH]; intros k Hk.
  - simpl in Hk. assert (k = 0%nat) as -> by lia. reflexivity.
  - destruct k as [|k].
    + cbn [substring append Nat.sub String.length].
      now rewrite substring_all.
    + simpl in Hk. cbn [substring append String.length Nat.sub].
      f_equal. apply IH. lia.
Qed.

(** [endswith] holds exactly of the strings with that ending. *)
Lemma endswith_iff (s suffix : string) :
  endswith s suffix = true <-> exists p, s = (p ++ suffix)%string.
Proof.
  unfold endswith. split.
  - intros H. apply andb_prop in H. destruct H as [Hle Heq].
    apply Nat.leb_le in Hle. apply String.eqb_eq in Heq.
    exists (substring 0 (String.length s - String.length suffix) s).
    pose proof (substring_split s (String.length s - String.length suffix)
                  ltac:(lia)) as Hsplit.
    replace (String.length s - (String.length s - String.length suffix))%nat
      with (String.length suffix) in Hsplit by lia.
    now rewrite Heq in Hsplit.
  - intros [p ->]. rewrite length_append. apply andb_true_intro. split.
    + apply Nat.leb_le. lia.
    + replace (String.length p + String.length suffix - String.length suffix)%nat
        with (String.length p) by lia.
      rewrite substring_drop, substring_all. apply String.eqb_refl.
Qed.

Lemma stripped_starts_clean (s : string) : stripped s -> starts_clean s = true.
Proof.
  intros H. rewrite <- H. unfold strip.
  apply starts_clean_rstrip, starts_clean_lstrip.
Qed.

Lemma rstrip_append_no_space (s t : string) :
  t <> "" -> no_space t = true -> rstrip (s ++ t) = (s ++ t)%string.
Proof.
  intros Ht Hns. induction s as [|c s IH].
  - simpl. now apply rstrip_no_space.
  - cbn [append rstrip]. rewrite IH.
    destruct (s ++ t)%string eqn:E; [|reflexivity].
    destruct s; simpl in E; [contradiction | discriminate].
Qed.

Lemma stripped_append (s t : string) :
  stripped s -> t <> "" -> no_space t = true -> stripped (s ++ t).
Proof.
  intros Hs Ht Hns. unfold stripped, strip.
  assert (Hl : lstrip (s ++ t) = (s ++ t)%string).
  { apply lstrip_starts_clean. destruct s as [|c s].
    - simpl. destruct t as [|c t]; [contradiction|]. simpl in *.
      now apply andb_prop in Hns.
    - exact (stripped_starts_clean _ Hs). }
  rewrite Hl. now apply rstrip_append_no_space.
Qed.

(** X21. The file name used for the export always ends in ".csv" and has
    no whitespace at either end: a name typed with that ending is kept (up
    to stripping), any other gets ".csv" appended, even the empty one; and
    using the result as the name typed gives the same file name again. *)
Theorem report_filename_csv (typed : string) :
  endswith (report_filename typed) ".csv" = true /\
  stripped (report_filename typed) /\
  (endswith (strip typed) ".csv" = true -> report_filename typed = strip typed) /\
  (endswith (strip typed) ".csv" = false ->
   report_filename typed = (strip typed ++ ".csv")%string) /\
  report_filename (report_filename typed) = report_filename typed.
Proof.
  assert (Hends : endswith (report_filename typed) ".csv" = true).
  { unfold report_filename.
    destruct (endswith (strip typed) ".csv") eqn:E; [exact E|].
    apply endswith_iff. now exists (strip typed). }
  assert (Hstripped : stripped (report_filename typed)).
  { unfold report_filename.
    destruct (endswith (strip typed) ".csv"); [apply strip_idempotent|].
    apply stripped_append;
      [apply strip_idempotent | discriminate | reflexivity]. }
  split; [exact Hends|]. split; [exact Hstripped|].
  split; [unfold report_filename; now intros ->|].
  split; [unfold report_filename; now intros ->|].
  unfold report_filename at 1. cbv zeta. rewrite Hstripped, Hends. reflexivity.
Qed.

Example report_filename_examples :
  map report_filename [""; "a.csv"; " a.csv "; "a.CSV"; "report"]
  = [".csv"; "a.csv"; "a.csv"; "a.CSV.csv"; "report.csv"].
Proof. reflexivity. Qed.

(** ** The main loop *)

Lemma manual_rest_suffix (lines : list string) :
  exists before, lines = (before ++ manual_rest lines)%list.
Proof.
  induction lines as [|l1|l1 l2 lines [before IH]] using pairs_ind.
  - now exists [].
  - cbn [manual_rest]. destruct (String.eqb (strip l1) "");
      [now exists [l1] | exists [l1]; reflexivity].
  - cbn [manual_rest]. destruct (String.eqb (strip l1) "").
    + now exists [l1].
    + exists (l1 :: l2 :: before). simpl. now rewrite <- IH.
Qed.

Lemma get_manual_input_raises (lines : list string) (e : exn) :
  get_manual_input lines = Raise e -> e = EOFError.
Proof.
  unfold get_manual_input. rewrite manual_loop_entries.
  destruct (terminated lines); [discriminate | now intros [= <-]].
Qed.

Lemma print_results_table_runs (marks_dict : dict Z) (grades_dict : dict string) :
  Forall printable (values marks_dict) ->
  exists lines, print_results_table marks_dict grades_dict = Ok lines.
Proof.
  intros Hp. unfold print_results_table.
  rewrite table_rows_total; [now eexists | |].
  - intros name. apply sorted_keys_In.
  - intros name Hin. apply printable_prints, printable_mark_of; [exact Hp|].
    now apply sorted_keys_In.
Qed.

Lemma print_summary_runs (marks_dict : dict Z) :
  exists lines, print_pass_fail_summary marks_dict 40 = Ok lines.
Proof.
  unfold print_pass_fail_summary. change (str 40) with (@Ok string "40").
  cbn [bind]. now eexists.
Qed.

Lemma In_values {V : Type} (d : dict V) (item : string * V) :
  In item (items d) -> In (snd item) (values d).
Proof. intros H. unfold values. now apply in_map. Qed.

(** The numbers of the statistics lines are marks, or floats. *)
Lemma print_statistics_runs (marks_data : dict Z) (a : analysis) :
  marks_data <> [] ->
  Forall printable (values marks_data) ->
  analyze marks_data = Ok a ->
  exists lines, print_statistics a = Ok lines.
Proof.
  intros Hne Hp Ha.
  destruct (analyze_cases marks_data Hne) as [(a' & Ha' & _ & _ & Hm & Hhi & Hlo)|H];
    [|congruence].
  assert (a' = a) by congruence. subst a'.
  rewrite Forall_forall in Hp.
  unfold print_statistics.
  rewrite (Hp _ (In_values _ _ Hhi)), (Hp _ (In_values _ _ Hlo)).
  destruct (med a) as [v|q] eqn:E; cbn [format_number bind].
  - rewrite (Hp v (Hm v eq_refl)). cbn [bind]. now eexists.
  - now eexists.
Qed.

(** Once the statistics are computed, the report is printed. *)
Lemma report_runs (marks_data : dict Z) (a : analysis) :
  marks_data <> [] ->
  Forall printable (values marks_data) ->
  analyze marks_data = Ok a ->
  exists statistics summary table,
    print_statistics a = Ok statistics /\
    print_pass_fail_summary marks_data 40 = Ok summary /\
    print_results_table marks_data (grades_data a) = Ok table.
Proof.
  intros Hne Hp Ha.
  destruct (print_statistics_runs _ _ Hne Hp Ha) as [statistics H1].
  destruct (print_summary_runs marks_data) as [summary H2].
  destruct (print_results_table_runs marks_data (grades_data a) Hp) as [table H3].
  now exists statistics, summary, table.
Qed.

Lemma not_empty {V : Type} (d : dict V) : not_ d = false -> d <> [].
Proof. destruct d; [discriminate | discriminate]. Qed.

Lemma load_from_reader_printable (file : option (list row * option exn)) :
  Forall printable (values (fst (load_from_reader file))).
Proof.
  destruct file as [[rows e]|]; [|constructor].
  rewrite load_from_reader_fst. apply load_from_csv_printable.
Qed.

Lemma ends_with_tail {A : Type} (x : A) (l l' : list A) :
  ends_with l l' -> ends_with (x :: l) l'.
Proof. intros [b ->]. now exists (x :: b). Qed.

Lemma ends_with_refl {A : Type} (l : list A) : ends_with l l.
Proof. now exists []. Qed.


Lemma save_report_next (w : world) (marks_data : dict Z) (grades_data : dict string) :
  match save_report w marks_data grades_data with
  | Continue w' => ends_with (stdin w) (stdin w')
  | Exit _ => False
  | Crash e _ => e = EOFError
  end.
Proof.
  unfold save_report. destruct (stdin w) as [|typed rest]; [reflexivity|].
  cbv zeta. cbn [can_write set_stdin].
  destruct (can_write w (report_filename typed)).
  - destruct (save_results_to_csv marks_data grades_data) as [rows [e|]];
      cbn; apply ends_with_tail, ends_with_refl.
  - cbn. apply ends_with_tail, ends_with_refl.
Qed.

(** A pass over marks that can be printed fails only on an overflowing
    division or when the input runs out. *)
Lemma run_analysis_next (w : world) (marks_data : dict Z) :
  Forall printable (values marks_data) ->
  match run_analysis w marks_data with
  | Continue w' => ends_with (stdin w) (stdin w')
  | Exit _ => False
  | Crash e _ => e = EOFError \/ e = OverflowError
  end.
Proof.
  intros Hp. unfold run_analysis.
  destruct (not_ marks_data) eqn:Hne; [apply ends_with_refl|].
  apply not_empty in Hne.
  destruct (analyze_cases marks_data Hne) as [(a & Ha & _)| ->]; [|now right].
  rewrite Ha.
  destruct (report_runs _ _ Hne Hp Ha) as (statistics & summary & table & -> & -> & ->).
  cbn [bind]. cbv zeta. cbn [stdin say].
  destruct (stdin w) as [|answer rest] eqn:E; [now left|].
  destruct (String.eqb (lower (strip answer)) "y").
  - pose proof (save_report_next
                  (set_stdin (say w (Report a statistics summary table)) rest)
                  marks_data (grades_data a)) as H.
    destruct (save_report _ marks_data (grades_data a)) as [w'| |e w'];
      [|exact H|now left].
    cbn [stdin set_stdin] in H. now apply ends_with_tail.
  - cbn. apply ends_with_tail, ends_with_refl.
Qed.

(** A pass that goes on has read at least one line; a pass that fails has
    run out of lines, or has divided marks beyond the range of a double. *)
Lemma step_next (w : world) :
  match step w with
  | Continue w' =>
      exists choice rest, stdin w = choice :: rest /\ ends_with rest (stdin w')
  | Exit w' => exists rest, stdin w = "3" :: rest
  | Crash e _ => e = EOFError \/ e = OverflowError
  end.
Proof.
  unfold step. destruct (stdin w) as [|choice rest] eqn:E; [now left|].
  cbv zeta. destruct (String.eqb_spec choice "1") as [->|_].
  - destruct (get_manual_input rest) as [[d out]|e] eqn:Em;
      [|left; now apply get_manual_input_raises in Em].
    destruct (get_manual_input_store rest d out Em) as [Hstore _].
    match goal with |- match run_analysis ?w0 d with _ => _ end =>
      pose proof (run_analysis_next w0 d (record_store_printable d Hstore)) as H;
      destruct (run_analysis w0 d) as [w'| |e w'] end; [|contradiction|exact H].
    cbn [stdin set_stdin say] in H. exists "1", rest. split; [reflexivity|].
    destruct H as [b Hb]. destruct (manual_rest_suffix rest) as [b' Hb'].
    exists (b' ++ b)%list. rewrite <- app_assoc, <- Hb. exact Hb'.
  - destruct (String.eqb_spec choice "2") as [->|_].
    + destruct rest as [|typed rest']; [now left|].
      pose proof (load_from_reader_printable
                    (option_map read_back (lookup (files w) (strip typed))))
        as Hp.
      destruct (load_from_reader _) as [d out]. cbn [fst] in Hp.
      match goal with |- match run_analysis ?w0 d with _ => _ end =>
        pose proof (run_analysis_next w0 d Hp) as H;
        destruct (run_analysis w0 d) as [w'| |e w'] end; [|contradiction|exact H].
      cbn [stdin set_stdin say] in H. exists "2", (typed :: rest').
      split; [reflexivity | now apply ends_with_tail].
    + destruct (String.eqb_spec choice "3") as [->|_].
      * now exists rest.
      * exists choice, rest. split; [reflexivity | apply ends_with_refl].
Qed.



(** A file with a mark of 401 digits: choosing it makes [main] fail. *)
Example main_overflow :
  exists w',
    main 2 {| stdin := ["2"; "big.csv"; "3"];
              files := [("big.csv", [["Name"; "Marks"];
                                     ["a"; decimal (10 ^ 400)]])];
              can_write := fun _ => true; printed := [] |}
    = Crashed OverflowError w'.
Proof. eexists. vm_compute. reflexivity. Qed.

Lemma run_analysis_files (w : world) (marks_data : dict Z) :
  Forall not_yes (stdin w) ->
  files (world_after (run_analysis w marks_data)) = files w.
Proof.
  intros Hno. unfold run_analysis. destruct (not_ marks_data); [reflexivity|].
  destruct (analyze marks_data) as [a|e]; [|reflexivity].
  destruct (statistics <- print_statistics a ;;
            summary <- print_pass_fail_summary marks_data 40 ;;
            table <- print_results_table marks_data (grades_data a) ;;
            Ok (statistics, summary, table)) as [[[statistics summary] table]|e];
    [|reflexivity].
  cbv zeta. cbn [stdin say]. destruct (stdin w) as [|answer rest];
    [reflexivity|].
  apply Forall_inv in Hno. unfold not_yes in Hno.
  destruct (String.eqb_spec (lower (strip answer)) "y"); [contradiction|].
  reflexivity.
Qed.

Lemma step_files (w : world) :
  Forall not_yes (stdin w) -> files (world_after (step w)) = files w.
Proof.
  intros Hno. unfold step. destruct (stdin w) as [|choice rest] eqn:E;
    [reflexivity|].
  apply Forall_inv_tail in Hno. cbv zeta.
  destruct (String.eqb choice "1").
  - destruct (get_manual_input rest) as [[d out]|e]; [|reflexivity].
    rewrite run_analysis_files; [reflexivity|]. cbn [stdin say set_stdin].
    destruct (manual_rest_suffix rest) as [b Hb]. rewrite Hb in Hno.
    now apply Forall_app in Hno.
  - destruct (String.eqb choice "2").
    + destruct rest as [|typed rest']; [reflexivity|].
      destruct (load_from_reader _) as [d out].
      rewrite run_analysis_files; [reflexivity|]. cbn [stdin say set_stdin].
      now apply Forall_inv_tail in Hno.
    + destruct (String.eqb choice "3"); reflexivity.
Qed.

(** X23. No file is written unless a line typed answers "y" (in any case,
    with or without blanks around it): in a session where no line does, the
    files are the same at the end as at the start, however the session ends. *)
Theorem files_untouched_without_yes (fuel : nat) (w : world) :
  Forall not_yes (stdin w) ->
  files (final (main fuel w)) = files w.
Proof.
  revert w. induction fuel as [|fuel IH]; intros w Hno; [reflexivity|].
  cbn [main]. pose proof (step_files w Hno) as Hf.
  pose proof (step_next w) as Hn.
  destruct (step w) as [w'|w'|e w']; cbn [world_after final] in *;
    [|exact Hf|exact Hf].
  rewrite IH; [exact Hf|].
  destruct Hn as (choice & rest & Hw & [b Hb]). rewrite Hw in Hno.
  apply Forall_inv_tail in Hno. rewrite Hb in Hno. now apply Forall_app in Hno.
Qed.

Lemma files_untouched_without_yes_witness :
  files (final (main 9 {| stdin := ["1"; "Bo"; "89"; ""; "no"; "2"; "a.csv"; "n"; "3"];
                          files := [("a.csv", [["Name"; "Marks"]; ["Al"; "7"]])];
                          can_write := fun _ => true; printed := [] |}))
  = [("a.csv", [["Name"; "Marks"]; ["Al"; "7"]])].
Proof.
  apply (files_untouched_without_yes 9
           {| stdin := ["1"; "Bo"; "89"; ""; "no"; "2"; "a.csv"; "n"; "3"];
              files := [("a.csv", [["Name"; "Marks"]; ["Al"; "7"]])];
              can_write := fun _ => true; printed := [] |}).
  repeat constructor; discriminate.
Defined.

(** *** Saving a report and loading it in the same session *)










